(** * Ljove-Tools: the streaming pipeline, structured extraction and quiz scoring

    A shallow embedding of the parts of the plugin that carry protocol or
    state-machine behaviour:

    - [AIService]    (src/services/AIService.ts): provider and key resolution,
      [callAI], [streamAI], the Gemini response parsers;
    - [QuizManager]  (src/services/QuizManager.ts): [generateQuestionsWithAI],
      [selectAnswer], [nextQuestion], [renderResultsScreen];
    - [ChatManager]  (same file, second class): [generateChatResponse],
      [stopChatResponse];
    - [MathUtils]    (src/utils/MarkdownRenderer.ts, second class):
      [ensureMathDelimiters].

    JavaScript strings are represented by [string], read as the UTF-8 encoding
    of the text.  Every character the code looks for by position ('[', ']',
    the backslash, '$', the newline, the "data: " prefix) is ASCII, and an
    ASCII byte never occurs inside the encoding of another character, so
    searching, splitting and slicing behave on the encoding as they do on the
    UTF-16 code units.  The DOM and what the console prints are left out;
    a conversion to text that a log line makes is not, since it can
    throw. *)

From Stdlib Require Import String Ascii List Bool Arith ZArith QArith Lia DecimalString.
From Stdlib Require PrimFloat FloatOps SpecFloat Uint63.
Import ListNotations.
Set Warnings "-register-all".
Close Scope Q_scope.
Open Scope nat_scope.
Open Scope list_scope.
Open Scope string_scope.

(* ===================================================================== *)
(** ** JavaScript values *)
(* ===================================================================== *)

Module JS.

(** A number that [JSON.parse] can produce: a finite double, read as its
    exact rational value, or an infinity (a literal such as 1e999).
    [JSON.parse] never yields NaN. *)
Inductive JSNum : Type :=
| NFin (q : Q)
| NPosInf
| NNegInf.

Inductive JSValue : Type :=
| JUndefined
| JNull
| JBool (b : bool)
| JNum (n : JSNum)
| JStr (s : string)
| JArr (items : list JSValue)
| JObj (fields : list (string * JSValue)).

(** Exceptions: the constructor name and the message. *)
Inductive ExnKind : Type := KError | KTypeError | KAbortError.

Record Exn : Type := mkExn { kind : ExnKind; message : string }.

Inductive result (A : Type) : Type :=
| Ok (a : A)
| Throw (e : Exn).
Arguments Ok {A} a.
Arguments Throw {A} e.

Definition bind {A B} (r : result A) (k : A -> result B) : result B :=
  match r with
  | Ok a => k a
  | Throw e => Throw e
  end.

Definition isOk {A} (r : result A) : bool :=
  match r with Ok _ => true | Throw _ => false end.

Definition Error (msg : string) : Exn := mkExn KError msg.

(** [a < b], [a >= b] and [a === b] on numbers. *)
Definition num_ltb (a b : JSNum) : bool :=
  match a, b with
  | NFin x, NFin y => negb (Qle_bool y x)
  | NFin _, NPosInf => true
  | NNegInf, NFin _ => true
  | NNegInf, NPosInf => true
  | _, _ => false
  end.

Definition num_geb (a b : JSNum) : bool := negb (num_ltb a b).

Definition num_eqb (a b : JSNum) : bool :=
  match a, b with
  | NFin x, NFin y => Qeq_bool x y
  | NPosInf, NPosInf => true
  | NNegInf, NNegInf => true
  | _, _ => false
  end.

Definition of_nat (n : nat) : JSNum := NFin (inject_Z (Z.of_nat n)).

(** ToBoolean. *)
Definition truthy (v : JSValue) : bool :=
  match v with
  | JUndefined | JNull => false
  | JBool b => b
  | JNum (NFin q) => negb (Qeq_bool q 0%Q)
  | JNum _ => true
  | JStr s => negb (s =? "")
  | JArr _ | JObj _ => true
  end.

Definition nullish (v : JSValue) : bool :=
  match v with
  | JUndefined | JNull => true
  | _ => false
  end.

Definition isArray (v : JSValue) : bool :=
  match v with JArr _ => true | _ => false end.

Definition isString (v : JSValue) : bool :=
  match v with JStr _ => true | _ => false end.

Definition isNumber (v : JSValue) : bool :=
  match v with JNum _ => true | _ => false end.

Fixpoint lookup (name : string) (fields : list (string * JSValue)) : JSValue :=
  match fields with
  | [] => JUndefined
  | (k, v) :: rest => if k =? name then v else lookup name rest
  end.

Definition describe (v : JSValue) : string :=
  match v with JNull => "null" | _ => "undefined" end.

(** [v.name] for the property names the program reads (choices, delta,
    content, candidates, parts, text, q, opts, ans, ...): none of them is
    defined by a built-in prototype, so only objects can carry them. *)
Definition get (v : JSValue) (name : string) : result JSValue :=
  match v with
  | JUndefined | JNull =>
      Throw (mkExn KTypeError
        ("Cannot read properties of " ++ describe v ++ " (reading '" ++ name ++ "')"))
  | JObj fields => Ok (lookup name fields)
  | _ => Ok JUndefined
  end.

(** [v?.name] *)
Definition opt_get (v : JSValue) (name : string) : JSValue :=
  match v with
  | JObj fields => lookup name fields
  | _ => JUndefined
  end.

(** [v?.[0]]: the first element of an array, the first unit of a string,
    the property "0" of an object. *)
Definition opt_first (v : JSValue) : JSValue :=
  match v with
  | JArr (x :: _) => x
  | JStr (String c _) => JStr (String c "")
  | JObj fields => lookup "0" fields
  | _ => JUndefined
  end.

(** [Object.hasOwn(v, name)] on the fields of an object. *)
Definition hasOwn (name : string) (fields : list (string * JSValue)) : bool :=
  existsb (fun field => fst field =? name) fields.

Definition notPrimitive : Exn :=
  mkExn KTypeError "Cannot convert object to primitive value".

Section ToString.
(** Number::toString is left to the platform. *)
Variable NumberToString : JSNum -> string.

(** ToString, as a template literal, [+=] on a text and a regular
    expression apply it, on the values [JSON.parse] produces.  Such a value
    holds no function.  An object is converted through its [toString] and
    [valueOf]: an own property of the name [toString] hides the inherited
    method and is not callable, the inherited [valueOf] returns the object
    itself, so the conversion throws; an own [valueOf] only hides a method
    that would not have helped.  Without an own [toString] the inherited
    one answers "[object Object]".  An array is joined with commas, null and
    undefined elements as the empty text, and the conversion of an element
    may throw in turn. *)
Fixpoint ToString (v : JSValue) : result string :=
  match v with
    | JUndefined => Ok "undefined"
    | JNull => Ok "null"
    | JBool true => Ok "true"
    | JBool false => Ok "false"
    | JNum n => Ok (NumberToString n)
    | JStr s => Ok s
    | JArr items =>
        (fix join (l : list JSValue) : result string :=
           match l with
           | [] => Ok ""
           | x :: rest =>
               bind (if nullish x then Ok "" else ToString x) (fun here =>
               match rest with
               | [] => Ok here
               | _ => bind (join rest) (fun more => Ok (here ++ "," ++ more))
               end)
           end) items
    | JObj fields =>
        if hasOwn "toString" fields then Throw notPrimitive
        else Ok "[object Object]"
    end.
End ToString.

(** [s.startsWith(needle)] *)
Fixpoint startsWith (needle s : string) : bool :=
  match needle, s with
  | "", _ => true
  | String a needle', String b s' => Ascii.eqb a b && startsWith needle' s'
  | String _ _, "" => false
  end.

(** String.prototype.includes *)
Fixpoint includes (s needle : string) : bool :=
  if startsWith needle s then true
  else match s with
       | "" => false
       | String _ s' => includes s' needle
       end.

(** String.prototype.slice(n) *)
Fixpoint slice_from (n : nat) (s : string) : string :=
  match n, s with
  | O, _ => s
  | S n', String _ s' => slice_from n' s'
  | S _, "" => ""
  end.

Definition newline : ascii := "010"%char.

(** String.prototype.split('\n'), with the line being collected. *)
Fixpoint split_lines (cur : string) (s : string) : list string :=
  match s with
  | "" => [cur]
  | String c s' =>
      if Ascii.eqb c newline then cur :: split_lines "" s'
      else split_lines (cur ++ String c "") s'
  end.

Definition split_nl (s : string) : list string := split_lines "" s.

End JS.
Import JS.

Notation "x <- r ;; k" := (bind r (fun x => k))
  (at level 61, r at next level, right associativity).

(** What the runtime supplies and the program only calls. [JSON_parse]
    returns [None] where JSON.parse throws a SyntaxError. *)
Class Runtime : Type := {
  JSON_parse : string -> option JSValue;
  NumberToString : JSNum -> string;
  toUpperCase : string -> string
}.

Definition jsToString {rt : Runtime} (v : JSValue) : result string :=
  ToString NumberToString v.

(* ===================================================================== *)
(** ** src/types.ts *)
(* ===================================================================== *)

Module Types.

(** The shape shared by [CustomModel] and the entries of [AVAILABLE_MODELS]. *)
Record CustomModel : Type := mkModel {
  id : string;
  name : string;
  provider : string
}.

(** The paper-importer fields and [instructionPrompt] play no part in the
    modelled functions and are left out. *)
Record LjoveSToolsSettings : Type := mkSettings {
  settingsProvider : string;
  geminiApiKey : string;
  openaiApiKey : string;
  deepseekApiKey : string;
  model : string;
  customModels : list CustomModel
}.

Definition AVAILABLE_MODELS : list CustomModel :=
  [ mkModel "gemini-2.5-flash" "Gemini 2.5 Flash" "gemini";
    mkModel "gemini-2.0-flash" "Gemini 2.0 Flash (Standard)" "gemini";
    mkModel "gpt-4.1-2025-04-14" "GPT-4.1" "openai";
    mkModel "gpt-4.1-mini-2025-04-14" "GPT-4.1 Mini" "openai";
    mkModel "o4-mini-2025-04-16" "o4-mini" "openai";
    mkModel "deepseek-chat" "DeepSeek-V3-0324" "deepseek" ].

(** The fields hold what the code puts there at run time: a validated
    question is a text, an option or an explanation may also be a falsy
    value that [ensureMathDelimiters] returned as it was, the answer is a
    number that need not be whole. *)
Record TestQuestion : Type := mkQuestion {
  question : JSValue;
  options : list JSValue;
  correctAnswer : JSNum;
  explanation : JSValue
}.

Record TestData : Type := mkTestData {
  questions : list TestQuestion;
  currentQuestion : nat;
  selectedAnswer : option nat;
  answered : bool;
  correctAnswers : nat
}.

Record ImageAttachment : Type := mkImage {
  data : string;
  mimeType : string
}.

Inductive Role : Type := user | assistant | system.

Record ChatMessage : Type := mkMessage {
  msgId : string;
  role : Role;
  content : string
}.

End Types.
Import Types.

(* ===================================================================== *)
(** ** The platform: promises, fetch and the abort signal *)
(* ===================================================================== *)

Module Platform.

(** How an awaited promise settles. *)
Inductive Settle (P : Type) : Type :=
| Value (p : P)
| Failure (e : Exn).
Arguments Value {P} p.
Arguments Failure {P} e.

(** One suspension of an async function: whether [abortController.abort()]
    runs while the function is suspended there (the Stop button is handled
    by the event loop only while the function awaits), and how the awaited
    promise would settle otherwise. *)
Record Await (P : Type) : Type := mkAwait {
  stop_pressed : bool;
  settles : Settle P
}.
Arguments mkAwait {P} _ _.
Arguments stop_pressed {P} _.
Arguments settles {P} _.

Definition AbortError : Exn :=
  mkExn KAbortError "The user aborted a request.".

(** A promise of a request that was given [signal] ([fetch] itself and every
    [read()] of its response body).  Fetch standard, "abort a fetch() call":
    once the signal is aborted the pending promise rejects with an
    AbortError and the body stream is errored, so later reads reject too.
    Returns the state of the signal afterwards and the settlement. *)
Definition await_bound {P} (aborted : bool) (a : Await P) : bool * Settle P :=
  if aborted || stop_pressed a then (true, Failure AbortError)
  else (false, settles a).

(** A promise that knows nothing of the signal (the Gemini SDK is not handed
    it): it settles as it would have, the signal only changes state. *)
Definition await_free {P} (aborted : bool) (a : Await P) : bool * Settle P :=
  (aborted || stop_pressed a, settles a).

(** Number to decimal text, as a template literal prints a status code. *)
Definition decimal (n : nat) : string :=
  DecimalString.NilEmpty.string_of_uint (Nat.to_uint n).

End Platform.
Import Platform.

(* ===================================================================== *)
(** ** src/services/AIService.ts *)
(* ===================================================================== *)

Module AIService.

Section WithRuntime.
Context {rt : Runtime}.

Definition findModel (catalog : list CustomModel) (modelId : string) : option CustomModel :=
  find (fun m => id m =? modelId) catalog.

(** [selectedModel?.provider || 'gemini'] *)
Definition getModelProvider (settings : LjoveSToolsSettings) : string :=
  match findModel AVAILABLE_MODELS (model settings) with
  | Some selectedModel =>
      if provider selectedModel =? "" then "gemini" else provider selectedModel
  | None => "gemini"
  end.

Definition getCurrentApiKey (settings : LjoveSToolsSettings) : string :=
  let provider := getModelProvider settings in
  if provider =? "openai" then openaiApiKey settings
  else if provider =? "deepseek" then deepseekApiKey settings
  else geminiApiKey settings.

(** *** Gemini response parsing *)

(** The inner loop over [candidate.content.parts]. *)
Fixpoint collectParts (parts : list JSValue) (textContent : string) : string :=
  match parts with
  | [] => textContent
  | part :: rest =>
      match (if truthy part then opt_get part "text" else JUndefined) with
      | JStr t => collectParts rest (textContent ++ t)
      | _ => collectParts rest textContent
      end
  end.

(** The outer loop over [candidates]; reading [candidate.content] of a null
    or undefined candidate throws. *)
Fixpoint collectCandidates (candidates : list JSValue) (textContent : string)
  : result string :=
  match candidates with
  | [] => Ok textContent
  | candidate :: rest =>
      content <- get candidate "content" ;;
      if negb (truthy content) then collectCandidates rest textContent
      else
        match opt_get content "parts" with
        | JArr parts => collectCandidates rest (collectParts parts textContent)
        | _ => collectCandidates rest textContent
        end
  end.

Definition extractTextFromGeminiChunk (chunk : JSValue) : result string :=
  candidates <- get chunk "candidates" ;;
  match candidates with
  | JArr cs => collectCandidates cs ""
  | _ => Ok ""
  end.

Definition extractTextFromGeminiResponse (data : JSValue) : result string :=
  candidates <- get data "candidates" ;;
  match candidates with
  | JArr cs =>
      textContent <- collectCandidates cs "" ;;
      if textContent =? "" then
        Throw (Error "Invalid response format from Gemini API: no text content found")
      else Ok textContent
  | _ => Throw (Error "Invalid response format from Gemini API: no candidates")
  end.

(** *** callAI *)

Inductive Request : Type :=
| HttpPost (url : string) (headers : list (string * string)) (body : JSValue)
| SdkGenerateContent (apiKey modelId : string) (parts : list JSValue).

(** A [Response]: [json] is what [response.json()] resolves to, [body] the
    reads of [response.body.getReader()], each resolving to a decoded chunk
    or to [None] when the stream is done; a body that runs out is done. *)
Record Response : Type := mkResponse {
  ok : bool;
  status : nat;
  json : result JSValue;
  body : list (Await (option string))
}.

(** The network as [callAI] sees it: how [fetch] and the SDK settle on each
    request, a rejection before anything is sent included. *)
Record Network : Type := mkNetwork {
  fetch : Request -> result Response;
  generateContent : Request -> result string
}.

Definition bearer (apiKey : string) : list (string * string) :=
  [("Content-Type", "application/json"); ("Authorization", "Bearer " ++ apiKey)].

Definition temperature : JSValue := JNum (NFin (7 # 10)%Q).

Definition imageUrlPart (image : ImageAttachment) : JSValue :=
  JObj [("type", JStr "image_url"); ("image_url", JObj [("url", JStr (data image))])].

Definition openaiBody (modelId prompt : string) (images : list ImageAttachment)
  (extra : list (string * JSValue)) : JSValue :=
  let content := (JObj [("type", JStr "text"); ("text", JStr prompt)]
                  :: map imageUrlPart images)%list in
  JObj ([("model", JStr modelId);
         ("messages", JArr [JObj [("role", JStr "user");
                                  ("content", match images with
                                              | [] => JStr prompt
                                              | _ => JArr content
                                              end)]]);
         ("temperature", temperature)] ++ extra)%list.

Definition deepseekBody (modelId prompt : string) (extra : list (string * JSValue))
  : JSValue :=
  JObj ([("model", JStr modelId);
         ("messages", JArr [JObj [("role", JStr "user"); ("content", JStr prompt)]]);
         ("temperature", temperature)] ++ extra)%list.

(** The text after the first occurrence of [marker], if it occurs. *)
Fixpoint after_first (marker s : string) : option string :=
  if startsWith marker s then Some (slice_from (String.length marker) s)
  else match s with
       | "" => None
       | String _ s' => after_first marker s'
       end.

(** The text before the first occurrence of [marker], all of it if none. *)
Fixpoint before_first (marker s : string) : string :=
  if startsWith marker s then ""
  else match s with
       | "" => ""
       | String c s' => String c (before_first marker s')
       end.

(** [s.split(marker)[1]] for a text in which the marker occurs. *)
Definition split_second (marker s : string) : string :=
  match after_first marker s with
  | Some rest => before_first marker rest
  | None => ""
  end.

Definition inlinePart (image : ImageAttachment) : JSValue :=
  let base64Data :=
    if includes (data image) "base64," then split_second "base64," (data image)
    else data image in
  JObj [("inlineData", JObj [("data", JStr base64Data);
                             ("mimeType", JStr (mimeType image))])].

Definition geminiParts (prompt : string) (images : list ImageAttachment) : list JSValue :=
  (map inlinePart images ++ [JObj [("text", JStr prompt)]])%list.

(** The request [callAI] hands to [fetch] or to the SDK: the endpoint is
    chosen by the [provider] argument alone, the model id is
    [settings.model]. *)
Definition callAI_request (settings : LjoveSToolsSettings)
  (prompt provider apiKey : string) (images : list ImageAttachment) : Request :=
  if provider =? "openai" then
    HttpPost "https://api.openai.com/v1/chat/completions" (bearer apiKey)
             (openaiBody (model settings) prompt images [])
  else if provider =? "deepseek" then
    HttpPost "https://api.deepseek.com/v1/chat/completions" (bearer apiKey)
             (deepseekBody (model settings) prompt [])
  else
    match images with
    | [] =>
        HttpPost ("https://generativelanguage.googleapis.com/v1beta/models/"
                  ++ model settings ++ ":generateContent?key=" ++ apiKey)
                 [("Content-Type", "application/json")]
                 (JObj [("contents",
                         JArr [JObj [("parts", JArr [JObj [("text", JStr prompt)]])]])])
    | _ => SdkGenerateContent apiKey (model settings) (geminiParts prompt images)
    end.

(** The second [switch]: reading the decoded reply. *)
Definition readReply (provider : string) (data : JSValue) : result JSValue :=
  if (provider =? "openai") || (provider =? "deepseek") then
    choices <- get data "choices" ;;
    if negb (truthy choices) || negb (truthy (opt_first choices))
       || negb (truthy (opt_get (opt_first choices) "message"))
    then Throw (Error "Invalid response format from OpenAI/DeepSeek API")
    else Ok (opt_get (opt_get (opt_first choices) "message") "content")
  else
    candidates <- get data "candidates" ;;
    if negb (isArray candidates)
    then Throw (Error "Invalid response format from Gemini API")
    else
      text <- extractTextFromGeminiResponse data ;;
      Ok (JStr text).

(** The body of the [try]. *)
Definition callAI_try (provider : string) (req : Request) (net : Network)
  : result JSValue :=
  match req with
  | SdkGenerateContent _ _ _ =>
      text <- generateContent net req ;;
      Ok (JStr text)
  | HttpPost _ _ _ =>
      response <- fetch net req ;;
      if negb (ok response) then
        Throw (Error ("API Error " ++ decimal (status response)))
      else
        data <- json response ;;
        readReply provider data
  end.

(** The [catch]: a 503 is rephrased, anything else is rethrown. *)
Definition callAI_catch (provider : string) (r : result JSValue) : result JSValue :=
  match r with
  | Ok v => Ok v
  | Throw e =>
      if includes (message e) "503" then
        Throw (Error (toUpperCase provider
          ++ " API is temporarily unavailable (503). Please try again in a few moments."))
      else Throw e
  end.

(** [callAI], with the log of the calls it makes to [fetch] and to the
    SDK: every path through the first [switch] makes one call.  Whether a
    call puts anything on the wire is up to the platform: [fetch] rejects,
    without sending, a request it cannot build (a header value that is not
    a byte string), and the rejection is one of the answers of [net]. *)
Definition callAI (settings : LjoveSToolsSettings) (prompt provider apiKey : string)
  (images : list ImageAttachment) (net : Network) (calls : list Request)
  : list Request * result JSValue :=
  let req := callAI_request settings prompt provider apiKey images in
  ((calls ++ [req])%list, callAI_catch provider (callAI_try provider req net)).

(** *** streamAI *)

Section Streaming.
(** The caller's state and the callback: [onChunk v caller] is the state
    in which a call of the callback with [v] leaves the caller.  On the
    HTTP branches the call ends the inner [try], so it makes no difference
    there whether the callback returns or throws (the chat's callback
    throws on a chunk that is not a text).  On the Gemini branch the
    callback is handed texts only and is taken to return. *)
Variable Caller : Type.
Variable onChunk : JSValue -> Caller -> Caller.

(** [parsed.choices?.[0]?.delta?.content] *)
Definition deltaContent (parsed : JSValue) : result JSValue :=
  choices <- get parsed "choices" ;;
  Ok (opt_get (opt_get (opt_first choices) "delta") "content").

(** The log line prints [content.length] of a truthy value: a number on a
    text and on an array, undefined on a number and on a boolean, and on an
    object the property of that name, whose conversion to text can throw.
    What is printed is left out. *)
Definition logLength (content : JSValue) : result unit :=
  match content with
  | JObj fields =>
      _ <- jsToString (lookup "length" fields) ;;
      Ok tt
  | _ => Ok tt
  end.

(** The block under [if (content)] up to the call of [onChunk]: the log
    line, then [fullResponse += content]; the text is what is added. *)
Definition appended (content : JSValue) : result string :=
  _ <- logLength content ;;
  jsToString content.

(** The body of [for (const line of lines)]; a throw inside the inner [try]
    is swallowed by its [catch], and the line is skipped.  The call of
    [onChunk] is the last statement of the [try]. *)
Definition processLine (line : string) (st : string * Caller) : string * Caller :=
  let (fullResponse, caller) := st in
  if startsWith "data: " line then
    let data := slice_from 6 line in
    if data =? "[DONE]" then st
    else
      match JSON_parse data with
      | None => st
      | Some parsed =>
          match deltaContent parsed with
          | Throw _ => st
          | Ok content =>
              if truthy content then
                match appended content with
                | Throw _ => st
                | Ok text => (fullResponse ++ text, onChunk content caller)
                end
              else st
          end
      end
  else st.

Definition processChunk (chunk : string) (st : string * Caller) : string * Caller :=
  fold_left (fun acc line => processLine line acc) (split_nl chunk) st.

(** The [while (true)] loop over the reads of the body. *)
Fixpoint readLoop (reads : list (Await (option string))) (aborted : bool)
  (st : string * Caller) : Caller * result string :=
  if aborted then (snd st, Ok (fst st))
  else
    match reads with
    | [] => (snd st, Ok (fst st))
    | read :: rest =>
        match await_bound aborted read with
        | (_, Failure e) => (snd st, Throw e)
        | (_, Value None) => (snd st, Ok (fst st))
        | (aborted', Value (Some chunk)) =>
            readLoop rest aborted' (processChunk chunk st)
        end
    end.

(** The OpenAI and DeepSeek branches: [fetch] with [signal], the status
    check, then the read loop. *)
Definition streamHttp (aborted : bool) (fetched : Await Response) (caller : Caller)
  : Caller * result string :=
  match await_bound aborted fetched with
  | (_, Failure e) => (caller, Throw e)
  | (aborted', Value response) =>
      if negb (ok response) then
        (caller, Throw (Error ("API Error " ++ decimal (status response))))
      else readLoop (body response) aborted' ("", caller)
  end.

(** [for await (const chunk of result.stream)]: the chunk is awaited first,
    the signal is looked at after it has arrived. *)
Fixpoint geminiLoop (stream : list (Await (option JSValue))) (aborted : bool)
  (st : string * Caller) : Caller * result string :=
  match stream with
  | [] => (snd st, Ok (fst st))
  | next :: rest =>
      match await_free aborted next with
      | (_, Failure e) => (snd st, Throw e)
      | (_, Value None) => (snd st, Ok (fst st))
      | (aborted', Value (Some chunk)) =>
          if aborted' then (snd st, Ok (fst st))
          else
            match extractTextFromGeminiChunk chunk with
            | Throw e => (snd st, Throw e)
            | Ok textChunk =>
                if textChunk =? "" then geminiLoop rest aborted' st
                else geminiLoop rest aborted'
                       (fst st ++ textChunk, onChunk (JStr textChunk) (snd st))
            end
      end
  end.

Definition streamGeminiWithFiles (aborted : bool)
  (started : Await (list (Await (option JSValue)))) (caller : Caller)
  : Caller * result string :=
  match await_free aborted started with
  | (_, Failure e) => (caller, Throw e)
  | (aborted', Value stream) => geminiLoop stream aborted' ("", caller)
  end.

(** What the outside world does during one streaming call. *)
Record StreamWorld : Type := mkWorld {
  fetched : Await Response;
  generateContentStream : Await (list (Await (option JSValue)))
}.

(** [streamAI]: [aborted] is the state of the controller's signal when the
    call starts.  The request is built as in [callAI_request], with
    [stream: true] and the signal added. *)
Definition streamAI (provider : string) (aborted : bool) (world : StreamWorld)
  (caller : Caller) : Caller * result string :=
  if (provider =? "openai") || (provider =? "deepseek")
  then streamHttp aborted (fetched world) caller
  else streamGeminiWithFiles aborted (generateContentStream world) caller.

End Streaming.

End WithRuntime.

End AIService.

(* ===================================================================== *)
(** ** Regular expressions, as far as [MathUtils] uses them *)
(* ===================================================================== *)

Module Regex.

(** A character class consumes one character from the front of the text and
    hands back its last byte and the rest. *)
Definition charClass : Type := string -> option (ascii * string).

Definition code (c : ascii) : nat := nat_of_ascii c.

Definition inRange (lo hi : nat) (c : ascii) : bool :=
  (lo <=? code c)%nat && (code c <=? hi)%nat.

Definition isLetter (c : ascii) : bool := inRange 97 122 c || inRange 65 90 c.
Definition isDigit (c : ascii) : bool := inRange 48 57 c.
(** [\w] *)
Definition isWord (c : ascii) : bool := isLetter c || isDigit c || (code c =? 95)%nat.

(** A class of single bytes. *)
Definition byteClass (p : ascii -> bool) : charClass :=
  fun s => match s with
           | String c rest => if p c then Some (c, rest) else None
           | "" => None
           end.

Fixpoint lastByte (dflt : ascii) (s : string) : ascii :=
  match s with
  | "" => dflt
  | String c rest => lastByte c rest
  end.

(** A class of characters given by their encodings. *)
Fixpoint oneOf (chars : list string) : charClass :=
  fun s => match chars with
           | [] => None
           | ch :: more =>
               if startsWith ch s && negb (ch =? "")
               then Some (lastByte Ascii.zero ch, slice_from (String.length ch) s)
               else oneOf more s
           end.

Definition orClass (a b : charClass) : charClass :=
  fun s => match a s with
           | Some r => Some r
           | None => b s
           end.

Fixpoint bytes (l : list nat) : string :=
  match l with
  | [] => ""
  | n :: rest => String (ascii_of_nat n) (bytes rest)
  end.

(** [\s]: tab, line feed, vertical tab, form feed, carriage return, space,
    then U+00A0, U+1680, U+2000..U+200A, U+2028, U+2029, U+202F, U+205F,
    U+3000 and U+FEFF. *)
Definition whitespace : charClass :=
  orClass
    (byteClass (fun c => inRange 9 13 c || (code c =? 32)%nat))
    (oneOf ([bytes [194; 160]; bytes [225; 154; 128]]
            ++ map (fun k => bytes [226; 128; 128 + k]) (seq 0 11)
            ++ [bytes [226; 128; 168]; bytes [226; 128; 169]; bytes [226; 128; 175];
                bytes [226; 129; 159]; bytes [227; 128; 128]; bytes [239; 187; 191]])%list).

Inductive re : Type :=
| One (c : charClass)
| Star (c : charClass)
| Plus (c : charClass)
| Seq (a b : re)
| Alt (a b : re)
| WordBoundary.

(** Every way [c*] can stop, the longest run first, each with the byte
    before the stop. *)
Fixpoint runs (fuel : nat) (c : charClass) (prev : option ascii) (s : string)
  : list (option ascii * string) :=
  match fuel with
  | O => [(prev, s)]
  | S fuel' =>
      match c s with
      | Some (b, rest) =>
          if (String.length rest <? String.length s)%nat
          then (runs fuel' c (Some b) rest ++ [(prev, s)])%list
          else [(prev, s)]
      | None => [(prev, s)]
      end
  end.

Fixpoint firstSuccess {A B} (k : A -> option B) (l : list A) : option B :=
  match l with
  | [] => None
  | x :: rest => match k x with
                 | Some r => Some r
                 | None => firstSuccess k rest
                 end
  end.

Definition isWordOpt (c : option ascii) : bool :=
  match c with Some b => isWord b | None => false end.

Definition headByte (s : string) : option ascii :=
  match s with String c _ => Some c | "" => None end.

(** Backtracking match at the front of [s], greedy as in JavaScript: [prev]
    is the byte before the position, [k] the rest of the pattern; the result
    is the text left after the whole match. *)
Fixpoint exec (r : re) (prev : option ascii) (s : string)
  (k : option ascii -> string -> option string) : option string :=
  match r with
  | One c =>
      match c s with
      | Some (b, rest) => k (Some b) rest
      | None => None
      end
  | Star c =>
      firstSuccess (fun st => k (fst st) (snd st)) (runs (String.length s) c prev s)
  | Plus c =>
      match c s with
      | Some (b, rest) =>
          firstSuccess (fun st => k (fst st) (snd st))
                       (runs (String.length rest) c (Some b) rest)
      | None => None
      end
  | Seq a b => exec a prev s (fun prev' s' => exec b prev' s' k)
  | Alt a b =>
      match exec a prev s k with
      | Some r => Some r
      | None => exec b prev s k
      end
  | WordBoundary =>
      if xorb (isWordOpt prev) (isWordOpt (headByte s)) then k prev s else None
  end.

(** The length of the match of [r] at the front of [s], if there is one. *)
Definition matchAt (r : re) (prev : option ascii) (s : string) : option nat :=
  match exec r prev s (fun _ rest => Some rest) with
  | Some rest => Some (String.length s - String.length rest)
  | None => None
  end.

Fixpoint take (n : nat) (s : string) : string :=
  match n, s with
  | O, _ => ""
  | S n', String c rest => String c (take n' rest)
  | S _, "" => ""
  end.

Definition lastOr (prev : option ascii) (m : string) : option ascii :=
  match m with
  | "" => prev
  | String c rest => Some (lastByte c rest)
  end.

(** [s.replace(/r/g, f)]: matches are found left to right and do not
    overlap; after an empty match the scan moves on by one unit. *)
Fixpoint replaceFrom (fuel : nat) (r : re) (f : string -> string)
  (prev : option ascii) (s : string) : string :=
  match fuel with
  | O => s
  | S fuel' =>
      match matchAt r prev s with
      | Some (S n) =>
          f (take (S n) s)
          ++ replaceFrom fuel' r f (lastOr prev (take (S n) s)) (slice_from (S n) s)
      | Some O =>
          match s with
          | "" => f ""
          | String c rest => f "" ++ String c (replaceFrom fuel' r f (Some c) rest)
          end
      | None =>
          match s with
          | "" => ""
          | String c rest => String c (replaceFrom fuel' r f (Some c) rest)
          end
      end
  end.

Definition replaceAll (r : re) (f : string -> string) (s : string) : string :=
  replaceFrom (S (String.length s)) r f None s.



Fixpoint seqs (l : list re) : re :=
  match l with
  | [] => Star (fun _ => None)
  | [r] => r
  | r :: rest => Seq r (seqs rest)
  end.

Definition chr (c : ascii) : re := One (byteClass (Ascii.eqb c)).

End Regex.

(* ===================================================================== *)
(** ** src/utils/MarkdownRenderer.ts, class MathUtils *)
(* ===================================================================== *)

Module MathUtils.
Import Regex.

Definition backslash : ascii := "092"%char.

(** The environments of [needsBlockMath]. *)
Definition blockEnvironments : list string :=
  ["matrix"; "pmatrix"; "bmatrix"; "vmatrix"; "Vmatrix"; "smallmatrix";
   "cases"; "align"; "equation"; "split"; "gather"; "multline"].

(** [/\\begin\{(matrix|...|multline)\}/.test(text)]: the pattern is a finite
    choice of literal texts, so it matches where one of them occurs. *)
Definition needsBlockMath (text : string) : bool :=
  existsb (fun env => includes text (String backslash ("begin{" ++ env ++ "}")))
          blockEnvironments.

Definition letter : charClass := byteClass isLetter.
Definition word : charClass := byteClass isWord.
Definition digit : charClass := byteClass isDigit.
Definition notClosingBrace : charClass :=
  byteClass (fun c => negb (Ascii.eqb c "}"%char)).

Fixpoint literal (s : string) : re :=
  match s with
  | "" => seqs []
  | String c "" => chr c
  | String c rest => Seq (chr c) (literal rest)
  end.

(** A word boundary, a letter, then word characters: the captured name. *)
Definition identifier : re := seqs [WordBoundary; One letter; Star word].

(** A non-empty group in braces. *)
Definition bracedNonEmpty : re :=
  seqs [chr "{"%char; Plus notClosingBrace; chr "}"%char].

Definition command (cmdName : string) : re :=
  seqs [chr backslash; literal cmdName; bracedNonEmpty].

Definition mathSymbols : list string :=
  ["∫"; "∑"; "∏"; "∂"; "∇"; "∞"; "±"; "≤"; "≥"; "≠"; "≈"; "∈"; "∉"; "⊆"; "⊇";
   "∪"; "∩"; "∅"].

Definition relation : charClass :=
  orClass (byteClass (fun c => Ascii.eqb c "="%char || Ascii.eqb c "<"%char
                               || Ascii.eqb c ">"%char))
          (oneOf ["≤"; "≥"; "≠"]).

Definition mathPatterns : list re :=
  [ (* x^{2}, f^{-1} *)
    seqs [identifier; Star whitespace; chr "^"%char; Star whitespace; bracedNonEmpty];
    (* x^2, y^n *)
    seqs [identifier; Star whitespace; chr "^"%char; Star whitespace; Plus word];
    (* x_{i}, a_{n} *)
    seqs [identifier; Star whitespace; chr "_"%char; Star whitespace; bracedNonEmpty];
    (* x_i, a_n *)
    seqs [identifier; Star whitespace; chr "_"%char; Star whitespace; Plus word];
    (* \frac{}{}, \sqrt{} *)
    seqs [chr backslash; Plus letter; chr "{"%char; Star notClosingBrace; chr "}"%char];
    (* \alpha, \beta, \sum, \int *)
    seqs [chr backslash; Plus letter];
    command "mathbb";
    command "mathcal";
    command "mathrm";
    (* 1/2, 3/4 *)
    seqs [Plus digit; chr "/"%char; Plus digit];
    (* Unicode math symbols *)
    One (oneOf mathSymbols);
    (* x = y, a < b *)
    seqs [One letter; Star whitespace; One relation; Star whitespace;
          One (orClass letter digit)] ].

(** The callback of [replace]: a match that holds a '$' stays as it is. *)
Definition wrapMatch (m : string) : string :=
  if includes m "$" then m else "$" ++ m ++ "$".

(** The [for (const pattern of mathPatterns)] loop. *)
Definition applyPatterns (patterns : list re) (text : string) : string :=
  fold_left (fun processedText pattern => replaceAll pattern wrapMatch processedText)
            patterns text.

Definition ensureMathDelimiters (text : string) : string :=
  if text =? "" then text
  else if includes text "$" || includes text "$$" then text
  else if needsBlockMath text then "$$" ++ text ++ "$$"
  else applyPatterns mathPatterns text.

(** The same function on whatever value reaches it at run time.  A falsy
    value is returned as it is.  An array has its own [includes], which looks
    for an element equal to the text, and is turned into text by the block
    test, which throws when an element cannot be converted; an array that
    gets past both has no [replace].  Any other value that is not a string
    has no [includes]. *)
Definition isText (wanted : string) (v : JSValue) : bool :=
  match v with JStr s => s =? wanted | _ => false end.

Definition ensureMathDelimitersOf {rt : Runtime} (text : JSValue) : result JSValue :=
  if negb (truthy text) then Ok text
  else
    match text with
    | JStr s => Ok (JStr (ensureMathDelimiters s))
    | JArr items =>
        if existsb (isText "$") items || existsb (isText "$$") items then Ok text
        else
          asText <- jsToString text ;;
          if needsBlockMath asText
          then Ok (JStr ("$$" ++ asText ++ "$$"))
          else Throw (mkExn KTypeError "processedText.replace is not a function")
    | _ => Throw (mkExn KTypeError "text.includes is not a function")
    end.

End MathUtils.


(* ===================================================================== *)
(** ** src/services/QuizManager.ts, class QuizManager *)
(* ===================================================================== *)

Module QuizManager.
Import MathUtils.

(** *** Structured extraction *)

(** [text.indexOf(c)], counted from [i]; [None] stands for -1. *)
Fixpoint indexOfFrom (c : ascii) (s : string) (i : nat) : option nat :=
  match s with
  | "" => None
  | String d rest => if Ascii.eqb d c then Some i else indexOfFrom c rest (S i)
  end.

Definition indexOf (c : ascii) (s : string) : option nat := indexOfFrom c s 0.

(** The bracket walk: [s] is the text from position [i] on, [depth] the
    counter on entry.  Returns [endPos]; [None] stands for -1. *)
Fixpoint findClose (s : string) (i : nat) (depth : Z) : option nat :=
  match s with
  | "" => None
  | String c rest =>
      if Ascii.eqb c "["%char then findClose rest (S i) (depth + 1)
      else if Ascii.eqb c "]"%char then
        if (depth - 1 =? 0)%Z then Some i else findClose rest (S i) (depth - 1)
      else findClose rest (S i) depth
  end.

(** [text.substring(from, to)] for [from <= to]. *)
Definition substring (from to : nat) (s : string) : string :=
  Regex.take (to - from) (slice_from from s).

(** [jsonString.replace(/\\/g, '\\\\')]: every backslash is doubled. *)
Fixpoint escapeBackslashes (s : string) : string :=
  match s with
  | "" => ""
  | String c rest =>
      if Ascii.eqb c backslash
      then String backslash (String backslash (escapeBackslashes rest))
      else String c (escapeBackslashes rest)
  end.

Definition noArray : Exn := Error "No valid JSON array found in AI response".
Definition unparseable : Exn :=
  Error "Unable to parse valid question list from AI response. Please try again.".

(** Lines 296-320: the balanced slice. *)
Definition balancedSlice (text : string) : result string :=
  match indexOf "["%char text with
  | None => Throw noArray
  | Some openPos =>
      match findClose (slice_from openPos text) openPos 0 with
      | None => Throw noArray
      | Some endPos => Ok (substring openPos (endPos + 1) text)
      end
  end.

Section WithRuntime.
Context {rt : Runtime}.

(** Lines 322-338: the escaped slice first, the slice itself second. *)
Definition parseSlice (jsonString : string) : result JSValue :=
  match JSON_parse (escapeBackslashes jsonString) with
  | Some questions => Ok questions
  | None =>
      match JSON_parse jsonString with
      | Some questions => Ok questions
      | None => Throw unparseable
      end
  end.

(** [a || b] on two property reads. *)
Definition either (q : JSValue) (compact full : string) : result JSValue :=
  a <- get q compact ;;
  if truthy a then Ok a else get q full.

Fixpoint mapM {A B} (f : A -> result B) (l : list A) : result (list B) :=
  match l with
  | [] => Ok []
  | x :: rest =>
      y <- f x ;;
      ys <- mapM f rest ;;
      Ok (y :: ys)
  end.

(** The callback of [questions.map]. *)
Definition processQuestion (q : JSValue) : result TestQuestion :=
  question <- either q "q" "question" ;;
  options <- either q "opts" "options" ;;
  ans <- get q "ans" ;;
  correctAnswer <- (match ans with
                    | JUndefined => get q "correctAnswer"
                    | _ => Ok ans
                    end) ;;
  explanation <- either q "exp" "explanation" ;;
  match options, correctAnswer with
  | JArr opts, JNum n =>
      if negb (truthy question) then Throw (Error "Invalid question structure")
      else if num_ltb n (NFin 0%Q) || num_geb n (of_nat (List.length opts))
      then Throw (Error "Invalid correct answer index")
      else
        question' <- ensureMathDelimitersOf question ;;
        options' <- mapM ensureMathDelimitersOf opts ;;
        explanation' <- (if truthy explanation
                         then ensureMathDelimitersOf explanation
                         else Ok explanation) ;;
        Ok (mkQuestion question' options' n explanation')
  | _, _ => Throw (Error "Invalid question structure")
  end.

(** Lines 339-368. *)
Definition validateQuestions (questions : JSValue) : result (list TestQuestion) :=
  match questions with
  | JArr (q :: qs) => mapM processQuestion (q :: qs)
  | _ => Throw unparseable
  end.

(** The outer [catch]: known status codes are rephrased. *)
Definition friendly (e : Exn) : Exn :=
  if includes (message e) "503" then
    Error "AI service is temporarily unavailable. Please try again in a few moments."
  else if includes (message e) "401" || includes (message e) "403" then
    Error "API key is invalid or has insufficient permissions. Please check your API key in settings."
  else if includes (message e) "429" then
    Error "API rate limit exceeded. Please wait a moment and try again."
  else if includes (message e) "404" then
    Error "Selected model is not available. Please choose a different model in settings."
  else e.

(** From the AI's reply on, inside the [try]. *)
Definition extractQuestions (text : string) : result (list TestQuestion) :=
  jsonString <- balancedSlice text ;;
  questions <- parseSlice jsonString ;;
  validateQuestions questions.

(** [generateQuestionsWithAI] from line 283 on: [apiKey] is what
    [onGetCurrentApiKey] returns, [reply] how [onCallAI] settles (a text or
    null, as its type says).  The language detection before it only shapes
    the prompt. *)
Definition generateQuestionsWithAI (apiKey : string) (reply : result (option string))
  : result (list TestQuestion) :=
  let attempt :=
    if apiKey =? "" then
      Throw (Error "API key not configured. Please set it in plugin settings.")
    else
      answer <- reply ;;
      match answer with
      | None | Some "" => Throw (Error "No response from AI")
      | Some text => extractQuestions text
      end in
  match attempt with
  | Ok qs => Ok qs
  | Throw e => Throw (friendly e)
  end.

End WithRuntime.

(** *** The quiz session *)

(** [generateTest]: the session a generated list starts. *)
Definition startTest (qs : list TestQuestion) : TestData :=
  mkTestData qs 0 None false 0.

(** [selectAnswer]: the new session, and whether the update threw.  The
    interface is drawn again afterwards; that is left out with the DOM. *)
Definition selectAnswer (testData : TestData) (answerIndex : nat)
  : TestData * result unit :=
  if answered testData then (testData, Ok tt)
  else
    let marked := mkTestData (questions testData) (currentQuestion testData)
                             (Some answerIndex) true (correctAnswers testData) in
    match nth_error (questions testData) (currentQuestion testData) with
    | None =>
        (marked, Throw (mkExn KTypeError
           "Cannot read properties of undefined (reading 'correctAnswer')"))
    | Some current =>
        if num_eqb (of_nat answerIndex) (correctAnswer current)
        then (mkTestData (questions testData) (currentQuestion testData)
                         (Some answerIndex) true (S (correctAnswers testData)), Ok tt)
        else (marked, Ok tt)
    end.

Record TestResult : Type := mkResult {
  totalQuestions : nat;
  resultCorrectAnswers : nat;
  percentage : option Z
}.

(** A counter as a double. *)
Definition toFloat (n : nat) : PrimFloat.float :=
  PrimFloat.of_uint63 (Uint63.of_Z (Z.of_nat n)).

(** [Math.round]: the integer [floor (x + 1/2)], computed exactly from the
    sign, mantissa and exponent of the double; [None] for NaN and the
    infinities.  The two zeros are not told apart. *)
Definition Math_round (x : PrimFloat.float) : option Z :=
  match FloatOps.Prim2SF x with
  | SpecFloat.S754_zero _ => Some 0%Z
  | SpecFloat.S754_finite negative m e =>
      let num := if negative then Z.neg m else Z.pos m in
      Some (if (0 <=? e)%Z then (num * 2 ^ e)%Z
            else ((2 * num + 2 ^ (- e)) / 2 ^ (1 - e))%Z)
  | _ => None
  end.

(** [Math.round((correctAnswers / questions.length) * 100)] in doubles. *)
Definition percentageOf (correct total : nat) : option Z :=
  Math_round (PrimFloat.mul (PrimFloat.div (toFloat correct) (toFloat total))
                            (toFloat 100)).

(** The [TestResult] of [renderResultsScreen]. *)
Definition renderResultsScreen (testData : TestData) : TestResult :=
  mkResult (List.length (questions testData)) (correctAnswers testData)
           (percentageOf (correctAnswers testData) (List.length (questions testData))).

(** [nextQuestion]: the next session, or the results when the quiz is
    over; the drawing of either is left out with the DOM. *)
Definition nextQuestion (testData : TestData) : TestData + TestResult :=
  if (Z.of_nat (currentQuestion testData)
      <? Z.of_nat (List.length (questions testData)) - 1)%Z
  then inl (mkTestData (questions testData) (S (currentQuestion testData))
                       None false (correctAnswers testData))
  else inr (renderResultsScreen testData).

End QuizManager.


(* ===================================================================== *)
(** ** src/services/QuizManager.ts, class ChatManager *)
(* ===================================================================== *)

Module ChatManager.

(** An element of [currentChatSession.messages]: a message object of its
    own, or the one [assistantMessage] object of the call in progress, which
    the callback goes on changing after it was pushed. *)
Inductive Entry : Type :=
| Stored (m : ChatMessage)
| Live.

(** The part of the manager [generateChatResponse] works on. *)
Record Chat : Type := mkChat {
  messages : list Entry;
  assistantMessage : ChatMessage;
  isFirstChunk : bool;
  isStreamingChat : bool;
  isRequestInFlight : bool;
  currentAbortController : bool
}.

Definition entryId (chat : Chat) (e : Entry) : string :=
  match e with
  | Stored m => msgId m
  | Live => msgId (assistantMessage chat)
  end.

(** [messages.filter(m => m.id !== id)] *)
Definition without (id : string) (chat : Chat) : list Entry :=
  filter (fun e => negb (entryId chat e =? id)) (messages chat).

Definition setMessages (chat : Chat) (ms : list Entry) : Chat :=
  mkChat ms (assistantMessage chat) (isFirstChunk chat) (isStreamingChat chat)
         (isRequestInFlight chat) (currentAbortController chat).

Definition setContent (chat : Chat) (text : string) : Chat :=
  mkChat (messages chat)
         (mkMessage (msgId (assistantMessage chat)) (role (assistantMessage chat)) text)
         (isFirstChunk chat) (isStreamingChat chat) (isRequestInFlight chat)
         (currentAbortController chat).

Definition typingMessage : ChatMessage := mkMessage "typing" assistant "".

Definition errorMessage (now : string) : ChatMessage :=
  mkMessage (now ++ "_error") assistant
    "Sorry, I encountered an error processing your message. Please try again.".

(** What the session shows: every entry as a message. *)
Definition view (chat : Chat) : list ChatMessage :=
  map (fun e => match e with
                | Stored m => m
                | Live => assistantMessage chat
                end) (messages chat).

(** [stopChatResponse]: the [abort()] it calls is what [stop_pressed]
    records in the await during which the button was pressed. *)
Definition stopChatResponse (chat : Chat) : Chat :=
  if currentAbortController chat then
    mkChat (messages chat) (assistantMessage chat) (isFirstChunk chat)
           false false false
  else chat.

(** The callback handed to [onStreamAI], as the state it leaves.  Its first
    statement logs [chunk.substring(0, 50)]: a chunk that is not a text has
    no such method, the callback throws there and nothing has changed. *)
Definition onChunk (chunk : JSValue) (chat : Chat) : Chat :=
  match chunk with
  | JStr text =>
      let chat1 :=
        if isFirstChunk chat then
          mkChat (without "typing" chat ++ [Live])%list (assistantMessage chat) false
                 (isStreamingChat chat) (isRequestInFlight chat)
                 (currentAbortController chat)
        else chat in
      setContent chat1 (content (assistantMessage chat1) ++ text)
  | _ => chat
  end.

Section WithRuntime.
Context {rt : Runtime}.

(** Lines 1031-1057: the typing indicator, the controller, the empty
    assistant message. *)
Definition beginResponse (now : string) (session : list ChatMessage) : Chat :=
  let shown := filter (fun m => negb (msgId m =? "typing")) session in
  mkChat (map Stored shown ++ [Stored typingMessage])%list
         (mkMessage (now ++ "_assistant") assistant "")
         true true true true.

(** The [try] after the stream has returned, and the [catch]. *)
Definition settle (later : string) (chat : Chat) (outcome : result string) : Chat :=
  match outcome with
  | Ok fullResponse =>
      if isFirstChunk chat && negb (fullResponse =? "") then
        let chat1 := setContent (setMessages chat (without "typing" chat)) fullResponse in
        setMessages chat1 (messages chat1 ++ [Live])%list
      else if negb (isFirstChunk chat) then
        setContent chat (if fullResponse =? "" then content (assistantMessage chat)
                         else fullResponse)
      else chat
  | Throw _ =>
      setMessages chat
        (without (msgId (assistantMessage chat)) chat ++ [Stored (errorMessage later)])%list
  end.

(** The [finally]. *)
Definition cleanUp (chat : Chat) : Chat :=
  mkChat (without "typing" chat) (assistantMessage chat) (isFirstChunk chat)
         false false false.

(** [generateChatResponse]: [now] and [later] are the two readings of the
    clock that name the assistant and the error message, [world] what
    happens while [streamAI] runs. *)
Definition generateChatResponse (provider now later : string)
  (world : AIService.StreamWorld) (session : list ChatMessage) : Chat :=
  let started := beginResponse now session in
  let (chat, outcome) := AIService.streamAI Chat onChunk provider false world started in
  cleanUp (settle later chat outcome).

End WithRuntime.

End ChatManager.

(* ===================================================================== *)
(** ** A runtime for the worked examples *)
(* ===================================================================== *)

Module Demo.

Definition quote : ascii := ascii_of_nat 34.

(** JSON text is written with apostrophes in place of the double quotes. *)
Fixpoint json (s : string) : string :=
  match s with
  | "" => ""
  | String c rest =>
      String (if Ascii.eqb c "'"%char then quote else c) (json rest)
  end.

Definition delta (text : string) : JSValue :=
  JObj [("choices", JArr [JObj [("delta", JObj [("content", JStr text)])]])].

Definition quizItem (q a b : string) (ans : Z) : JSValue :=
  JObj [("q", JStr q); ("opts", JArr [JStr a; JStr b]);
        ("ans", JNum (NFin (inject_Z ans)))].

(** The documents the examples parse; every other text is a syntax error. *)
Definition documents : list (string * JSValue) :=
  [ (json "{'choices':[{'delta':{'content':'Hel'}}]}", delta "Hel");
    (json "{'choices':[{'delta':{'content':'lo'}}]}", delta "lo");
    (json "{'choices':[{'delta':{}}]}", JObj [("choices", JArr [JObj [("delta", JObj [])]])]);
    (json "{'choices':[{'delta':{'content':{'toString':1}}}]}",
     JObj [("choices", JArr [JObj [("delta",
       JObj [("content", JObj [("toString", JNum (NFin 1%Q))])])]])]);
    (json "{'choices':[{'delta':{'content':{'length':{'toString':1}}}}]}",
     JObj [("choices", JArr [JObj [("delta",
       JObj [("content", JObj [("length", JObj [("toString", JNum (NFin 1%Q))])])])]])]);
    (json "{'choices':[{'delta':{'content':{}}}]}",
     JObj [("choices", JArr [JObj [("delta", JObj [("content", JObj [])])]])]);
    (json "[{'q':'x','opts':['a','b'],'ans':1}]", JArr [quizItem "x" "a" "b" 1]);
    (json "[{'q':'x','opts':['a','b'],'ans':5}]", JArr [quizItem "x" "a" "b" 5]);
    (json "[{'q':'a\'b','opts':['a','b'],'ans':0}]",
     JArr [quizItem ("a" ++ String quote "b") "a" "b" 0]);
    (json "[{'q':'\\alpha','opts':['a','b'],'ans':0}]",
     JArr [quizItem "\alpha" "a" "b" 0]) ].

Fixpoint assoc (key : string) (table : list (string * JSValue)) : option JSValue :=
  match table with
  | [] => None
  | (k, v) :: rest => if k =? key then Some v else assoc key rest
  end.

#[export] Instance runtime : Runtime := {
  JSON_parse := fun s => assoc s documents;
  NumberToString := fun _ => "0";
  toUpperCase := fun s => s
}.

End Demo.

(* ===================================================================== *)
(** * Theorems *)
(* ===================================================================== *)

(** ** Provider and key resolution *)

Section ProviderResolution.
Import AIService.

Lemma findModel_none (catalog : list CustomModel) (modelId : string) :
  ~ In modelId (map id catalog) -> findModel catalog modelId = None.
Proof.
  induction catalog as [|m rest IH]; simpl; intros Hnot.
  - reflexivity.
  - destruct (String.eqb_spec (id m) modelId) as [Heq | Hne].
    + exfalso. apply Hnot. left. exact Heq.
    + apply IH. intro Hin. apply Hnot. right. exact Hin.
Qed.

(** C10: when the selected model id is not an id of the built-in catalog,
    [getModelProvider] answers gemini and [getCurrentApiKey] the Gemini key,
    also when the id is registered in [customModels] under another
    provider: the custom list is never read. *)
Theorem C10_unknown_model_resolves_to_gemini (settings : LjoveSToolsSettings) :
  ~ In (model settings) (map id AVAILABLE_MODELS) ->
  getModelProvider settings = "gemini"
  /\ getCurrentApiKey settings = geminiApiKey settings.
Proof.
  intros Hnot.
  assert (Hprov : getModelProvider settings = "gemini").
  { unfold getModelProvider. rewrite (findModel_none _ _ Hnot). reflexivity. }
  split; [exact Hprov|].
  unfold getCurrentApiKey. rewrite Hprov. reflexivity.
Qed.

(** A custom OpenAI model: the OpenAI key is set, the Gemini key is not, and
    the Gemini key is the one that is returned. *)
Definition customSettings : LjoveSToolsSettings :=
  mkSettings "openai" "" "sk-openai" "" "gpt-5"
             [mkModel "gpt-5" "GPT-5" "openai"].

Lemma C10_witness :
  In (mkModel "gpt-5" "GPT-5" "openai") (customModels customSettings)
  /\ getModelProvider customSettings = "gemini"
  /\ getCurrentApiKey customSettings = "".
Proof.
  split; [left; reflexivity|].
  apply (C10_unknown_model_resolves_to_gemini customSettings).
  simpl. intros [H|[H|[H|[H|[H|[H|[]]]]]]]; discriminate H.
Defined.

End ProviderResolution.

(** ** The provider adapter: dispatch *)

Section Dispatch.
Import AIService.
Context {rt : Runtime}.

Inductive Endpoint : Type := OpenAI | DeepSeek | Gemini | Elsewhere.

(** Where a request goes. *)
Definition endpoint (req : Request) : Endpoint :=
  match req with
  | HttpPost url _ _ =>
      if startsWith "https://api.openai.com/" url then OpenAI
      else if startsWith "https://api.deepseek.com/" url then DeepSeek
      else if startsWith "https://generativelanguage.googleapis.com/" url then Gemini
      else Elsewhere
  | SdkGenerateContent _ _ _ => Gemini
  end.

(** The switch of [callAI] on its [provider] argument. *)
Definition endpointFor (provider : string) : Endpoint :=
  if provider =? "openai" then OpenAI
  else if provider =? "deepseek" then DeepSeek
  else Gemini.

(** The model a request asks for: the model field of the body, the model
    segment of the Gemini URL, or the model handed to the SDK. *)
Definition asksFor (req : Request) (modelId : string) : Prop :=
  match req with
  | HttpPost url _ body =>
      opt_get body "model" = JStr modelId
      \/ exists apiKey,
           url = "https://generativelanguage.googleapis.com/v1beta/models/"
                 ++ modelId ++ ":generateContent?key=" ++ apiKey
  | SdkGenerateContent _ m _ => m = modelId
  end.

(** The catalog of one provider. *)
Definition inCatalogOf (provider modelId : string) : bool :=
  existsb (fun m => (Types.id m =? modelId) && (Types.provider m =? provider))
          AVAILABLE_MODELS.

(** The request is answered over HTTP: every case but Gemini with images,
    which goes through the SDK. *)
Definition overHttp (provider : string) (images : list ImageAttachment) : bool :=
  (provider =? "openai") || (provider =? "deepseek")
  || match images with [] => true | _ => false end.

Lemma overHttp_request (settings : LjoveSToolsSettings)
  (prompt provider apiKey : string) (images : list ImageAttachment) :
  overHttp provider images = true ->
  exists url headers body,
    callAI_request settings prompt provider apiKey images = HttpPost url headers body.
Proof.
  unfold overHttp, callAI_request. intros H.
  destruct (provider =? "openai"); [eauto|].
  destruct (provider =? "deepseek"); [eauto|].
  destruct images; [eauto|discriminate].
Qed.

Lemma sdk_request (settings : LjoveSToolsSettings)
  (prompt provider apiKey : string) (images : list ImageAttachment) :
  overHttp provider images = false ->
  exists parts,
    callAI_request settings prompt provider apiKey images
    = SdkGenerateContent apiKey (model settings) parts.
Proof.
  unfold overHttp, callAI_request. intros H.
  destruct (provider =? "openai"); [discriminate|].
  destruct (provider =? "deepseek"); [discriminate|].
  destruct images; [discriminate|eauto].
Qed.

(** C7, as the code has it: [callAI] holds no catalog check.  Whatever the
    settings and the [provider] argument, the request it builds is for the
    endpoint the [provider] argument selects and asks for [settings.model],
    in the catalog of that provider or not; and the call succeeds whenever
    that request is answered well: over HTTP with an ok status and a reply
    that reads as a completion, through the SDK with a text. *)
Theorem C7_callAI_dispatches_without_catalog_check
  (settings : LjoveSToolsSettings) (prompt provider apiKey : string)
  (images : list ImageAttachment) :
  let req := callAI_request settings prompt provider apiKey images in
  endpoint req = endpointFor provider
  /\ asksFor req (model settings)
  /\ (forall net calls response data answer,
        overHttp provider images = true ->
        fetch net req = Ok response ->
        ok response = true ->
        json response = Ok data ->
        readReply provider data = Ok answer ->
        snd (callAI settings prompt provider apiKey images net calls) = Ok answer)
  /\ (forall net calls text,
        overHttp provider images = false ->
        generateContent net req = Ok text ->
        snd (callAI settings prompt provider apiKey images net calls) = Ok (JStr text)).
Proof.
  cbv zeta. split; [|split; [|split]].
  - unfold callAI_request, endpointFor.
    destruct (provider =? "openai"); [reflexivity|].
    destruct (provider =? "deepseek"); [reflexivity|].
    destruct images; reflexivity.
  - unfold callAI_request.
    destruct (provider =? "openai"); [left; reflexivity|].
    destruct (provider =? "deepseek"); [left; reflexivity|].
    destruct images as [|image more]; [right; exists apiKey|]; reflexivity.
  - intros net calls response data answer Hhttp Hfetch Hok Hjson Hreply.
    destruct (overHttp_request settings prompt provider apiKey images Hhttp)
      as [url [headers [body Hreq]]].
    unfold callAI. cbn [snd]. unfold callAI_try.
    rewrite Hreq in *. rewrite Hfetch. cbn [bind]. rewrite Hok. cbn [negb].
    rewrite Hjson. cbn [bind]. rewrite Hreply. reflexivity.
  - intros net calls text Hsdk Hanswer.
    destruct (sdk_request settings prompt provider apiKey images Hsdk)
      as [parts Hreq].
    unfold callAI. cbn [snd]. unfold callAI_try.
    rewrite Hreq in *. rewrite Hanswer. reflexivity.
Qed.

End Dispatch.

(** A well-formed completion. *)
Definition completion : AIService.Response :=
  AIService.mkResponse true 200
    (Ok (JObj [("choices",
                JArr [JObj [("message", JObj [("content", JStr "hello")])]])]))
    [].

(** A network on which only OpenAI answers: every other call is refused. *)
Definition openaiOnly : AIService.Network :=
  AIService.mkNetwork
    (fun req => match endpoint req with
                | OpenAI => Ok completion
                | _ => Throw (Error "no route to host")
                end)
    (fun _ => Throw (Error "no route to host")).

Definition deepseekSettings : LjoveSToolsSettings :=
  mkSettings "deepseek" "" "sk-openai" "sk-deepseek" "deepseek-chat" [].

(** The DeepSeek model on the OpenAI branch: the request is answered by
    OpenAI and the answer is returned. *)
Lemma C7_witness :
  inCatalogOf "openai" (model deepseekSettings) = false
  /\ snd (AIService.callAI (rt := Demo.runtime) deepseekSettings "hi" "openai"
            "sk-openai" [] openaiOnly [])
     = Ok (JStr "hello").
Proof.
  split; [reflexivity|].
  exact (proj1 (proj2 (proj2 (C7_callAI_dispatches_without_catalog_check
           (rt := Demo.runtime) deepseekSettings "hi" "openai" "sk-openai" [])))
           openaiOnly [] completion _ (JStr "hello")
           eq_refl eq_refl eq_refl eq_refl eq_refl).
Defined.

(** C7 fails as stated: with the DeepSeek model selected and the OpenAI
    branch taken, the model is not in OpenAI's catalog, and the call does
    not fail with a configuration error: [fetch] is called with a request
    to OpenAI that asks for the DeepSeek model, and what OpenAI answers is
    returned. *)
Lemma C7_counterexample :
  inCatalogOf "openai" (model deepseekSettings) = false
  /\ AIService.callAI (rt := Demo.runtime) deepseekSettings "hi" "openai" "sk-openai" []
       openaiOnly []
     = ([AIService.HttpPost "https://api.openai.com/v1/chat/completions"
           (AIService.bearer "sk-openai")
           (AIService.openaiBody "deepseek-chat" "hi" [] [])],
        Ok (JStr "hello")).
Proof.
  split; reflexivity.
Qed.

(** ** The streaming aggregator: decoding *)

Section StreamDecoding.
Import AIService.
Context {rt : Runtime}.
Variable Caller : Type.
Variable onChunk : JSValue -> Caller -> Caller.

Fixpoint joinAll (l : list string) : string :=
  match l with
  | [] => ""
  | s :: rest => s ++ joinAll rest
  end.

Fixpoint choose {A B} (f : A -> option B) (l : list A) : list B :=
  match l with
  | [] => []
  | x :: rest =>
      match f x with
      | Some y => y :: choose f rest
      | None => choose f rest
      end
  end.

(** The decoding rule, line by line: the value a line hands to [onChunk]
    and the text it adds to the response, if any.  A line is kept when it
    carries the prefix, its payload is not the end marker and parses, its
    content is truthy, and neither the log line nor the addition to the
    response throws on it. *)
Definition spec_lineContent (line : string) : option (JSValue * string) :=
  if startsWith "data: " line then
    let payload := slice_from 6 line in
    if payload =? "[DONE]" then None
    else
      match JSON_parse payload with
      | None => None
      | Some parsed =>
          match deltaContent parsed with
          | Ok content =>
              if truthy content then
                match appended content with
                | Ok text => Some (content, text)
                | Throw _ => None
                end
              else None
          | Throw _ => None
          end
      end
  else None.

(** Every line the chunks keep, in line order. *)
Definition spec_emitted (chunks : list string) : list (JSValue * string) :=
  flat_map (fun chunk => choose spec_lineContent (split_nl chunk)) chunks.

(** The calls of [onChunk], one after the other. *)
Definition deliverAll (values : list JSValue) (caller : Caller) : Caller :=
  fold_left (fun st v => onChunk v st) values caller.

(** A read that resolves to a chunk, and the read that ends the body. *)
Definition deliver (chunk : string) : Await (option string) :=
  mkAwait false (Value (Some chunk)).

Definition finish : Await (option string) := mkAwait false (Value None).

Lemma append_assoc3 (a b c : string) : ((a ++ b) ++ c = a ++ (b ++ c))%string.
Proof.
  induction a as [|x a IH]; simpl; [reflexivity | now rewrite IH].
Qed.

Lemma append_empty_r (a : string) : (a ++ "" = a)%string.
Proof.
  induction a as [|x a IH]; simpl; [reflexivity | now rewrite IH].
Qed.

Lemma joinAll_app (l1 l2 : list string) :
  joinAll (l1 ++ l2)%list = (joinAll l1 ++ joinAll l2)%string.
Proof.
  induction l1 as [|s l1 IH]; simpl; [reflexivity|].
  now rewrite IH, append_assoc3.
Qed.

Lemma processLine_spec (line : string) (full : string) (caller : Caller) :
  processLine Caller onChunk line (full, caller)
  = match spec_lineContent line with
    | Some (content, text) => ((full ++ text)%string, onChunk content caller)
    | None => (full, caller)
    end.
Proof.
  unfold processLine, spec_lineContent.
  destruct (startsWith "data: " line); [|reflexivity].
  destruct (slice_from 6 line =? "[DONE]"); [reflexivity|].
  destruct (JSON_parse (slice_from 6 line)) as [parsed|]; [|reflexivity].
  destruct (deltaContent parsed) as [content|e]; [|reflexivity].
  destruct (truthy content); [|reflexivity].
  destruct (appended content); reflexivity.
Qed.

Lemma processLines_spec (lines : list string) (full : string) (caller : Caller) :
  fold_left (fun acc line => processLine Caller onChunk line acc) lines (full, caller)
  = ((full ++ joinAll (map snd (choose spec_lineContent lines)))%string,
     deliverAll (map fst (choose spec_lineContent lines)) caller).
Proof.
  revert full caller.
  induction lines as [|line rest IH]; intros full caller.
  - cbn. now rewrite append_empty_r.
  - cbn [fold_left choose]. rewrite processLine_spec.
    destruct (spec_lineContent line) as [[content text]|].
    + rewrite IH. cbn [map joinAll fst snd]. unfold deliverAll. cbn [fold_left].
      now rewrite append_assoc3.
    + apply IH.
Qed.

Lemma deliverAll_app (l1 l2 : list JSValue) (caller : Caller) :
  deliverAll (l1 ++ l2)%list caller = deliverAll l2 (deliverAll l1 caller).
Proof.
  unfold deliverAll. apply fold_left_app.
Qed.

Lemma readLoop_delivers (chunks : list string) (full : string) (caller : Caller) :
  readLoop Caller onChunk (map deliver chunks ++ [finish])%list false (full, caller)
  = (deliverAll (map fst (spec_emitted chunks)) caller,
     Ok (full ++ joinAll (map snd (spec_emitted chunks)))%string).
Proof.
  revert full caller.
  induction chunks as [|chunk rest IH]; intros full caller.
  - simpl. now rewrite append_empty_r.
  - cbn [map app readLoop deliver await_bound stop_pressed settles orb].
    unfold processChunk. rewrite processLines_spec.
    fold (deliver) in IH. rewrite IH.
    unfold spec_emitted. cbn [flat_map].
    rewrite !map_app, deliverAll_app, joinAll_app, append_assoc3.
    reflexivity.
Qed.

Lemma appended_text (content : JSValue) (text : string) :
  appended content = Ok text -> jsToString content = Ok text.
Proof.
  unfold appended. destruct (logLength content); [|discriminate].
  cbn [bind]. exact (fun H => H).
Qed.

Lemma spec_lineContent_kept (line : string) (v : JSValue) (text : string) :
  spec_lineContent line = Some (v, text) ->
  startsWith "data: " line = true
  /\ slice_from 6 line <> "[DONE]"
  /\ exists parsed,
       JSON_parse (slice_from 6 line) = Some parsed
       /\ deltaContent parsed = Ok v
       /\ truthy v = true
       /\ jsToString v = Ok text.
Proof.
  unfold spec_lineContent.
  destruct (startsWith "data: " line); [|discriminate].
  destruct (String.eqb_spec (slice_from 6 line) "[DONE]") as [|Hne]; [discriminate|].
  destruct (JSON_parse (slice_from 6 line)) as [parsed|]; [|discriminate].
  destruct (deltaContent parsed) as [content|e] eqn:Hdelta; [|discriminate].
  destruct (truthy content) eqn:Htruthy; [|discriminate].
  destruct (appended content) as [t|e] eqn:Happended; [|discriminate].
  intros H. injection H as <- <-.
  split; [reflexivity|]. split; [exact Hne|].
  exists parsed. split; [reflexivity|]. split; [exact Hdelta|].
  split; [exact Htruthy|]. exact (appended_text _ _ Happended).
Qed.

(** C1: on the OpenAI and on the DeepSeek path, for a response that is
    accepted and a body that delivers [chunks] and then ends, [streamAI]
    calls [onChunk] once for every line that the decoding rule keeps, in
    line order, with the decoded content, and returns the concatenation of
    the texts of what it passed.  A line without the prefix, the [DONE]
    payload and a payload that does not parse contribute nothing; a line
    whose content is a non-empty string is kept and contributes exactly
    that string; whatever a kept line contributes is the text of the value
    it passes, a value being kept only if it is truthy; and a content that
    cannot be turned into text, or whose length the log line cannot print,
    is skipped with its line. *)
Theorem C1_openai_stream_decoding (chunks : list string) (caller : Caller)
  (status : nat) (js : result JSValue)
  (sdk : Await (list (Await (option JSValue)))) :
  let response := mkResponse true status js (map deliver chunks ++ [finish])%list in
  let world := mkWorld (mkAwait false (Value response)) sdk in
  let expected := (deliverAll (map fst (spec_emitted chunks)) caller,
                   Ok (joinAll (map snd (spec_emitted chunks)))) in
  streamAI Caller onChunk "openai" false world caller = expected
  /\ streamAI Caller onChunk "deepseek" false world caller = expected
  /\ (forall line, startsWith "data: " line = false -> spec_lineContent line = None)
  /\ (forall line, slice_from 6 line = "[DONE]" -> spec_lineContent line = None)
  /\ (forall line, JSON_parse (slice_from 6 line) = None -> spec_lineContent line = None)
  /\ (forall line parsed text,
        startsWith "data: " line = true ->
        slice_from 6 line <> "[DONE]" ->
        JSON_parse (slice_from 6 line) = Some parsed ->
        deltaContent parsed = Ok (JStr text) ->
        text <> "" ->
        spec_lineContent line = Some (JStr text, text))
  /\ (forall line v text,
        spec_lineContent line = Some (v, text) ->
        truthy v = true /\ jsToString v = Ok text)
  /\ (forall line parsed content e,
        JSON_parse (slice_from 6 line) = Some parsed ->
        deltaContent parsed = Ok content ->
        jsToString content = Throw e \/ logLength content = Throw e ->
        spec_lineContent line = None).
Proof.
  cbv zeta.
  assert (Hrun : forall body_status,
    streamHttp Caller onChunk false
      (mkAwait false (Value (mkResponse true body_status js
                               (map deliver chunks ++ [finish])%list))) caller
    = (deliverAll (map fst (spec_emitted chunks)) caller,
       Ok (joinAll (map snd (spec_emitted chunks))))).
  { intros body_status. unfold streamHttp. cbn [await_bound stop_pressed settles orb ok negb body].
    apply readLoop_delivers. }
  split; [|split; [|split; [|split; [|split; [|split; [|split]]]]]].
  - unfold streamAI. cbn [String.eqb Ascii.eqb Bool.eqb orb fetched]. apply Hrun.
  - unfold streamAI. cbn [String.eqb Ascii.eqb Bool.eqb orb fetched]. apply Hrun.
  - intros line Hp. unfold spec_lineContent. now rewrite Hp.
  - intros line Hd. unfold spec_lineContent. rewrite Hd.
    destruct (startsWith "data: " line); reflexivity.
  - intros line Hj. unfold spec_lineContent. rewrite Hj.
    destruct (startsWith "data: " line); [|reflexivity].
    destruct (slice_from 6 line =? "[DONE]"); reflexivity.
  - intros line parsed text Hp Hd Hj Hc Hne.
    unfold spec_lineContent. rewrite Hp.
    destruct (String.eqb_spec (slice_from 6 line) "[DONE]") as [Heq|_]; [contradiction|].
    rewrite Hj, Hc. cbn [truthy].
    destruct (String.eqb_spec text "") as [Heq|_]; [contradiction|reflexivity].
  - intros line v text Hkept.
    destruct (spec_lineContent_kept _ _ _ Hkept)
      as [_ [_ [parsed [_ [_ [Htruthy Htext]]]]]].
    split; assumption.
  - intros line parsed content e Hj Hc He.
    unfold spec_lineContent. rewrite Hj, Hc.
    destruct (startsWith "data: " line); [|reflexivity].
    destruct (slice_from 6 line =? "[DONE]"); [reflexivity|].
    destruct (truthy content); [|reflexivity].
    unfold appended. destruct He as [He|He].
    + destruct (logLength content); cbn [bind]; [|reflexivity]. now rewrite He.
    + now rewrite He.
Qed.

End StreamDecoding.

(** ** The streaming aggregator: cancellation *)

Section Cancellation.
Import AIService.
Context {rt : Runtime}.
Variable Caller : Type.
Variable onChunk : JSValue -> Caller -> Caller.

(** Lines 214-217: a signal found aborted at the head of the loop ends the
    call with the text gathered so far. *)
Lemma readLoop_sees_abort (reads : list (Await (option string)))
  (full : string) (caller : Caller) :
  readLoop Caller onChunk reads true (full, caller) = (caller, Ok full).
Proof.
  destruct reads; reflexivity.
Qed.

(** The head of the loop cannot find the signal aborted by a Stop, though:
    the Stop arrives while a read is pending, and the read rejects.  After
    any number of delivered chunks, a Stop during the next read makes the
    HTTP path raise, whatever that read would have brought. *)
Lemma readLoop_stop_raises (chunks : list string) (pending : Settle (option string))
  (rest : list (Await (option string))) (full : string) (caller : Caller) :
  readLoop Caller onChunk
    (map (deliver) chunks ++ mkAwait true pending :: rest)%list false (full, caller)
  = (deliverAll Caller onChunk (map fst (spec_emitted chunks)) caller, Throw AbortError).
Proof.
  revert full caller.
  induction chunks as [|chunk more IH]; intros full caller.
  - reflexivity.
  - cbn [map app readLoop deliver await_bound stop_pressed settles orb].
    unfold processChunk. rewrite processLines_spec.
    fold deliver in IH. rewrite IH.
    unfold spec_emitted. cbn [flat_map]. now rewrite map_app, deliverAll_app.
Qed.

(** A chunk of the Gemini stream that carries one text. *)
Definition geminiChunk (text : string) : JSValue :=
  JObj [("candidates",
         JArr [JObj [("content", JObj [("parts", JArr [JObj [("text", JStr text)]])])]])].

Definition arrives (text : string) : Await (option JSValue) :=
  mkAwait false (Value (Some (geminiChunk text))).

Lemma extract_geminiChunk (text : string) :
  extractTextFromGeminiChunk (geminiChunk text) = Ok text.
Proof.
  reflexivity.
Qed.

(** On the Gemini path a Stop is honoured: after the texts that arrived, a
    Stop while the next chunk is awaited ends the call normally with their
    concatenation, and the chunk that arrives after the Stop is dropped. *)
Lemma geminiLoop_stop_returns (texts : list string) (late : option JSValue)
  (rest : list (Await (option JSValue))) (full : string) (caller : Caller) :
  Forall (fun t => t <> "") texts ->
  geminiLoop Caller onChunk
    (map arrives texts ++ mkAwait true (Value late) :: rest)%list false (full, caller)
  = (deliverAll Caller onChunk (map JStr texts) caller, Ok (full ++ joinAll texts)%string).
Proof.
  intros Hall. revert full caller.
  induction Hall as [|text more Hne _ IH]; intros full caller.
  - cbn. destruct late; now rewrite append_empty_r.
  - cbn [map app geminiLoop arrives await_free stop_pressed settles orb].
    rewrite extract_geminiChunk.
    destruct (String.eqb_spec text "") as [Heq|_]; [contradiction|].
    fold arrives in IH. cbn [fst snd]. rewrite IH.
    cbn [joinAll]. unfold deliverAll. cbn [fold_left]. now rewrite append_assoc3.
Qed.

End Cancellation.

(** The callback that keeps what it is given. *)
Definition record (v : JSValue) (seen : list JSValue) : list JSValue :=
  (seen ++ [v])%list.

Definition line (text : string) : string :=
  "data: " ++ Demo.json ("{'choices':[{'delta':{'content':'" ++ text ++ "'}}]}").

(** One chunk arrives, the user presses Stop while the next is awaited. *)
Definition stoppedBody : list (Await (option string)) :=
  [deliver (line "Hel"); mkAwait true (Value (Some (line "lo")))].

Definition stoppedStream : list (Await (option JSValue)) :=
  [arrives "Hel"; mkAwait true (Value (Some (geminiChunk "lo")))].

Definition stoppedWorld : AIService.StreamWorld :=
  AIService.mkWorld
    (mkAwait false (Value (AIService.mkResponse true 200 (Throw AbortError) stoppedBody)))
    (mkAwait false (Value stoppedStream)).

(** The user presses Stop before anything has arrived. *)
Definition stoppedAtOnce : AIService.StreamWorld :=
  AIService.mkWorld
    (mkAwait true (Value (AIService.mkResponse true 200 (Throw AbortError) [])))
    (mkAwait true (Value [mkAwait false (Value (Some (geminiChunk "Hel")))])).

(** C2, where the code departs from it: one chunk has been emitted and the
    controller is aborted while the next read is pending.  On the OpenAI and
    DeepSeek paths the call raises the AbortError instead of returning the
    text of that chunk; on the Gemini path, under the same timeline, it
    returns it.  Aborted before any chunk, the OpenAI path raises and the
    Gemini path returns the empty text. *)
Theorem C2_stop_raises_on_http_paths :
  AIService.streamAI (rt := Demo.runtime) (list JSValue) record "openai" false
    stoppedWorld []
  = ([JStr "Hel"], Throw AbortError)
  /\ AIService.streamAI (rt := Demo.runtime) (list JSValue) record "deepseek" false
       stoppedWorld []
     = ([JStr "Hel"], Throw AbortError)
  /\ AIService.streamAI (rt := Demo.runtime) (list JSValue) record "gemini" false
       stoppedWorld []
     = ([JStr "Hel"], Ok "Hel")
  /\ AIService.streamAI (rt := Demo.runtime) (list JSValue) record "openai" false
       stoppedAtOnce []
     = ([], Throw AbortError)
  /\ AIService.streamAI (rt := Demo.runtime) (list JSValue) record "gemini" false
       stoppedAtOnce []
     = ([], Ok "").
Proof.
  repeat split; vm_compute; reflexivity.
Qed.

(** ** The chat session under Stop *)

Definition question1 : ChatMessage := mkMessage "1700000000000" user "hi".

(** C8, where the code departs from it: the same timeline in the chat.  On
    the OpenAI path the AbortError reaches the [catch] of
    [generateChatResponse], which removes the assistant message that held
    the chunk and appends the error message; on the Gemini path the partial
    message is kept.  Either way the typing indicator is gone and the chat
    is no longer streaming. *)
Theorem C8_stop_discards_partial_on_http_paths :
  let viaOpenAI := ChatManager.generateChatResponse (rt := Demo.runtime)
                     "openai" "1700000000001" "1700000000002" stoppedWorld [question1] in
  let viaGemini := ChatManager.generateChatResponse (rt := Demo.runtime)
                     "gemini" "1700000000001" "1700000000002" stoppedWorld [question1] in
  ChatManager.view viaOpenAI
    = [question1; ChatManager.errorMessage "1700000000002"]
  /\ ChatManager.isStreamingChat viaOpenAI = false
  /\ ChatManager.view viaGemini
     = [question1; mkMessage "1700000000001_assistant" assistant "Hel"]
  /\ ChatManager.isStreamingChat viaGemini = false.
Proof.
  repeat split; vm_compute; reflexivity.
Qed.

(** ** The Gemini response parsers *)

Section GeminiParsing.
Import AIService.

(** The recoverable text in the words of the specification: the text of
    every part of every candidate; a candidate without a [content.parts]
    array and a part whose text is not a string contribute nothing. *)
Definition spec_partText (part : JSValue) : string :=
  match opt_get part "text" with
  | JStr t => t
  | _ => ""
  end.

Definition spec_candidateText (candidate : JSValue) : string :=
  match opt_get (opt_get candidate "content") "parts" with
  | JArr parts => joinAll (map spec_partText parts)
  | _ => ""
  end.

Definition spec_recoverableText (data : JSValue) : string :=
  match opt_get data "candidates" with
  | JArr candidates => joinAll (map spec_candidateText candidates)
  | _ => ""
  end.

Lemma collectParts_spec (parts : list JSValue) (acc : string) :
  collectParts parts acc = (acc ++ joinAll (map spec_partText parts))%string.
Proof.
  revert acc.
  induction parts as [|part rest IH]; intros acc; cbn [collectParts map joinAll].
  - now rewrite append_empty_r.
  - assert (Hpart : (if truthy part then opt_get part "text" else JUndefined)
                    = opt_get part "text").
    { destruct part as [| |b|n|s|items|fields]; try reflexivity.
      - destruct b; reflexivity.
      - destruct (truthy (JNum n)); reflexivity.
      - destruct (truthy (JStr s)); reflexivity. }
    rewrite Hpart. unfold spec_partText.
    destruct (opt_get part "text"); rewrite IH;
      cbn [append]; try reflexivity.
    now rewrite append_assoc3.
Qed.

Lemma collectCandidates_spec (candidates : list JSValue) (acc : string) :
  Forall (fun c => nullish c = false) candidates ->
  collectCandidates candidates acc
  = Ok (acc ++ joinAll (map spec_candidateText candidates))%string.
Proof.
  intros Hall. revert acc.
  induction Hall as [|candidate rest Hc _ IH]; intros acc;
    cbn [collectCandidates map joinAll].
  - now rewrite append_empty_r.
  - unfold spec_candidateText at 1.
    destruct candidate as [| |b|n|s|items|fields]; try discriminate Hc;
      cbn [get bind opt_get truthy negb]; try (rewrite IH; reflexivity).
    destruct (truthy (lookup "content" fields)) eqn:Htruthy; cbn [negb].
    + destruct (opt_get (lookup "content" fields) "parts");
        rewrite ?collectParts_spec, IH; cbn [append]; try reflexivity.
      now rewrite append_assoc3.
    + assert (Hnone : opt_get (lookup "content" fields) "parts" = JUndefined).
      { destruct (lookup "content" fields); try reflexivity; discriminate Htruthy. }
      rewrite Hnone, IH. reflexivity.
Qed.

(** Where every element of [candidates] is an object (or any value other
    than null and undefined), both parsers do what the specification says:
    the response parser raises exactly when the recoverable text is empty,
    the chunk parser returns the recoverable text. *)
Lemma gemini_parsers_on_present_candidates (data : JSValue) (candidates : list JSValue) :
  get data "candidates" = Ok (JArr candidates) ->
  Forall (fun c => nullish c = false) candidates ->
  extractTextFromGeminiChunk data = Ok (spec_recoverableText data)
  /\ extractTextFromGeminiResponse data
     = if spec_recoverableText data =? ""
       then Throw (Error "Invalid response format from Gemini API: no text content found")
       else Ok (spec_recoverableText data).
Proof.
  intros Hget Hall.
  assert (Hspec : spec_recoverableText data = joinAll (map spec_candidateText candidates)).
  { unfold spec_recoverableText.
    destruct data; try discriminate Hget.
    - cbn in Hget. inversion Hget as [Heq]. cbn [opt_get]. now rewrite Heq. }
  unfold extractTextFromGeminiChunk, extractTextFromGeminiResponse.
  rewrite Hget. cbn [bind]. rewrite (collectCandidates_spec _ _ Hall), Hspec.
  cbn [bind append]. split; reflexivity.
Qed.

(** A response whose first candidate is null and whose second carries text. *)
Definition nullCandidateResponse : JSValue :=
  JObj [("candidates",
         JArr [JNull;
               JObj [("content", JObj [("parts", JArr [JObj [("text", JStr "hi")]])])]])].

(** C5, where the code departs from it: a null element of [candidates] is
    not skipped.  Reading its [content] throws a TypeError, in the response
    parser and in the chunk parser alike, although the next candidate
    carries the text hi, which the specification counts as recoverable.
    The loop over the parts does guard against a null part. *)
Theorem C5_null_candidate_is_not_skipped :
  spec_recoverableText nullCandidateResponse = "hi"
  /\ extractTextFromGeminiResponse nullCandidateResponse
     = Throw (mkExn KTypeError "Cannot read properties of null (reading 'content')")
  /\ extractTextFromGeminiChunk nullCandidateResponse
     = Throw (mkExn KTypeError "Cannot read properties of null (reading 'content')")
  /\ collectParts [JNull; JObj [("text", JStr "hi")]] "" = "hi".
Proof.
  repeat split.
Qed.

End GeminiParsing.

(** ** Structured extraction: the balanced slice and the two parses *)

Section Extraction.
Import QuizManager.
Context {rt : Runtime}.

(** The specification's bracket depth: +1 for an opening bracket, -1 for a
    closing one, summed over the first [n] characters. *)
Definition bracketDelta (c : ascii) : Z :=
  if Ascii.eqb c "["%char then 1%Z
  else if Ascii.eqb c "]"%char then (-1)%Z
  else 0%Z.

Fixpoint depthAfter (s : string) (n : nat) : Z :=
  match n, s with
  | S n', String c rest => (bracketDelta c + depthAfter rest n')%Z
  | _, _ => 0%Z
  end.

Fixpoint contains (c : ascii) (s : string) : Prop :=
  match s with
  | "" => False
  | String d rest => d = c \/ contains c rest
  end.

(** [openPos] is the position of the first opening bracket. *)
Definition firstOpen (text : string) (openPos : nat) : Prop :=
  ~ contains "["%char (Regex.take openPos text)
  /\ exists rest, slice_from openPos text = String "["%char rest.

(** Counting from the first opening bracket, the depth is back at 0 right
    after position [k], for the first time. *)
Definition closesAt (suffix : string) (k : nat) : Prop :=
  k < String.length suffix
  /\ depthAfter suffix (S k) = 0%Z
  /\ forall j, j < k -> depthAfter suffix (S j) <> 0%Z.

Definition neverCloses (suffix : string) : Prop :=
  forall k, k < String.length suffix -> depthAfter suffix (S k) <> 0%Z.

Lemma indexOfFrom_none (c : ascii) (s : string) (i : nat) :
  ~ contains c s -> indexOfFrom c s i = None.
Proof.
  revert i. induction s as [|d rest IH]; intros i Hno; cbn [indexOfFrom].
  - reflexivity.
  - destruct (Ascii.eqb_spec d c) as [Heq|Hne].
    + exfalso. apply Hno. left. exact Heq.
    + apply IH. intro Hin. apply Hno. right. exact Hin.
Qed.

Lemma indexOfFrom_first (text : string) (openPos i : nat) :
  firstOpen text openPos -> indexOfFrom "["%char text i = Some (i + openPos).
Proof.
  revert text i.
  induction openPos as [|p IH]; intros text i [Hbefore [rest Hrest]].
  - cbn in Hrest. subst text. cbn. f_equal. lia.
  - destruct text as [|d text']; [discriminate Hrest|].
    cbn [indexOfFrom]. cbn in Hbefore, Hrest.
    destruct (Ascii.eqb_spec d "["%char) as [Heq|Hne].
    + exfalso. apply Hbefore. left. exact Heq.
    + rewrite (IH text' (S i)).
      * f_equal. lia.
      * split; [|exists rest; exact Hrest].
        intro Hin. apply Hbefore. right. exact Hin.
Qed.

(** The walk, entered with a positive counter, stops at the first position
    that brings the counter to 0, and finds none where there is none. *)
Lemma findClose_correct (s : string) :
  forall (i : nat) (d : Z), (0 < d)%Z ->
  match findClose s i d with
  | Some e =>
      exists k, e = i + k /\ k < String.length s
                /\ (d + depthAfter s (S k) = 0)%Z
                /\ forall j, j < k -> (0 < d + depthAfter s (S j))%Z
  | None => forall j, j < String.length s -> (0 < d + depthAfter s (S j))%Z
  end.
Proof.
  induction s as [|c rest IH]; intros i d Hd; cbn [findClose].
  - intros j Hj. cbn in Hj. lia.
  - assert (Hstep : forall n, depthAfter (String c rest) (S (S n))
                              = (bracketDelta c + depthAfter rest (S n))%Z)
      by reflexivity.
    assert (Hone : depthAfter (String c rest) 1 = bracketDelta c).
    { destruct rest; cbn [depthAfter]; apply Z.add_0_r. }
    unfold bracketDelta in *.
    destruct (Ascii.eqb c "["%char).
    + specialize (IH (S i) (d + 1)%Z ltac:(lia)).
      destruct (findClose rest (S i) (d + 1)) as [e|].
      * destruct IH as [k [He [Hk [Hzero Hbefore]]]].
        exists (S k). cbn [String.length]. rewrite Hstep.
        repeat split; try lia.
        intros [|j] Hj; [rewrite Hone; lia|].
        rewrite Hstep. specialize (Hbefore j ltac:(lia)). lia.
      * intros [|j] Hj; [rewrite Hone; lia|].
        rewrite Hstep. cbn in Hj. specialize (IH j ltac:(lia)). lia.
    + destruct (Ascii.eqb c "]"%char).
      * destruct (Z.eqb_spec (d - 1) 0) as [Hz|Hnz].
        -- exists 0. cbn [String.length]. rewrite Hone.
           repeat split; try lia.
        -- specialize (IH (S i) (d - 1)%Z ltac:(lia)).
           destruct (findClose rest (S i) (d - 1)) as [e|].
           ++ destruct IH as [k [He [Hk [Hzero Hbefore]]]].
              exists (S k). cbn [String.length]. rewrite Hstep.
              repeat split; try lia.
              intros [|j] Hj; [rewrite Hone; lia|].
              rewrite Hstep. specialize (Hbefore j ltac:(lia)). lia.
           ++ intros [|j] Hj; [rewrite Hone; lia|].
              rewrite Hstep. cbn in Hj. specialize (IH j ltac:(lia)). lia.
      * specialize (IH (S i) d Hd).
        destruct (findClose rest (S i) d) as [e|].
        -- destruct IH as [k [He [Hk [Hzero Hbefore]]]].
           exists (S k). cbn [String.length]. rewrite Hstep.
           repeat split; try lia.
           intros [|j] Hj; [rewrite Hone; lia|].
           rewrite Hstep. specialize (Hbefore j ltac:(lia)). lia.
        -- intros [|j] Hj; [rewrite Hone; lia|].
           rewrite Hstep. cbn in Hj. specialize (IH j ltac:(lia)). lia.
Qed.

(** The walk as the code enters it: at the first opening bracket, with the
    counter at 0. *)
Lemma findClose_from_open (rest : string) (openPos : nat) :
  let suffix := String "["%char rest in
  match findClose suffix openPos 0 with
  | Some endPos => exists k, endPos = openPos + k /\ closesAt suffix k
  | None => neverCloses suffix
  end.
Proof.
  cbv zeta. cbn [findClose Ascii.eqb Bool.eqb]. cbn [Z.add].
  pose proof (findClose_correct rest (S openPos) 1%Z ltac:(lia)) as Hwalk.
  assert (Hstep : forall n, depthAfter (String "["%char rest) (S (S n))
                            = (1 + depthAfter rest (S n))%Z) by reflexivity.
  assert (Hone : depthAfter (String "["%char rest) 1 = 1%Z).
  { destruct rest; reflexivity. }
  destruct (findClose rest (S openPos) 1) as [e|].
  - destruct Hwalk as [k [He [Hk [Hzero Hbefore]]]].
    exists (S k). split; [lia|].
    unfold closesAt. cbn [String.length]. rewrite Hstep.
    repeat split; try lia.
    intros [|j] Hj; [rewrite Hone; lia|].
    rewrite Hstep. specialize (Hbefore j ltac:(lia)). lia.
  - intros [|j] Hj; [rewrite Hone; lia|].
    rewrite Hstep. cbn in Hj. specialize (Hwalk j ltac:(lia)). lia.
Qed.

Lemma closesAt_unique (suffix : string) (k1 k2 : nat) :
  closesAt suffix k1 -> closesAt suffix k2 -> k1 = k2.
Proof.
  intros [_ [Hz1 Hb1]] [_ [Hz2 Hb2]].
  destruct (Nat.lt_trichotomy k1 k2) as [Hlt|[Heq|Hgt]].
  - exfalso. exact (Hb2 k1 Hlt Hz1).
  - exact Heq.
  - exfalso. exact (Hb1 k2 Hgt Hz2).
Qed.

(** What [extractQuestions] does with the slice once it has it. *)
Definition thenParse (jsonString : string) : result (list TestQuestion) :=
  match JSON_parse (escapeBackslashes jsonString) with
  | Some parsed => validateQuestions parsed
  | None =>
      match JSON_parse jsonString with
      | Some parsed => validateQuestions parsed
      | None => Throw unparseable
      end
  end.

(** The doubling of the backslashes, unit by unit. *)
Lemma escapeBackslashes_app (a b : string) :
  escapeBackslashes (a ++ b) = (escapeBackslashes a ++ escapeBackslashes b)%string.
Proof.
  induction a as [|c a IH]; [reflexivity|].
  cbn [append escapeBackslashes]. rewrite IH.
  destruct (Ascii.eqb c MathUtils.backslash); reflexivity.
Qed.

Lemma escapeBackslashes_other (c : ascii) :
  c <> MathUtils.backslash -> escapeBackslashes (String c "") = String c "".
Proof.
  intros Hc. cbn [escapeBackslashes].
  destruct (Ascii.eqb_spec c MathUtils.backslash) as [Heq|_]; [contradiction|reflexivity].
Qed.

(** C3: extraction fails on a text without an opening bracket; from the
    first opening bracket it counts the depth and fails when the depth never
    returns to 0; otherwise it takes the slice up to and including the
    bracket that brings the depth back to 0, parses the slice with every
    backslash doubled, parses the slice itself when that fails, and the
    parse step raises only when both parses fail.  The doubling turns one
    backslash into two, leaves every other character as it is, and works
    through the slice from left to right. *)
Theorem C3_balanced_slice_and_two_parses (text : string) :
  (~ contains "["%char text -> extractQuestions text = Throw noArray)
  /\ (forall openPos, firstOpen text openPos ->
        let suffix := slice_from openPos text in
        (neverCloses suffix -> extractQuestions text = Throw noArray)
        /\ (forall k, closesAt suffix k ->
              extractQuestions text = thenParse (Regex.take (S k) suffix)))
  /\ (forall jsonString,
        parseSlice jsonString = Throw unparseable
        <-> (JSON_parse (escapeBackslashes jsonString) = None
             /\ JSON_parse jsonString = None))
  /\ (forall jsonString parsed,
        JSON_parse (escapeBackslashes jsonString) = Some parsed ->
        parseSlice jsonString = Ok parsed)
  /\ (forall jsonString parsed,
        JSON_parse (escapeBackslashes jsonString) = None ->
        JSON_parse jsonString = Some parsed ->
        parseSlice jsonString = Ok parsed)
  /\ escapeBackslashes (String MathUtils.backslash "")
     = String MathUtils.backslash (String MathUtils.backslash "")
  /\ (forall c, c <> MathUtils.backslash -> escapeBackslashes (String c "") = String c "")
  /\ (forall a b,
        escapeBackslashes (a ++ b) = (escapeBackslashes a ++ escapeBackslashes b)%string).
Proof.
  split; [|split; [|split; [|split; [|split; [|split; [|split]]]]]].
  8: exact escapeBackslashes_app.
  7: exact escapeBackslashes_other.
  6: reflexivity.
  5: { intros jsonString parsed H1 H2. unfold parseSlice. now rewrite H1, H2. }
  4: { intros jsonString parsed H1. unfold parseSlice. now rewrite H1. }
  - intros Hno. unfold extractQuestions, balancedSlice, indexOf.
    now rewrite (indexOfFrom_none _ _ _ Hno).
  - intros openPos Hfirst. cbv zeta.
    pose proof (indexOfFrom_first text openPos 0 Hfirst) as Hidx. cbn in Hidx.
    destruct Hfirst as [_ [rest Hrest]].
    pose proof (findClose_from_open rest openPos) as Hwalk. cbv zeta in Hwalk.
    unfold extractQuestions, balancedSlice, indexOf. rewrite Hidx, Hrest.
    destruct (findClose (String "["%char rest) openPos 0) as [endPos|].
    + destruct Hwalk as [k0 [Hend Hcloses]]. split.
      * intros Hnever. exfalso.
        destruct Hcloses as [Hlen [Hzero _]]. exact (Hnever k0 Hlen Hzero).
      * intros k Hk. rewrite (closesAt_unique _ _ _ Hk Hcloses).
        cbn [bind]. unfold substring. rewrite Hrest.
        replace (endPos + 1 - openPos) with (S k0) by lia.
        unfold parseSlice, thenParse.
        destruct (JSON_parse (escapeBackslashes (Regex.take (S k0) (String "["%char rest))));
          [reflexivity|].
        destruct (JSON_parse (Regex.take (S k0) (String "["%char rest))); reflexivity.
    + split; [reflexivity|].
      intros k [Hlen [Hzero _]]. exfalso. exact (Hwalk k Hlen Hzero).
  - intros jsonString. unfold parseSlice. split.
    + destruct (JSON_parse (escapeBackslashes jsonString)); [discriminate|].
      destruct (JSON_parse jsonString); [discriminate|]. now split.
    + intros [H1 H2]. now rewrite H1, H2.
Qed.

End Extraction.

(** ** Structured extraction: validation of the parsed list *)

Section Validation.
Import QuizManager.
Context {rt : Runtime}.

(** The fields of an element as the specification reads them: the compact
    key, or the full key when the compact one is missing or falsy; the
    answer under [ans] unless that is undefined. *)
Definition spec_field (q : JSValue) (compact full : string) : JSValue :=
  if truthy (opt_get q compact) then opt_get q compact else opt_get q full.

Definition spec_answer (q : JSValue) : JSValue :=
  match opt_get q "ans" with
  | JUndefined => opt_get q "correctAnswer"
  | given => given
  end.

(** [0 <= n < len] *)
Definition indexInRange (n : JSNum) (len : nat) : Prop :=
  match n with
  | NFin x => (0 <= x)%Q /\ (x < inject_Z (Z.of_nat len))%Q
  | _ => False
  end.

Definition wellFormed (q : JSValue) : Prop :=
  truthy (spec_field q "q" "question") = true
  /\ exists opts n,
       spec_field q "opts" "options" = JArr opts
       /\ spec_answer q = JNum n
       /\ indexInRange n (List.length opts).

Lemma get_present (q : JSValue) (name : string) :
  nullish q = false -> get q name = Ok (opt_get q name).
Proof.
  destruct q; intros Hq; try discriminate Hq; reflexivity.
Qed.

Lemma either_present (q : JSValue) (compact full : string) :
  nullish q = false -> either q compact full = Ok (spec_field q compact full).
Proof.
  intros Hq. unfold either, spec_field.
  rewrite (get_present _ _ Hq). cbn [bind].
  destruct (truthy (opt_get q compact)); [reflexivity|].
  apply get_present. exact Hq.
Qed.

Lemma indexInRange_checked (n : JSNum) (len : nat) :
  num_ltb n (NFin 0%Q) || num_geb n (JS.of_nat len) = false ->
  indexInRange n len.
Proof.
  intros Hchk. apply orb_false_elim in Hchk as [Hlow Hhigh].
  unfold num_geb in Hhigh. apply negb_false_iff in Hhigh.
  destruct n as [x| |]; cbn in Hlow, Hhigh; try discriminate.
  cbn [indexInRange]. split.
  - apply negb_false_iff in Hlow. now apply Qle_bool_iff.
  - apply negb_true_iff in Hhigh. apply Qnot_le_lt. intro Hle.
    apply Qle_bool_iff in Hle. unfold JS.of_nat in Hhigh. cbn in Hhigh.
    congruence.
Qed.

(** A question that [processQuestion] accepts is well formed, and keeps
    its answer. *)
Lemma processQuestion_accepts (q : JSValue) (tq : TestQuestion) :
  processQuestion q = Ok tq -> wellFormed q.
Proof.
  intros Hok.
  destruct (nullish q) eqn:Hq.
  { destruct q; try discriminate Hq; discriminate Hok. }
  unfold processQuestion in Hok.
  rewrite !(either_present _ _ _ Hq), !(get_present _ _ Hq) in Hok.
  cbn [bind] in Hok.
  assert (Hans : (match opt_get q "ans" with
                  | JUndefined => Ok (opt_get q "correctAnswer")
                  | _ => Ok (opt_get q "ans")
                  end) = Ok (spec_answer q)).
  { unfold spec_answer. destruct (opt_get q "ans"); reflexivity. }
  rewrite Hans in Hok. cbn [bind] in Hok.
  destruct (spec_field q "opts" "options") as [| | | | |opts|] eqn:Hopts;
    try discriminate Hok.
  destruct (spec_answer q) as [| | |n| | |] eqn:Hn; try discriminate Hok.
  destruct (truthy (spec_field q "q" "question")) eqn:Htruthy;
    [|discriminate Hok].
  cbn [negb] in Hok.
  destruct (num_ltb n (NFin 0%Q) || num_geb n (JS.of_nat (List.length opts))) eqn:Hchk;
    [discriminate Hok|].
  split; [exact Htruthy|].
  exists opts, n.
  split; [exact Hopts|split; [exact Hn|]].
  apply indexInRange_checked. exact Hchk.
Qed.

Lemma mapM_all {A B} (f : A -> result B) (l : list A) (ys : list B) :
  mapM f l = Ok ys ->
  List.length ys = List.length l /\ Forall (fun x => exists y, f x = Ok y) l.
Proof.
  revert ys. induction l as [|x rest IH]; intros ys Hok; cbn [mapM] in Hok.
  - inversion Hok. split; [reflexivity|constructor].
  - destruct (f x) as [y|e] eqn:Hfx; [|discriminate Hok]. cbn [bind] in Hok.
    destruct (mapM f rest) as [ys'|e] eqn:Hrest; [|discriminate Hok].
    cbn [bind] in Hok. inversion Hok; subst ys.
    destruct (IH ys' eq_refl) as [Hlen Hall].
    split; [cbn; now rewrite Hlen|].
    constructor; [exists y; exact Hfx|exact Hall].
Qed.

Lemma validateQuestions_accepts (parsed : JSValue) (qs : list TestQuestion) :
  validateQuestions parsed = Ok qs ->
  exists items, parsed = JArr items /\ items <> []
                /\ Forall wellFormed items
                /\ List.length qs = List.length items.
Proof.
  intros Hok. unfold validateQuestions in Hok.
  destruct parsed as [| | | | |items|]; try discriminate Hok.
  destruct items as [|q rest]; [discriminate Hok|].
  destruct (mapM_all _ _ _ Hok) as [Hlen Hall].
  exists (q :: rest). repeat split; try assumption; [discriminate|].
  eapply Forall_impl; [|exact Hall].
  intros x [y Hy]. exact (processQuestion_accepts _ _ Hy).
Qed.


End Validation.

(** ** The quiz session *)

Section QuizSession.
Import QuizManager.

(** [p] is an integer nearest to [100 * correct / total]:
    [|p - 100 * correct / total| <= 1/2], cleared of fractions. *)
Definition nearestPercent (p : Z) (correct total : nat) : Prop :=
  (Z.abs (2 * (p * Z.of_nat total - 100 * Z.of_nat correct)) <= Z.of_nat total)%Z.

Definition nearestPercentb (p : Z) (correct total : nat) : bool :=
  (Z.abs (2 * (p * Z.of_nat total - 100 * Z.of_nat correct)) <=? Z.of_nat total)%Z.

(** The percentage in the words of the specification: [100 * correct / total]
    rounded to the nearest integer, a half rounded up (as [Math.round]
    rounds): [floor (100 * correct / total + 1/2)]. *)
Definition spec_percentage (correct total : nat) : Z :=
  ((200 * Z.of_nat correct + Z.of_nat total) / (2 * Z.of_nat total))%Z.

Definition percentageChecked (correct total : nat) : bool :=
  match percentageOf correct total with
  | Some p =>
      nearestPercentb p correct total
      && ((40 <=? total)%nat || (p =? spec_percentage correct total)%Z)
  | None => false
  end.

(** Every score of a quiz of [S n] questions. *)
Definition scoresChecked (n : nat) : bool :=
  forallb (fun c => percentageChecked c (S n)) (seq 0 (S (S n))).

(** The double arithmetic of [percentageOf] is run on every score of every
    quiz of up to 200 questions. *)
Lemma percentages_checked : forallb scoresChecked (seq 0 200) = true.
Proof.
  vm_compute. reflexivity.
Qed.

Lemma percentageOf_nearest (correct total : nat) :
  1 <= total <= 200 -> correct <= total ->
  exists p, percentageOf correct total = Some p
            /\ nearestPercent p correct total
            /\ (total < 40 -> p = spec_percentage correct total).
Proof.
  intros [Hlow Hhigh] Hc.
  destruct total as [|n]; [lia|].
  assert (Hin : In n (seq 0 200)) by (apply in_seq; lia).
  pose proof (proj1 (forallb_forall scoresChecked (seq 0 200))
                percentages_checked n Hin) as Hrow.
  assert (Hin' : In correct (seq 0 (S (S n)))) by (apply in_seq; lia).
  pose proof (proj1 (forallb_forall (fun c => percentageChecked c (S n))
                                    (seq 0 (S (S n)))) Hrow correct Hin') as Hcell.
  cbv beta in Hcell. unfold percentageChecked in Hcell.
  destruct (percentageOf correct (S n)) as [p|]; [|discriminate Hcell].
  apply andb_prop in Hcell as [Hnear Hexact].
  exists p. split; [reflexivity|]. split.
  - unfold nearestPercentb in Hnear. apply Z.leb_le in Hnear. exact Hnear.
  - intros Hsmall. apply orb_prop in Hexact as [Hbig|Heq].
    + apply Nat.leb_le in Hbig. lia.
    + apply Z.eqb_eq in Heq. exact Heq.
Qed.

(** The sessions the interface can produce: a generated, non-empty quiz is
    started; an answer is selected; Next, which is disabled until the
    question is answered, moves on. *)
Inductive reachable (qs : list TestQuestion) : TestData -> Prop :=
| reach_start : qs <> [] -> reachable qs (startTest qs)
| reach_select (testData : TestData) (answerIndex : nat) :
    reachable qs testData ->
    reachable qs (fst (selectAnswer testData answerIndex))
| reach_next (testData next : TestData) :
    reachable qs testData ->
    answered testData = true ->
    nextQuestion testData = inl next ->
    reachable qs next.

(** At most one point per question seen so far. *)
Lemma reachable_invariant (qs : list TestQuestion) (testData : TestData) :
  reachable qs testData ->
  questions testData = qs
  /\ currentQuestion testData < List.length qs
  /\ correctAnswers testData
     <= currentQuestion testData + (if answered testData then 1 else 0).
Proof.
  induction 1 as [Hne | td i _ [Hq [Hcur Hscore]] | td next _ [Hq [Hcur Hscore]] Hans Hnext].
  - cbn. destruct qs; [contradiction|]. cbn. repeat split; lia.
  - unfold selectAnswer.
    destruct (answered td) eqn:Ha; cbn [fst]; [rewrite Ha; auto|].
    destruct (nth_error (questions td) (currentQuestion td)) as [current|];
      [destruct (num_eqb (JS.of_nat i) (correctAnswer current))|];
      cbn; repeat split; try assumption; lia.
  - unfold nextQuestion in Hnext.
    destruct (Z.of_nat (currentQuestion td) <? Z.of_nat (List.length (questions td)) - 1)%Z
      eqn:Hlt; [|discriminate Hnext].
    inversion Hnext; subst next. cbn. apply Z.ltb_lt in Hlt.
    rewrite Hans in Hscore. rewrite Hq in Hlt. repeat split; try assumption; lia.
Qed.

(** The part of the claim on selections, and where the percentage is
    right: a selection on an answered question changes nothing; a selection
    on an unanswered one marks it answered, records the index and adds one
    to [correctAnswers] exactly when the index equals the question's
    [correctAnswer]; a second selection is ignored.  For every quiz of
    fewer than 40 questions the percentage is
    [100 * correctAnswers / totalQuestions] with a half rounded up, and
    for the quizzes of up to 200 questions that were run it is never off
    by more than a half; 2 of 3 gives 67. *)
Lemma selectAnswer_once_and_score (testData : TestData) (answerIndex : nat) :
  (answered testData = true ->
     selectAnswer testData answerIndex = (testData, Ok tt))
  /\ (answered testData = false ->
      forall current,
        nth_error (questions testData) (currentQuestion testData) = Some current ->
        selectAnswer testData answerIndex
        = (mkTestData (questions testData) (currentQuestion testData)
             (Some answerIndex) true
             (if num_eqb (JS.of_nat answerIndex) (correctAnswer current)
              then S (correctAnswers testData) else correctAnswers testData),
           Ok tt))
  /\ (forall again,
        fst (selectAnswer (fst (selectAnswer testData answerIndex)) again)
        = fst (selectAnswer testData answerIndex))
  /\ (1 <= List.length (questions testData) <= 200 ->
      correctAnswers testData <= List.length (questions testData) ->
      totalQuestions (renderResultsScreen testData) = List.length (questions testData)
      /\ exists p,
           percentage (renderResultsScreen testData) = Some p
           /\ nearestPercent p (correctAnswers testData)
                (List.length (questions testData))
           /\ (List.length (questions testData) < 40 ->
               p = spec_percentage (correctAnswers testData)
                     (List.length (questions testData))))
  /\ percentageOf 2 3 = Some 67%Z.
Proof.
  split; [|split; [|split; [|split]]].
  - intros Ha. unfold selectAnswer. now rewrite Ha.
  - intros Ha current Hcur. unfold selectAnswer. rewrite Ha, Hcur.
    destruct (num_eqb (JS.of_nat answerIndex) (correctAnswer current)); reflexivity.
  - intros again.
    assert (Hdone : answered (fst (selectAnswer testData answerIndex)) = true).
    { unfold selectAnswer. destruct (answered testData) eqn:Ha; [exact Ha|].
      destruct (nth_error (questions testData) (currentQuestion testData)) as [current|];
        [destruct (num_eqb (JS.of_nat answerIndex) (correctAnswer current))|];
        reflexivity. }
    unfold selectAnswer at 1. now rewrite Hdone.
  - intros Hn Hc. split; [reflexivity|].
    exact (percentageOf_nearest _ _ Hn Hc).
  - vm_compute. reflexivity.
Qed.

End QuizSession.

(** ** Math delimiters *)

Section MathDelimiters.
Import Regex MathUtils.

(** *** Strings *)

Lemma take_slice (n : nat) (s : string) : (take n s ++ slice_from n s)%string = s.
Proof.
  revert s. induction n as [|n IH]; intros s; [reflexivity|].
  destruct s as [|c rest]; [reflexivity|]. cbn. now rewrite IH.
Qed.

Lemma slice_length (n : nat) (s : string) :
  String.length (slice_from n s) = String.length s - n.
Proof.
  revert s. induction n as [|n IH]; intros s; cbn; [lia|].
  destruct s as [|c rest]; [reflexivity|]. cbn. apply IH.
Qed.


Lemma matchAt_le (r : re) (prev : option ascii) (s : string) (n : nat) :
  matchAt r prev s = Some n -> n <= String.length s.
Proof.
  unfold matchAt. destruct (exec r prev s _); intros Heq; inversion Heq. lia.
Qed.

(** The text without its delimiters. *)
Fixpoint dropDollars (s : string) : string :=
  match s with
  | "" => ""
  | String c rest =>
      if Ascii.eqb c "$"%char then dropDollars rest else String c (dropDollars rest)
  end.

Lemma dropDollars_app (a b : string) :
  dropDollars (a ++ b) = (dropDollars a ++ dropDollars b)%string.
Proof.
  induction a as [|c a IH]; [reflexivity|].
  cbn. destruct (Ascii.eqb c "$"%char); cbn; now rewrite IH.
Qed.

Lemma dropDollars_wrapMatch (m : string) : dropDollars (wrapMatch m) = dropDollars m.
Proof.
  unfold wrapMatch. destruct (includes m "$"); [reflexivity|].
  cbn. rewrite dropDollars_app. cbn. apply append_empty_r.
Qed.

Lemma includes_head (c : ascii) (rest needle : string) :
  includes (String c rest) needle = false -> includes rest needle = false.
Proof.
  cbn [includes]. destruct (startsWith needle (String c rest)); [discriminate|auto].
Qed.

Lemma dropDollars_clean (s : string) : includes s "$" = false -> dropDollars s = s.
Proof.
  induction s as [|c rest IH]; intros Hno; [reflexivity|].
  pose proof (includes_head _ _ _ Hno) as Hrest.
  cbn [includes startsWith] in Hno. cbn [dropDollars].
  rewrite Ascii.eqb_sym in Hno.
  destruct (Ascii.eqb c "$"%char).
  - destruct rest; discriminate Hno.
  - now rewrite (IH Hrest).
Qed.


(** *** One pass of [replace] *)

Lemma replaceFrom_keeps_text (fuel : nat) (r : re) (prev : option ascii) (s : string) :
  dropDollars (replaceFrom fuel r wrapMatch prev s) = dropDollars s.
Proof.
  revert prev s. induction fuel as [|fuel IH]; intros prev s; [reflexivity|].
  cbn [replaceFrom].
  destruct (matchAt r prev s) as [[|n]|].
  - destruct s as [|c rest]; [reflexivity|].
    rewrite dropDollars_app. cbn. now rewrite IH.
  - rewrite dropDollars_app, dropDollars_wrapMatch, IH, <- dropDollars_app.
    now rewrite take_slice.
  - destruct s as [|c rest]; [reflexivity|]. cbn. now rewrite IH.
Qed.



Lemma applyPatterns_keeps_text (patterns : list re) (text : string) :
  dropDollars (applyPatterns patterns text) = dropDollars text.
Proof.
  unfold applyPatterns. revert text.
  induction patterns as [|pattern rest IH]; intros text; [reflexivity|].
  cbn [fold_left]. rewrite IH. unfold replaceAll. apply replaceFrom_keeps_text.
Qed.

End MathDelimiters.

Section MathWrapping.
Import Regex MathUtils.

(** *** The patterns never match the empty text *)

(** A class that consumes at least one byte. *)
Definition shrinks (c : charClass) : Prop :=
  forall s b rest, c s = Some (b, rest) -> String.length rest < String.length s.

Lemma shrinks_byteClass (p : ascii -> bool) : shrinks (byteClass p).
Proof.
  intros s b rest. unfold byteClass. destruct s as [|c s']; [discriminate|].
  destruct (p c); [|discriminate]. intros Heq; inversion Heq; subst. cbn. lia.
Qed.

Lemma shrinks_oneOf (chars : list string) : shrinks (oneOf chars).
Proof.
  induction chars as [|ch more IH]; intros s b rest; cbn [oneOf]; [discriminate|].
  destruct (startsWith ch s && negb (ch =? "")) eqn:Hhit; [|apply IH].
  intros Heq; inversion Heq; subst. rewrite slice_length.
  apply andb_prop in Hhit as [Hstart Hne].
  destruct ch as [|c ch']; [discriminate Hne|].
  destruct s as [|d s']; [discriminate Hstart|]. cbn. lia.
Qed.

Lemma shrinks_orClass (a b : charClass) : shrinks a -> shrinks b -> shrinks (orClass a b).
Proof.
  intros Ha Hb s x rest. unfold orClass.
  destruct (a s) as [[y rest']|] eqn:Has.
  - intros Heq; inversion Heq; subst. exact (Ha _ _ _ Has).
  - apply Hb.
Qed.

(** A pattern all of whose single and repeated-at-least-once classes
    consume. *)
Inductive Tame : re -> Prop :=
| tame_one c : shrinks c -> Tame (One c)
| tame_star c : Tame (Star c)
| tame_plus c : shrinks c -> Tame (Plus c)
| tame_seq a b : Tame a -> Tame b -> Tame (Seq a b)
| tame_alt a b : Tame a -> Tame b -> Tame (Alt a b)
| tame_boundary : Tame WordBoundary.

(** Whether every match of the pattern takes at least one byte. *)
Fixpoint eats (r : re) : bool :=
  match r with
  | One _ | Plus _ => true
  | Star _ | WordBoundary => false
  | Seq a b => eats a || eats b
  | Alt a b => eats a && eats b
  end.

Lemma firstSuccess_found {A B} (k : A -> option B) (l : list A) (out : B) :
  firstSuccess k l = Some out -> exists x, In x l /\ k x = Some out.
Proof.
  induction l as [|x rest IH]; cbn [firstSuccess]; [discriminate|].
  destruct (k x) as [y|] eqn:Hkx.
  - intros Heq; inversion Heq; subst. exists x. split; [now left|exact Hkx].
  - intros Hrest. destruct (IH Hrest) as [x' [Hin Hk]].
    exists x'. split; [now right|exact Hk].
Qed.

Lemma runs_shorter (fuel : nat) (c : charClass) (prev : option ascii) (s : string)
  (st : option ascii * string) :
  In st (runs fuel c prev s) -> String.length (snd st) <= String.length s.
Proof.
  revert prev s. induction fuel as [|fuel IH]; intros prev s; cbn [runs].
  - intros [Heq|[]]; subst; cbn; lia.
  - destruct (c s) as [[b rest]|]; [|intros [Heq|[]]; subst; cbn; lia].
    destruct (String.length rest <? String.length s)%nat eqn:Hlt;
      [|intros [Heq|[]]; subst; cbn; lia].
    apply Nat.ltb_lt in Hlt. intros Hin. apply in_app_or in Hin as [Hin|[Heq|[]]].
    + specialize (IH _ _ Hin). lia.
    + subst; cbn; lia.
Qed.

(** A successful match hands its continuation a text that is no longer
    than the one it started from, and shorter where the pattern eats. *)
Lemma exec_consumes (r : re) :
  Tame r ->
  forall prev s k out,
    exec r prev s k = Some out ->
    exists prev' s',
      k prev' s' = Some out
      /\ String.length s' + (if eats r then 1 else 0) <= String.length s.
Proof.
  induction 1 as [c Hc | c | c Hc | a b _ IHa _ IHb | a b _ IHa _ IHb | ];
    intros prev s k out Hexec; cbn [exec eats] in *.
  - destruct (c s) as [[b rest]|] eqn:Hcs; [|discriminate Hexec].
    exists (Some b), rest. split; [exact Hexec|].
    specialize (Hc _ _ _ Hcs). lia.
  - destruct (firstSuccess_found _ _ _ Hexec) as [[p s'] [Hin Hk]].
    exists p, s'. split; [exact Hk|].
    pose proof (runs_shorter _ _ _ _ _ Hin) as Hlen. cbn in Hlen. lia.
  - destruct (c s) as [[b rest]|] eqn:Hcs; [|discriminate Hexec].
    destruct (firstSuccess_found _ _ _ Hexec) as [[p s'] [Hin Hk]].
    exists p, s'. split; [exact Hk|].
    pose proof (runs_shorter _ _ _ _ _ Hin) as Hlen. cbn in Hlen.
    specialize (Hc _ _ _ Hcs). lia.
  - destruct (IHa _ _ _ _ Hexec) as [p1 [s1 [Hb Hlen1]]].
    destruct (IHb _ _ _ _ Hb) as [p2 [s2 [Hk Hlen2]]].
    exists p2, s2. split; [exact Hk|].
    destruct (eats a), (eats b); cbn in *; lia.
  - destruct (exec a prev s k) as [out'|] eqn:Ha.
    + inversion Hexec; subst out'.
      destruct (IHa _ _ _ _ Ha) as [p1 [s1 [Hk Hlen]]].
      exists p1, s1. split; [exact Hk|].
      destruct (eats a), (eats b); cbn in *; lia.
    + destruct (IHb _ _ _ _ Hexec) as [p1 [s1 [Hk Hlen]]].
      exists p1, s1. split; [exact Hk|].
      destruct (eats a), (eats b); cbn in *; lia.
  - destruct (xorb _ _); [|discriminate Hexec].
    exists prev, s. split; [exact Hexec|lia].
Qed.

Lemma matchAt_positive (r : re) (prev : option ascii) (s : string) (n : nat) :
  Tame r -> eats r = true -> matchAt r prev s = Some n -> 0 < n.
Proof.
  intros Htame Heats. unfold matchAt.
  destruct (exec r prev s (fun _ rest => Some rest)) as [rest|] eqn:Hexec;
    [|discriminate].
  intros Heq; inversion Heq; subst n.
  destruct (exec_consumes r Htame _ _ _ _ Hexec) as [p [s' [Hk Hlen]]].
  inversion Hk; subst s'. rewrite Heats in Hlen. lia.
Qed.


Lemma shrinks_whitespace : shrinks whitespace.
Proof.
  apply shrinks_orClass; [apply shrinks_byteClass|apply shrinks_oneOf].
Qed.


End MathWrapping.

Section MathPasses.
Import Regex MathUtils.










End MathPasses.

(* ===================================================================== *)
(** * Worked examples *)
(* ===================================================================== *)

Definition nl : string := String newline "".

(** Two chunks: a content line, a line that is not JSON and a comment line;
    then a content line and the end marker. *)
Definition twoChunks : list string :=
  [ line "Hel" ++ nl ++ "data: {not json" ++ nl ++ ": keep-alive";
    line "lo" ++ nl ++ "data: [DONE]" ++ nl ].

(** Contents that are not texts: an object with a [toString] of its own
    cannot be added to the response and its line is skipped; so is an
    object whose [length] the log line cannot print; a plain object is
    handed over and adds its text. *)
Definition oddChunks : list string :=
  [ line "Hel" ++ nl
    ++ "data: " ++ Demo.json "{'choices':[{'delta':{'content':{'toString':1}}}]}" ++ nl
    ++ "data: " ++ Demo.json "{'choices':[{'delta':{'content':{}}}]}";
    "data: " ++ Demo.json "{'choices':[{'delta':{'content':{'length':{'toString':1}}}}]}" ++ nl
    ++ line "lo" ].

Lemma C1_witness :
  AIService.streamAI (rt := Demo.runtime) (list JSValue) record "openai" false
    (AIService.mkWorld
       (mkAwait false
          (Value (AIService.mkResponse true 200 (Throw AbortError)
                    (map deliver twoChunks ++ [finish])%list)))
       (mkAwait false (Value [])))
    []
  = ([JStr "Hel"; JStr "lo"], Ok "Hello")
  /\ AIService.streamAI (rt := Demo.runtime) (list JSValue) record "deepseek" false
       (AIService.mkWorld
          (mkAwait false
             (Value (AIService.mkResponse true 200 (Throw AbortError)
                       (map deliver oddChunks ++ [finish])%list)))
          (mkAwait false (Value [])))
       []
     = ([JStr "Hel"; JObj []; JStr "lo"], Ok "Hel[object Object]lo").
Proof.
  split.
  - exact (eq_trans
             (proj1 (C1_openai_stream_decoding (rt := Demo.runtime) (list JSValue) record
                       twoChunks [] 200 (Throw AbortError) (mkAwait false (Value []))))
             eq_refl).
  - exact (eq_trans
             (proj1 (proj2 (C1_openai_stream_decoding (rt := Demo.runtime) (list JSValue)
                       record oddChunks [] 200 (Throw AbortError)
                       (mkAwait false (Value [])))))
             eq_refl).
Defined.

Definition wrappedAnswer : string :=
  "Sure: " ++ Demo.json "[{'q':'x','opts':['a','b'],'ans':1}]" ++ " ok".

Definition escapedQuote : string :=
  Demo.json "[{'q':'a\'b','opts':['a','b'],'ans':0}]".

(** A LaTeX command with its backslash as the model wrote it: not JSON as
    it stands, JSON once the backslash is doubled. *)
Definition rawLatex : string :=
  Demo.json "[{'q':'\alpha','opts':['a','b'],'ans':0}]".

(** The prose around the array is ignored; a raw backslash is doubled and
    the slice parses; and a slice with an escaped quote, which the doubling
    of backslashes breaks, is parsed as it is. *)
Lemma C3_witness :
  firstOpen wrappedAnswer 6
  /\ closesAt (slice_from 6 wrappedAnswer) 35
  /\ QuizManager.extractQuestions (rt := Demo.runtime) wrappedAnswer
     = Ok [mkQuestion (JStr "x") [JStr "a"; JStr "b"] (NFin (inject_Z 1)) JUndefined]
  /\ QuizManager.escapeBackslashes rawLatex
     = Demo.json "[{'q':'\\alpha','opts':['a','b'],'ans':0}]"
  /\ JSON_parse (Runtime := Demo.runtime) rawLatex = None
  /\ QuizManager.parseSlice (rt := Demo.runtime) rawLatex
     = Ok (JArr [Demo.quizItem "\alpha" "a" "b" 0])
  /\ JSON_parse (Runtime := Demo.runtime) (QuizManager.escapeBackslashes escapedQuote) = None
  /\ QuizManager.parseSlice (rt := Demo.runtime) escapedQuote
     = Ok (JArr [Demo.quizItem ("a" ++ String Demo.quote "b") "a" "b" 0]).
Proof.
  assert (Hopen : firstOpen wrappedAnswer 6).
  { split; [|eexists; reflexivity].
    cbn. intros [H|[H|[H|[H|[H|[H|[]]]]]]]; discriminate H. }
  assert (Hclose : closesAt (slice_from 6 wrappedAnswer) 35).
  { split; [vm_compute; lia|]. split; [reflexivity|].
    intros j Hj.
    do 35 (destruct j as [|j]; [vm_compute; discriminate|]). lia. }
  split; [exact Hopen|]. split; [exact Hclose|].
  split; [|repeat split; reflexivity].
  exact (eq_trans
           (proj2 (proj1 (proj2 (C3_balanced_slice_and_two_parses (rt := Demo.runtime)
                                   wrappedAnswer)) 6 Hopen) 35 Hclose)
           eq_refl).
Defined.


Definition quiz3 : list TestQuestion :=
  [ mkQuestion (JStr "first") [JStr "a"; JStr "b"] (NFin (inject_Z 1)) JUndefined;
    mkQuestion (JStr "second") [JStr "a"; JStr "b"] (NFin (inject_Z 0)) JUndefined;
    mkQuestion (JStr "third") [JStr "a"; JStr "b"] (NFin (inject_Z 1)) JUndefined ].

(** Select an answer for each question in turn and press Next. *)
Fixpoint play (testData : TestData) (answers : list nat)
  : TestData + QuizManager.TestResult :=
  match answers with
  | [] => inl testData
  | answerIndex :: later =>
      match QuizManager.nextQuestion
              (fst (QuizManager.selectAnswer testData answerIndex)) with
      | inl next => play next later
      | inr result => inr result
      end
  end.

(** Three questions: right, wrong, right.  The first selection scores; a
    second selection on the same question is ignored; the result is 67. *)
Lemma quiz3_played :
  let answeredOnce := mkTestData quiz3 0 (Some 1) true 1 in
  QuizManager.selectAnswer (QuizManager.startTest quiz3) 1 = (answeredOnce, Ok tt)
  /\ QuizManager.selectAnswer answeredOnce 0 = (answeredOnce, Ok tt)
  /\ play (QuizManager.startTest quiz3) [1; 1; 1]
     = inr (QuizManager.mkResult 3 2 (Some 67%Z)).
Proof.
  cbv zeta. split; [|split].
  - exact (proj1 (proj2 (selectAnswer_once_and_score (QuizManager.startTest quiz3) 1))
             eq_refl _ eq_refl).
  - exact (proj1 (selectAnswer_once_and_score (mkTestData quiz3 0 (Some 1) true 1) 0)
             eq_refl).
  - vm_compute. reflexivity.
Qed.

(** Forty questions, each with the second option right. *)
Definition quiz40 : list TestQuestion :=
  repeat (mkQuestion (JStr "q") [JStr "a"; JStr "b"] (NFin (inject_Z 1)) JUndefined) 40.

(** C6, where the code departs from it: 23 right answers out of 40 are
    57.5 percent, which rounds to 58; the session computes 23 / 40 first,
    the double nearest to 0.575 times 100 is just below 57.5, and the
    results screen shows 57.  The example of the claim, 2 of 3, gives 67 as
    it should. *)
Theorem C6_tie_rounds_down :
  play (QuizManager.startTest quiz40) (repeat 1 23 ++ repeat 0 17)%list
  = inr (QuizManager.mkResult 40 23 (Some 57%Z))
  /\ spec_percentage 23 40 = 58%Z
  /\ play (QuizManager.startTest quiz3) [1; 1; 1]
     = inr (QuizManager.mkResult 3 2 (Some 67%Z))
  /\ spec_percentage 2 3 = 67%Z.
Proof.
  repeat split; vm_compute; reflexivity.
Qed.

(* ===================================================================== *)
(** * Further properties of the provider adapter *)
(* ===================================================================== *)

Section BuiltInModels.
Import AIService.
Context {rt : Runtime}.

(** The key a request is sent with: the bearer token, the key parameter of
    the Gemini URL, or the key handed to the SDK. *)
Definition sentWithKey (req : Request) (key : string) : Prop :=
  match req with
  | HttpPost url headers _ =>
      In ("Authorization", "Bearer " ++ key) headers
      \/ exists modelId,
           url = "https://generativelanguage.googleapis.com/v1beta/models/"
                 ++ modelId ++ ":generateContent?key=" ++ key
  | SdkGenerateContent key' _ _ => key' = key
  end.

(** The key field a provider of the table PROVIDERS names. *)
Definition keyOfProvider (settings : LjoveSToolsSettings) (providerId : string) : string :=
  if providerId =? "gemini" then geminiApiKey settings
  else if providerId =? "openai" then openaiApiKey settings
  else if providerId =? "deepseek" then deepseekApiKey settings
  else "".

(** Whatever the provider, the request carries the key and the model it
    was given. *)
Lemma callAI_request_carries (settings : LjoveSToolsSettings)
  (prompt provider apiKey : string) (images : list ImageAttachment) :
  let req := callAI_request settings prompt provider apiKey images in
  endpoint req = endpointFor provider
  /\ sentWithKey req apiKey
  /\ asksFor req (model settings).
Proof.
  cbv zeta. unfold callAI_request, endpointFor.
  destruct (provider =? "openai").
  - split; [reflexivity|]. split; [left; right; left; reflexivity|].
    left. reflexivity.
  - destruct (provider =? "deepseek").
    + split; [reflexivity|]. split; [left; right; left; reflexivity|].
      left. reflexivity.
    + destruct images as [|image more].
      * split; [reflexivity|]. split.
        -- right. exists (model settings). reflexivity.
        -- right. exists apiKey. reflexivity.
      * split; [reflexivity|]. split; reflexivity.
Qed.

(** X1: for every built-in model, the provider and the key that the
    controllers hand to [callAI] ([getModelProvider], [getCurrentApiKey])
    are the model's own: the request goes to the endpoint of the provider
    the catalog lists for the model, with that provider's key and the
    model's id. *)
Theorem X1_builtin_model_reaches_its_provider
  (settings : LjoveSToolsSettings) (entry : CustomModel)
  (prompt : string) (images : list ImageAttachment) :
  In entry AVAILABLE_MODELS ->
  model settings = Types.id entry ->
  let req := callAI_request settings prompt (getModelProvider settings)
               (getCurrentApiKey settings) images in
  getModelProvider settings = Types.provider entry
  /\ getCurrentApiKey settings = keyOfProvider settings (Types.provider entry)
  /\ endpoint req = endpointFor (Types.provider entry)
  /\ sentWithKey req (keyOfProvider settings (Types.provider entry))
  /\ asksFor req (Types.id entry).
Proof.
  intros Hin Hmodel. cbv zeta.
  assert (Hprovider : getModelProvider settings = Types.provider entry).
  { unfold getModelProvider. rewrite Hmodel. cbn in Hin.
    destruct Hin as [H|[H|[H|[H|[H|[H|[]]]]]]]; subst entry; reflexivity. }
  assert (Hkey : getCurrentApiKey settings
                 = keyOfProvider settings (Types.provider entry)).
  { unfold getCurrentApiKey. rewrite Hprovider. cbn in Hin.
    destruct Hin as [H|[H|[H|[H|[H|[H|[]]]]]]]; subst entry; reflexivity. }
  split; [exact Hprovider|]. split; [exact Hkey|].
  rewrite Hkey, Hprovider, <- Hmodel.
  apply (callAI_request_carries settings prompt (Types.provider entry)
           (keyOfProvider settings (Types.provider entry)) images).
Qed.

Lemma X1_witness :
  getModelProvider (mkSettings "gemini" "g-key" "o-key" "d-key" "deepseek-chat" [])
  = "deepseek"
  /\ getCurrentApiKey (mkSettings "gemini" "g-key" "o-key" "d-key" "deepseek-chat" [])
     = "d-key"
  /\ endpoint (callAI_request
                 (mkSettings "gemini" "g-key" "o-key" "d-key" "deepseek-chat" [])
                 "hi" "deepseek" "d-key" [])
     = DeepSeek.
Proof.
  pose proof (X1_builtin_model_reaches_its_provider
                (mkSettings "gemini" "g-key" "o-key" "d-key" "deepseek-chat" [])
                (mkModel "deepseek-chat" "DeepSeek-V3-0324" "deepseek") "hi" []
                ltac:(cbn; tauto) eq_refl) as H.
  cbv zeta in H. destruct H as [Hp [Hk [He _]]].
  split; [exact Hp|]. split; [exact Hk|]. exact He.
Defined.

End BuiltInModels.

Section CallFailures.
Import AIService.
Context {rt : Runtime}.

Lemma includes_api_error (d : string) :
  includes ("API Error " ++ d) "503" = includes d "503".
Proof.
  reflexivity.
Qed.

(** X2: when the provider answers over HTTP with a status that is not ok,
    [callAI] raises: "API Error <status>" in general, and the "temporarily
    unavailable" message with the provider name in upper case as soon as
    the digits 503 occur in the status.  The reply is never read. *)
Theorem X2_callAI_rejects_failed_status
  (settings : LjoveSToolsSettings) (prompt provider apiKey : string)
  (images : list ImageAttachment) (net : Network) (sent : list Request)
  (response : Response) :
  overHttp provider images = true ->
  fetch net (callAI_request settings prompt provider apiKey images) = Ok response ->
  ok response = false ->
  snd (callAI settings prompt provider apiKey images net sent)
  = if includes (decimal (status response)) "503"
    then Throw (Error (toUpperCase provider
           ++ " API is temporarily unavailable (503). Please try again in a few moments."))
    else Throw (Error ("API Error " ++ decimal (status response))).
Proof.
  intros Hhttp Hfetch Hok.
  destruct (overHttp_request settings prompt provider apiKey images Hhttp)
    as [url [headers [body Hreq]]].
  unfold callAI. cbn [snd]. unfold callAI_try.
  rewrite Hreq in *. rewrite Hfetch. cbn [bind]. rewrite Hok. cbn [negb].
  unfold callAI_catch. cbn [message Error]. rewrite includes_api_error.
  reflexivity.
Qed.

End CallFailures.

Section StreamOutcomes.
Import AIService.
Context {rt : Runtime}.
Variable Caller : Type.
Variable onChunk : JSValue -> Caller -> Caller.

(** The provider strings that take the HTTP branches of [streamAI]. *)
Definition httpProvider (provider : string) : bool :=
  (provider =? "openai") || (provider =? "deepseek").

(** A read that rejects for a reason of its own (the connection drops). *)
Definition breaks {P} (e : Exn) : Await P := mkAwait false (Failure e).

Lemma readLoop_chunks (chunks : list string) (tail : list (Await (option string)))
  (full : string) (caller : Caller) :
  readLoop Caller onChunk (map deliver chunks ++ tail)%list false (full, caller)
  = readLoop Caller onChunk tail false
      ((full ++ joinAll (map snd (spec_emitted chunks)))%string,
       deliverAll Caller onChunk (map fst (spec_emitted chunks)) caller).
Proof.
  revert full caller.
  induction chunks as [|chunk more IH]; intros full caller.
  - cbn [map app spec_emitted flat_map joinAll deliverAll fold_left].
    now rewrite append_empty_r.
  - cbn [map app].
    change (readLoop Caller onChunk (deliver chunk :: (map deliver more ++ tail)%list)
              false (full, caller))
      with (readLoop Caller onChunk (map deliver more ++ tail)%list false
              (processChunk Caller onChunk chunk (full, caller))).
    unfold processChunk. rewrite processLines_spec, IH.
    unfold spec_emitted. cbn [flat_map].
    now rewrite !map_app, deliverAll_app, joinAll_app, append_assoc3.
Qed.

(** X3: how the HTTP branches of [streamAI] fail.  A failed [fetch] and a
    status that is not ok raise before [onChunk] is ever called; a read
    that rejects after some chunks raises its own error, the caller has
    been handed the content of every line of those chunks that the
    decoding rule keeps (a content that cannot be turned into text is not
    among them), and the text gathered so far is lost with the return
    value. *)
Theorem X3_streamAI_http_failures (provider : string) (caller : Caller)
  (sdk : Await (list (Await (option JSValue)))) :
  httpProvider provider = true ->
  (forall e,
     streamAI Caller onChunk provider false (mkWorld (breaks e) sdk) caller
     = (caller, Throw e))
  /\ (forall response,
        ok response = false ->
        streamAI Caller onChunk provider false
          (mkWorld (mkAwait false (Value response)) sdk) caller
        = (caller, Throw (Error ("API Error " ++ decimal (status response)))))
  /\ (forall chunks e rest code js,
        streamAI Caller onChunk provider false
          (mkWorld (mkAwait false
                      (Value (mkResponse true code js
                                (map deliver chunks ++ breaks e :: rest)%list))) sdk)
          caller
        = (deliverAll Caller onChunk (map fst (spec_emitted chunks)) caller, Throw e)).
Proof.
  unfold httpProvider. intros Hp. unfold streamAI. rewrite Hp.
  split; [|split].
  - intros e. reflexivity.
  - intros response Hok. unfold streamHttp.
    cbn [await_bound stop_pressed settles orb fetched]. now rewrite Hok.
  - intros chunks e rest code js. unfold streamHttp.
    cbn [await_bound stop_pressed settles orb ok negb body fetched].
    rewrite readLoop_chunks. reflexivity.
Qed.

(** A chunk of the Gemini stream that arrives without a Stop. *)
Definition arrive (chunk : JSValue) : Await (option JSValue) :=
  mkAwait false (Value (Some chunk)).

Definition nonEmpty (text : string) : bool := negb (text =? "").

(** The texts of the chunks, as [extractTextFromGeminiChunk] reads them. *)
Definition textsOf (chunks : list JSValue) (texts : list string) : Prop :=
  Forall2 (fun chunk text => extractTextFromGeminiChunk chunk = Ok text) chunks texts.

Lemma joinAll_nonEmpty (texts : list string) :
  joinAll (filter nonEmpty texts) = joinAll texts.
Proof.
  induction texts as [|t rest IH]; [reflexivity|].
  cbn [filter joinAll]. unfold nonEmpty at 1.
  destruct (String.eqb_spec t "") as [->|_]; cbn [negb joinAll]; now rewrite IH.
Qed.

Lemma geminiLoop_chunks (chunks : list JSValue) (texts : list string)
  (tail : list (Await (option JSValue))) (full : string) (caller : Caller) :
  textsOf chunks texts ->
  geminiLoop Caller onChunk (map arrive chunks ++ tail)%list false (full, caller)
  = geminiLoop Caller onChunk tail false
      ((full ++ joinAll texts)%string,
       deliverAll Caller onChunk (map JStr (filter nonEmpty texts)) caller).
Proof.
  intros Htexts. revert full caller.
  induction Htexts as [|chunk text chunks texts Hchunk _ IH]; intros full caller.
  - cbn [map app joinAll filter deliverAll fold_left]. now rewrite append_empty_r.
  - cbn [map app geminiLoop arrive await_free stop_pressed settles orb].
    rewrite Hchunk. cbn [filter]. unfold nonEmpty at 1.
    destruct (String.eqb_spec text "") as [->|_]; cbn [negb].
    + fold arrive in IH. rewrite IH. reflexivity.
    + fold arrive in IH. cbn [fst snd]. rewrite IH.
      cbn [map joinAll]. unfold deliverAll. cbn [fold_left].
      now rewrite append_assoc3.
Qed.

(** X4: the Gemini branch, which every provider string other than
    "openai" and "deepseek" takes.  For a stream whose chunks arrive and
    then ends, [onChunk] is called once for every chunk with a non-empty
    text, in arrival order, with that text, and the call returns the
    concatenation of the texts; the HTTP side of the world is not looked
    at. *)
Theorem X4_gemini_stream_decoding (provider : string)
  (chunks : list JSValue) (texts : list string) (caller : Caller)
  (http : Await Response) :
  httpProvider provider = false ->
  textsOf chunks texts ->
  streamAI Caller onChunk provider false
    (mkWorld http (mkAwait false (Value (map arrive chunks)))) caller
  = (deliverAll Caller onChunk (map JStr (filter nonEmpty texts)) caller,
     Ok (joinAll texts)).
Proof.
  unfold httpProvider. intros Hp Htexts. unfold streamAI. rewrite Hp.
  unfold streamGeminiWithFiles.
  cbn [await_free stop_pressed settles orb generateContentStream].
  rewrite <- (app_nil_r (map arrive chunks)).
  rewrite (geminiLoop_chunks chunks texts [] "" caller Htexts).
  reflexivity.
Qed.

(** X5: Stop on the Gemini branch.  When the button is pressed while the
    next chunk is awaited, whatever that await brings afterwards (a chunk,
    the end of the stream) is dropped and the call returns normally with
    the texts that arrived before; pressed while the stream is being
    opened, the call returns the empty text without calling [onChunk]. *)
Theorem X5_gemini_stop_returns_partial_text (provider : string)
  (chunks : list JSValue) (texts : list string) (caller : Caller)
  (http : Await Response) (late : option JSValue)
  (rest : list (Await (option JSValue))) :
  httpProvider provider = false ->
  textsOf chunks texts ->
  streamAI Caller onChunk provider false
    (mkWorld http (mkAwait false
       (Value (map arrive chunks ++ mkAwait true (Value late) :: rest)%list))) caller
  = (deliverAll Caller onChunk (map JStr (filter nonEmpty texts)) caller,
     Ok (joinAll texts))
  /\ streamAI Caller onChunk provider false
       (mkWorld http (mkAwait true (Value (mkAwait false (Value late) :: rest)))) caller
     = (caller, Ok "").
Proof.
  unfold httpProvider. intros Hp Htexts. unfold streamAI. rewrite Hp.
  unfold streamGeminiWithFiles.
  cbn [await_free stop_pressed settles orb generateContentStream].
  split.
  - rewrite (geminiLoop_chunks chunks texts _ "" caller Htexts).
    cbn [geminiLoop await_free stop_pressed settles orb append fst snd].
    destruct late; reflexivity.
  - cbn [geminiLoop await_free stop_pressed settles orb fst snd].
    destruct late; reflexivity.
Qed.

(** X6: a chunk that cannot be read ends the Gemini stream with its error.
    If a chunk's extraction throws (a null candidate does), or the stream
    itself rejects, the call raises that error after the texts of the
    earlier chunks have been delivered; later chunks are never looked at. *)
Theorem X6_gemini_stream_failures (provider : string)
  (chunks : list JSValue) (texts : list string) (caller : Caller)
  (http : Await Response) (e : Exn) (rest : list (Await (option JSValue))) :
  httpProvider provider = false ->
  textsOf chunks texts ->
  (forall bad,
     extractTextFromGeminiChunk bad = Throw e ->
     streamAI Caller onChunk provider false
       (mkWorld http (mkAwait false
          (Value (map arrive chunks ++ arrive bad :: rest)%list))) caller
     = (deliverAll Caller onChunk (map JStr (filter nonEmpty texts)) caller, Throw e))
  /\ streamAI Caller onChunk provider false
       (mkWorld http (mkAwait false
          (Value (map arrive chunks ++ breaks e :: rest)%list))) caller
     = (deliverAll Caller onChunk (map JStr (filter nonEmpty texts)) caller, Throw e).
Proof.
  unfold httpProvider. intros Hp Htexts. unfold streamAI. rewrite Hp.
  unfold streamGeminiWithFiles.
  cbn [await_free stop_pressed settles orb generateContentStream].
  split.
  - intros bad Hbad.
    rewrite (geminiLoop_chunks chunks texts _ "" caller Htexts).
    cbn [geminiLoop arrive await_free stop_pressed settles orb append fst snd].
    now rewrite Hbad.
  - rewrite (geminiLoop_chunks chunks texts _ "" caller Htexts).
    reflexivity.
Qed.

(** ** What a streaming call can do to its caller *)

Variable Inv : Caller -> Prop.
Hypothesis onChunk_keeps : forall v caller, Inv caller -> Inv (onChunk v caller).

Lemma processChunk_keeps (chunk : string) (st : string * Caller) :
  Inv (snd st) -> Inv (snd (processChunk Caller onChunk chunk st)).
Proof.
  unfold processChunk. generalize (split_nl chunk) as lines.
  intros lines. revert st.
  induction lines as [|l rest IH]; intros st Hst; [exact Hst|].
  cbn [fold_left]. apply IH.
  destruct st as [full caller]. rewrite processLine_spec.
  destruct (spec_lineContent l) as [[content text]|]; [apply onChunk_keeps|]; exact Hst.
Qed.

Lemma readLoop_keeps (reads : list (Await (option string))) (aborted : bool)
  (st : string * Caller) :
  Inv (snd st) -> Inv (fst (readLoop Caller onChunk reads aborted st)).
Proof.
  revert aborted st.
  induction reads as [|read rest IH]; intros aborted st Hst.
  - destruct aborted; exact Hst.
  - cbn [readLoop]. destruct aborted; [exact Hst|].
    unfold await_bound. cbn [orb].
    destruct (stop_pressed read); [exact Hst|].
    destruct (settles read) as [[chunk|]|e]; try exact Hst.
    apply IH. now apply processChunk_keeps.
Qed.

Lemma geminiLoop_keeps (stream : list (Await (option JSValue))) (aborted : bool)
  (st : string * Caller) :
  Inv (snd st) -> Inv (fst (geminiLoop Caller onChunk stream aborted st)).
Proof.
  revert aborted st.
  induction stream as [|next rest IH]; intros aborted st Hst; [exact Hst|].
  cbn [geminiLoop]. unfold await_free.
  destruct (settles next) as [[chunk|]|e]; try exact Hst.
  destruct (aborted || stop_pressed next); [exact Hst|].
  destruct (extractTextFromGeminiChunk chunk) as [text|e]; [|exact Hst].
  destruct (text =? ""); apply IH; [exact Hst|].
  cbn [snd]. now apply onChunk_keeps.
Qed.

(** Whatever the provider, the signal and the network, a property of the
    caller that every call of [onChunk] keeps still holds when [streamAI]
    returns or raises. *)
Lemma streamAI_keeps (provider : string) (aborted : bool)
  (world : StreamWorld) (caller : Caller) :
  Inv caller ->
  Inv (fst (streamAI Caller onChunk provider aborted world caller)).
Proof.
  intros Hinv. unfold streamAI.
  destruct ((provider =? "openai") || (provider =? "deepseek")).
  - unfold streamHttp, await_bound.
    destruct (aborted || stop_pressed (fetched world)); [exact Hinv|].
    destruct (settles (fetched world)) as [response|e]; [|exact Hinv].
    destruct (negb (ok response)); [exact Hinv|].
    now apply readLoop_keeps.
  - unfold streamGeminiWithFiles, await_free.
    destruct (settles (generateContentStream world)) as [stream|e]; [|exact Hinv].
    now apply geminiLoop_keeps.
Qed.

End StreamOutcomes.

Section StreamAccounting.
Import AIService.
Context {rt : Runtime}.
Variable Caller : Type.
Variable onChunk : JSValue -> Caller -> Caller.

(** The texts of the values: what the conversion to text makes of each. *)
Definition converted (values : list JSValue) (texts : list string) : Prop :=
  Forall2 (fun v text => jsToString v = Ok text) values texts.

(** The outcome of a streaming call accounts for [values]: the caller has
    been handed exactly these, in this order, [texts] are their texts, and
    a text that is returned is the concatenation of these after [full]. *)
Definition accounts (full : string) (caller : Caller)
  (outcome : Caller * result string) (values : list JSValue) (texts : list string)
  : Prop :=
  converted values texts
  /\ fst outcome = deliverAll Caller onChunk values caller
  /\ forall text, snd outcome = Ok text -> text = (full ++ joinAll texts)%string.

Lemma accounts_nothing (full : string) (caller : Caller) (r : result string) :
  (forall text, r = Ok text -> text = full) ->
  accounts full caller (caller, r) [] [].
Proof.
  intros Hr. split; [constructor|]. split; [reflexivity|].
  intros text Htext. cbn [joinAll]. rewrite append_empty_r. now apply Hr.
Qed.

Lemma accounts_after (full : string) (caller : Caller)
  (outcome : Caller * result string) (first rest : list JSValue)
  (firstTexts restTexts : list string) :
  converted first firstTexts ->
  accounts (full ++ joinAll firstTexts)
           (deliverAll Caller onChunk first caller) outcome rest restTexts ->
  accounts full caller outcome (first ++ rest)%list (firstTexts ++ restTexts)%list.
Proof.
  intros Hfirst [Hrest [Hcaller Htext]]. split; [|split].
  - now apply Forall2_app.
  - now rewrite deliverAll_app.
  - intros text H. rewrite (Htext text H), joinAll_app.
    apply append_assoc3.
Qed.

Lemma converted_kept (lines : list string) :
  converted (map fst (choose spec_lineContent lines))
            (map snd (choose spec_lineContent lines)).
Proof.
  induction lines as [|l rest IH]; cbn [choose]; [constructor|].
  destruct (spec_lineContent l) as [[v text]|] eqn:Hkept; [|exact IH].
  cbn [map fst snd]. constructor; [|exact IH].
  destruct (spec_lineContent_kept _ _ _ Hkept)
    as [_ [_ [parsed [_ [_ [_ Htext]]]]]].
  exact Htext.
Qed.

Lemma readLoop_accounts (reads : list (Await (option string))) (aborted : bool)
  (full : string) (caller : Caller) :
  exists values texts,
    accounts full caller (readLoop Caller onChunk reads aborted (full, caller))
             values texts.
Proof.
  revert aborted full caller.
  induction reads as [|read rest IH]; intros aborted full caller.
  - exists [], []. destruct aborted; apply accounts_nothing; intros t H;
      now injection H as <-.
  - cbn [readLoop]. destruct aborted.
    { exists [], []. apply accounts_nothing. intros t H. now injection H as <-. }
    unfold await_bound. cbn [orb].
    destruct (stop_pressed read).
    { exists [], []. apply accounts_nothing. discriminate. }
    destruct (settles read) as [[chunk|]|e].
    + unfold processChunk. rewrite processLines_spec.
      destruct (IH false
                  (full ++ joinAll (map snd (choose spec_lineContent (split_nl chunk))))%string
                  (deliverAll Caller onChunk
                     (map fst (choose spec_lineContent (split_nl chunk))) caller))
        as [values [texts Hvalues]].
      exists (map fst (choose spec_lineContent (split_nl chunk)) ++ values)%list,
             (map snd (choose spec_lineContent (split_nl chunk)) ++ texts)%list.
      apply accounts_after; [apply converted_kept|exact Hvalues].
    + exists [], []. apply accounts_nothing. intros t H. now injection H as <-.
    + exists [], []. apply accounts_nothing. discriminate.
Qed.

Lemma geminiLoop_accounts (stream : list (Await (option JSValue))) (aborted : bool)
  (full : string) (caller : Caller) :
  exists values texts,
    accounts full caller (geminiLoop Caller onChunk stream aborted (full, caller))
             values texts.
Proof.
  revert aborted full caller.
  induction stream as [|next rest IH]; intros aborted full caller.
  - exists [], []. apply accounts_nothing. intros t H. now injection H as <-.
  - cbn [geminiLoop]. unfold await_free.
    destruct (settles next) as [[chunk|]|e].
    + destruct (aborted || stop_pressed next).
      { exists [], []. apply accounts_nothing. intros t H. now injection H as <-. }
      destruct (extractTextFromGeminiChunk chunk) as [text|e].
      * destruct (text =? ""); [apply IH|].
        cbn [fst snd].
        destruct (IH false (full ++ text)%string (onChunk (JStr text) caller))
          as [values [texts Hvalues]].
        exists ([JStr text] ++ values)%list, ([text] ++ texts)%list.
        apply accounts_after; [repeat constructor|].
        cbn [joinAll deliverAll fold_left]. rewrite append_empty_r.
        exact Hvalues.
      * exists [], []. apply accounts_nothing. discriminate.
    + exists [], []. apply accounts_nothing. intros t H. now injection H as <-.
    + exists [], []. apply accounts_nothing. discriminate.
Qed.

(** X7: in every run of [streamAI], whatever the provider, the state of
    the signal and the behaviour of the network, the caller's state is
    changed by calls of [onChunk] and by nothing else, every value handed
    over can be turned into text, and a text that is returned is the
    concatenation, in order, of the texts of what those calls were handed:
    the caller that accumulates the chunks and the caller that takes the
    return value see the same text. *)
Theorem X7_streamAI_returns_what_it_delivered (provider : string) (aborted : bool)
  (world : StreamWorld) (caller : Caller) :
  exists values texts,
    converted values texts
    /\ fst (streamAI Caller onChunk provider aborted world caller)
       = deliverAll Caller onChunk values caller
    /\ forall text,
         snd (streamAI Caller onChunk provider aborted world caller) = Ok text ->
         text = joinAll texts.
Proof.
  unfold streamAI.
  destruct ((provider =? "openai") || (provider =? "deepseek")).
  - unfold streamHttp, await_bound.
    destruct (aborted || stop_pressed (fetched world)).
    { exists [], []. split; [constructor|]. split; [reflexivity|discriminate]. }
    destruct (settles (fetched world)) as [response|e].
    + destruct (negb (ok response)).
      { exists [], []. split; [constructor|]. split; [reflexivity|discriminate]. }
      apply (readLoop_accounts (body response) false "" caller).
    + exists [], []. split; [constructor|]. split; [reflexivity|discriminate].
  - unfold streamGeminiWithFiles, await_free.
    destruct (settles (generateContentStream world)) as [stream|e].
    + apply (geminiLoop_accounts stream _ "" caller).
    + exists [], []. split; [constructor|]. split; [reflexivity|discriminate].
Qed.

End StreamAccounting.

(** ** Worked examples for the provider adapter *)

(** A network whose every answer carries the given status. *)
Definition statusNetwork (code : nat) : AIService.Network :=
  AIService.mkNetwork
    (fun _ => Ok (AIService.mkResponse (Nat.leb 200 code && Nat.ltb code 300) code
                    (Throw (Error "Unexpected end of JSON input")) []))
    (fun _ => Throw (Error "unreachable")).

Lemma X2_witness :
  snd (AIService.callAI (rt := Demo.runtime) deepseekSettings "hi" "deepseek"
         "sk-deepseek" [] (statusNetwork 404) [])
  = Throw (Error "API Error 404")
  /\ snd (AIService.callAI (rt := Demo.runtime) deepseekSettings "hi" "deepseek"
            "sk-deepseek" [] (statusNetwork 503) [])
     = Throw (Error (toUpperCase (Runtime := Demo.runtime) "deepseek"
         ++ " API is temporarily unavailable (503). Please try again in a few moments.")).
Proof.
  split.
  - exact (X2_callAI_rejects_failed_status (rt := Demo.runtime) deepseekSettings "hi"
             "deepseek" "sk-deepseek" [] (statusNetwork 404) [] _
             eq_refl eq_refl eq_refl).
  - exact (X2_callAI_rejects_failed_status (rt := Demo.runtime) deepseekSettings "hi"
             "deepseek" "sk-deepseek" [] (statusNetwork 503) [] _
             eq_refl eq_refl eq_refl).
Defined.

Definition connectionLost : Exn := mkExn KTypeError "network error".

Lemma X3_witness :
  AIService.streamAI (rt := Demo.runtime) (list JSValue) record "openai" false
    (AIService.mkWorld
       (mkAwait false (Value (AIService.mkResponse true 200 (Throw AbortError)
          [deliver (line "Hel"); breaks connectionLost; deliver (line "lo")])))
       (mkAwait false (Value []))) []
  = ([JStr "Hel"], Throw connectionLost).
Proof.
  exact (proj2 (proj2 (X3_streamAI_http_failures (rt := Demo.runtime) (list JSValue)
           record "openai" [] (mkAwait false (Value [])) eq_refl))
           [line "Hel"] connectionLost [deliver (line "lo")] 200 (Throw AbortError)).
Defined.

Definition threeChunks : list JSValue :=
  [geminiChunk "Hel"; geminiChunk ""; geminiChunk "lo"].

Lemma threeChunks_texts : textsOf threeChunks ["Hel"; ""; "lo"].
Proof.
  repeat constructor.
Defined.

Lemma X4_witness :
  AIService.streamAI (rt := Demo.runtime) (list JSValue) record "gemini" false
    (AIService.mkWorld (breaks connectionLost)
       (mkAwait false (Value (map arrive threeChunks)))) []
  = ([JStr "Hel"; JStr "lo"], Ok "Hello").
Proof.
  exact (X4_gemini_stream_decoding (rt := Demo.runtime) (list JSValue) record "gemini"
           threeChunks ["Hel"; ""; "lo"] [] (breaks connectionLost)
           eq_refl threeChunks_texts).
Defined.

Lemma X5_witness :
  AIService.streamAI (rt := Demo.runtime) (list JSValue) record "gemini" false
    (AIService.mkWorld (breaks connectionLost)
       (mkAwait false (Value (map arrive threeChunks
          ++ [mkAwait true (Value (Some (geminiChunk "!")))])%list))) []
  = ([JStr "Hel"; JStr "lo"], Ok "Hello").
Proof.
  exact (proj1 (X5_gemini_stop_returns_partial_text (rt := Demo.runtime) (list JSValue)
           record "gemini" threeChunks ["Hel"; ""; "lo"] [] (breaks connectionLost)
           (Some (geminiChunk "!")) [] eq_refl threeChunks_texts)).
Defined.

Lemma X6_witness :
  AIService.streamAI (rt := Demo.runtime) (list JSValue) record "gemini" false
    (AIService.mkWorld (breaks connectionLost)
       (mkAwait false (Value (map arrive threeChunks
          ++ [arrive (JObj [("candidates", JArr [JNull])]); arrive (geminiChunk "!")])%list)))
    []
  = ([JStr "Hel"; JStr "lo"],
     Throw (mkExn KTypeError "Cannot read properties of null (reading 'content')")).
Proof.
  exact (proj1 (X6_gemini_stream_failures (rt := Demo.runtime) (list JSValue)
           record "gemini" threeChunks ["Hel"; ""; "lo"] [] (breaks connectionLost)
           _ [arrive (geminiChunk "!")] eq_refl threeChunks_texts)
           (JObj [("candidates", JArr [JNull])]) eq_refl).
Defined.

(* ===================================================================== *)
(** * Further properties of the chat session *)
(* ===================================================================== *)

Section StreamAccountingUse.
Import AIService.
Context {rt : Runtime}.
Variable Caller : Type.
Variable onChunk : JSValue -> Caller -> Caller.

Lemma streamAI_accounts (provider : string) (aborted : bool)
  (world : StreamWorld) (caller : Caller) :
  exists values texts,
    accounts Caller onChunk "" caller
      (streamAI Caller onChunk provider aborted world caller) values texts.
Proof.
  unfold streamAI.
  destruct ((provider =? "openai") || (provider =? "deepseek")).
  - unfold streamHttp, await_bound.
    destruct (aborted || stop_pressed (fetched world)).
    { exists [], []. apply accounts_nothing. discriminate. }
    destruct (settles (fetched world)) as [response|e].
    + destruct (negb (ok response)).
      { exists [], []. apply accounts_nothing. discriminate. }
      apply (readLoop_accounts Caller onChunk (body response) false "" caller).
    + exists [], []. apply accounts_nothing. discriminate.
  - unfold streamGeminiWithFiles, await_free.
    destruct (settles (generateContentStream world)) as [stream|e].
    + apply (geminiLoop_accounts Caller onChunk stream _ "" caller).
    + exists [], []. apply accounts_nothing. discriminate.
Qed.

End StreamAccountingUse.

Section ChatOutcomes.
Import ChatManager.
Context {rt : Runtime}.

Lemma length_append (a b : string) :
  String.length (a ++ b) = String.length a + String.length b.
Proof.
  induction a as [|c a IH]; cbn; [reflexivity | now rewrite IH].
Qed.

Lemma assistant_id_not_typing (now : string) :
  (now ++ "_assistant" =? "typing") = false.
Proof.
  apply String.eqb_neq. intros H.
  apply (f_equal String.length) in H. rewrite length_append in H. cbn in H. lia.
Qed.

Lemma error_id_not_typing (later : string) :
  (later ++ "_error" =? "typing") = false.
Proof.
  apply String.eqb_neq. intros H.
  assert (Hlen := f_equal String.length H). rewrite length_append in Hlen.
  cbn in Hlen. destruct later; [discriminate|cbn in Hlen; lia].
Qed.

(** The messages that stay on screen while a response is generated. *)
Definition shownOf (session : list ChatMessage) : list ChatMessage :=
  filter (fun m => negb (msgId m =? "typing")) session.

(** The chat once the first chunk has arrived: the typing indicator has
    given way to the live assistant message. *)
Definition streaming (now : string) (session : list ChatMessage) (text : string) : Chat :=
  mkChat (map Stored (shownOf session) ++ [Live])%list
         (mkMessage (now ++ "_assistant") assistant text)
         false true true true.

Lemma without_typing_shown (chat : Chat) (session : list ChatMessage)
  (tail : list Entry) :
  messages chat = (map Stored (shownOf session) ++ tail)%list ->
  without "typing" chat
  = (map Stored (shownOf session)
     ++ filter (fun e => negb (entryId chat e =? "typing")) tail)%list.
Proof.
  intros Hm. unfold without. rewrite Hm, filter_app. f_equal. clear Hm.
  unfold shownOf. induction session as [|m rest IH]; [reflexivity|].
  cbn [filter]. destruct (negb (msgId m =? "typing")) eqn:Hid; [|exact IH].
  cbn [map filter entryId]. rewrite Hid. now rewrite IH.
Qed.

Lemma without_fresh_shown (chat : Chat) (session : list ChatMessage)
  (tail : list Entry) (id : string) :
  Forall (fun m => msgId m <> id) session ->
  messages chat = (map Stored (shownOf session) ++ tail)%list ->
  without id chat
  = (map Stored (shownOf session)
     ++ filter (fun e => negb (entryId chat e =? id)) tail)%list.
Proof.
  intros Hfresh Hm. unfold without. rewrite Hm, filter_app. f_equal. clear Hm.
  unfold shownOf. induction Hfresh as [|m rest Hne _ IH]; [reflexivity|].
  cbn [filter]. destruct (negb (msgId m =? "typing")); [|exact IH].
  cbn [map filter entryId].
  destruct (String.eqb_spec (msgId m) id) as [Heq|_]; [contradiction|].
  cbn [negb]. now rewrite IH.
Qed.

Lemma view_stored (chat : Chat) (ms : list ChatMessage) (tail : list Entry) :
  messages chat = (map Stored ms ++ tail)%list ->
  view chat = (ms ++ view (setMessages chat tail))%list.
Proof.
  intros Hm. unfold view. rewrite Hm, map_app, map_map, map_id. reflexivity.
Qed.

(** The texts among the values: the chunks the chat's callback accepts. *)
Fixpoint strings (values : list JSValue) : list string :=
  match values with
  | [] => []
  | JStr text :: rest => text :: strings rest
  | _ :: rest => strings rest
  end.

Lemma onChunk_first (now : string) (session : list ChatMessage) (text : string) :
  onChunk (JStr text) (beginResponse now session) = streaming now session text.
Proof.
  unfold onChunk, beginResponse. cbn [isFirstChunk].
  rewrite (without_typing_shown _ session [Stored typingMessage]) by reflexivity.
  cbn [filter entryId typingMessage msgId String.eqb Ascii.eqb Bool.eqb negb].
  rewrite app_nil_r. reflexivity.
Qed.

Lemma onChunk_next (now : string) (session : list ChatMessage) (text chunk : string) :
  onChunk (JStr chunk) (streaming now session text)
  = streaming now session (text ++ chunk).
Proof.
  reflexivity.
Qed.

Lemma onChunk_other (v : JSValue) (chat : Chat) :
  isString v = false -> onChunk v chat = chat.
Proof.
  destruct v; intros H; try discriminate H; reflexivity.
Qed.

Lemma deliverAll_cons {Caller : Type} (f : JSValue -> Caller -> Caller)
  (v : JSValue) (rest : list JSValue) (caller : Caller) :
  deliverAll Caller f (v :: rest) caller = deliverAll Caller f rest (f v caller).
Proof.
  reflexivity.
Qed.

Lemma deliverAll_streaming (now : string) (session : list ChatMessage)
  (values : list JSValue) (text : string) :
  deliverAll Chat onChunk values (streaming now session text)
  = streaming now session (text ++ joinAll (strings values)).
Proof.
  revert text. induction values as [|v rest IH]; intros text.
  - cbn. now rewrite append_empty_r.
  - rewrite deliverAll_cons.
    destruct v as [| |b|n|chunk|items|fields];
      try (rewrite onChunk_other by reflexivity; cbn [strings]; apply IH).
    rewrite onChunk_next, IH. cbn [strings joinAll].
    now rewrite append_assoc3.
Qed.

(** Before the first text the chat stays as [beginResponse] left it. *)
Lemma deliverAll_begin (now : string) (session : list ChatMessage)
  (values : list JSValue) :
  deliverAll Chat onChunk values (beginResponse now session)
  = match strings values with
    | [] => beginResponse now session
    | first :: later => streaming now session (joinAll (first :: later))
    end.
Proof.
  induction values as [|v rest IH]; [reflexivity|].
  rewrite deliverAll_cons.
  destruct v as [| |b|n|chunk|items|fields];
    try (rewrite onChunk_other by reflexivity; cbn [strings]; exact IH).
  rewrite onChunk_first, deliverAll_streaming. reflexivity.
Qed.

Lemma append_empty (a b : string) : (a ++ b)%string = "" -> a = "" /\ b = "".
Proof.
  destruct a; cbn; [intros ->; split; reflexivity|discriminate].
Qed.

(** The texts shown are part of the text returned: when that is empty, so
    are they. *)
Lemma strings_empty (values : list JSValue) (texts : list string) :
  converted values texts -> joinAll texts = "" -> joinAll (strings values) = "".
Proof.
  induction 1 as [|v text values texts Hv _ IH]; [reflexivity|].
  cbn [joinAll]. intros Hjoin. apply append_empty in Hjoin as [Htext Hrest].
  destruct v as [| |b|n|chunk|items|fields]; cbn [strings]; try exact (IH Hrest).
  cbn in Hv. injection Hv as ->. subst text. cbn [joinAll append]. exact (IH Hrest).
Qed.

(** X8: what a chat turn leaves behind, whatever the provider and the
    network do.  The flags of the request are reset and the typing
    indicator is gone.  The messages that were shown before are kept, in
    order.  If the stream returned a text, they are followed by one
    assistant message holding exactly that text (or by nothing, when
    the text is empty and no chunk arrived); if the stream raised, they
    are followed by the apology alone, and a partial answer that had
    been shown is removed. *)
Theorem X8_chat_turn_outcomes (provider now later : string)
  (world : AIService.StreamWorld) (session : list ChatMessage) :
  Forall (fun m => msgId m <> now ++ "_assistant") session ->
  let run := AIService.streamAI Chat onChunk provider false world
               (beginResponse now session) in
  let result := generateChatResponse provider now later world session in
  isStreamingChat result = false
  /\ isRequestInFlight result = false
  /\ currentAbortController result = false
  /\ match snd run with
     | Ok text =>
         view result
         = (shownOf session ++ [mkMessage (now ++ "_assistant") assistant text])%list
         \/ (text = "" /\ view result = shownOf session)
     | Throw _ => view result = (shownOf session ++ [errorMessage later])%list
     end.
Proof.
  intros Hfresh. cbv zeta. unfold generateChatResponse.
  destruct (streamAI_accounts Chat onChunk provider false world
              (beginResponse now session)) as [values [texts [Htexts [Hchat Htext]]]].
  destruct (AIService.streamAI Chat onChunk provider false world
              (beginResponse now session)) as [chat outcome].
  cbn [fst snd] in *.
  split; [reflexivity|]. split; [reflexivity|]. split; [reflexivity|].
  rewrite deliverAll_begin in Hchat.
  destruct (strings values) as [|first later'] eqn:Hstrings.
  - (* no text was shown: the typing indicator is still there *)
    subst chat.
    destruct outcome as [text|e].
    + destruct (String.eqb_spec text "") as [Hempty|Hfull].
      * right. split; [exact Hempty|]. subst text.
        cbn [settle beginResponse isFirstChunk String.eqb negb andb].
        unfold cleanUp.
        rewrite (view_stored _ (shownOf session) []).
        -- cbn. now rewrite app_nil_r.
        -- cbn [messages].
           rewrite (without_typing_shown _ session [Stored typingMessage]) by reflexivity.
           reflexivity.
      * left.
        assert (Hbegin : without "typing" (beginResponse now session)
                         = map Stored (shownOf session)).
        { rewrite (without_typing_shown _ session [Stored typingMessage]) by reflexivity.
          cbn [filter entryId typingMessage msgId String.eqb Ascii.eqb Bool.eqb negb].
          apply app_nil_r. }
        apply String.eqb_neq in Hfull. unfold settle.
        change (isFirstChunk (beginResponse now session)) with true.
        rewrite Hfull. cbn [negb andb]. unfold cleanUp.
        rewrite (view_stored _ (shownOf session) [Live]).
        -- reflexivity.
        -- cbn [messages].
           rewrite (without_typing_shown _ session [Live]).
           ++ cbn [filter entryId setMessages setContent assistantMessage msgId
                   beginResponse].
              rewrite assistant_id_not_typing. reflexivity.
           ++ cbn [messages setMessages setContent]. rewrite Hbegin. reflexivity.
    + cbn [settle]. unfold cleanUp.
      rewrite (view_stored _ (shownOf session) [Stored (errorMessage later)]).
      * reflexivity.
      * cbn [messages].
        erewrite without_typing_shown.
        2:{ unfold setMessages. cbn [messages].
            rewrite (without_fresh_shown _ session [Stored typingMessage]
                       (now ++ "_assistant") Hfresh) by reflexivity.
            rewrite <- app_assoc. reflexivity. }
        f_equal. cbn [filter app entryId msgId typingMessage beginResponse
                      assistantMessage].
        change ("typing" =? now ++ "_assistant") with
          (String.eqb "typing" (now ++ "_assistant")).
        rewrite String.eqb_sym, assistant_id_not_typing.
        cbn [negb app filter entryId errorMessage msgId].
        rewrite error_id_not_typing. reflexivity.
  - (* texts were shown: the live assistant message is on screen *)
    subst chat.
    set (shown := joinAll (first :: later')).
    destruct outcome as [text|e].
    + left. rewrite (Htext text eq_refl). cbn [append].
      set (full := joinAll texts).
      cbn [settle streaming isFirstChunk andb negb].
      assert (Hcontent : (if full =? "" then
                            content (assistantMessage (streaming now session shown))
                          else full) = full).
      { destruct (String.eqb_spec full "") as [Hempty|_]; [|reflexivity].
        cbn [streaming assistantMessage content]. rewrite Hempty.
        subst shown. rewrite <- Hstrings.
        exact (strings_empty values texts Htexts Hempty). }
      fold (streaming now session shown). rewrite Hcontent.
      unfold cleanUp.
      rewrite (view_stored _ (shownOf session) [Live]).
      * reflexivity.
      * cbn [messages].
        rewrite (without_typing_shown _ session [Live]) by reflexivity.
        cbn [filter entryId setContent streaming assistantMessage msgId].
        rewrite assistant_id_not_typing. reflexivity.
    + cbn [settle]. unfold cleanUp.
      rewrite (view_stored _ (shownOf session) [Stored (errorMessage later)]).
      * reflexivity.
      * cbn [messages].
        erewrite without_typing_shown.
        2:{ unfold setMessages. cbn [messages].
            rewrite (without_fresh_shown _ session [Live]
                       (now ++ "_assistant") Hfresh) by reflexivity.
            rewrite <- app_assoc. reflexivity. }
        f_equal. cbn [filter app entryId msgId streaming assistantMessage].
        rewrite String.eqb_refl.
        cbn [negb app filter entryId errorMessage msgId].
        rewrite error_id_not_typing. reflexivity.
Qed.

End ChatOutcomes.

(** The connection drops after the first chunk of an answer. *)
Definition droppedWorld : AIService.StreamWorld :=
  AIService.mkWorld
    (mkAwait false (Value (AIService.mkResponse true 200 (Throw AbortError)
       [deliver (line "Hel"); breaks connectionLost])))
    (mkAwait false (Value (map arrive threeChunks))).

Lemma X8_witness :
  ChatManager.view (ChatManager.generateChatResponse (rt := Demo.runtime)
    "deepseek" "1700000000001" "1700000000002" droppedWorld [question1])
  = [question1; ChatManager.errorMessage "1700000000002"]
  /\ ChatManager.view (ChatManager.generateChatResponse (rt := Demo.runtime)
       "gemini" "1700000000001" "1700000000002" droppedWorld [question1])
     = [question1; mkMessage "1700000000001_assistant" assistant "Hello"].
Proof.
  split.
  - exact (proj2 (proj2 (proj2 (X8_chat_turn_outcomes (rt := Demo.runtime)
      "deepseek" "1700000000001" "1700000000002" droppedWorld [question1]
      ltac:(repeat constructor; discriminate))))).
  - destruct (proj2 (proj2 (proj2 (X8_chat_turn_outcomes (rt := Demo.runtime)
      "gemini" "1700000000001" "1700000000002" droppedWorld [question1]
      ltac:(repeat constructor; discriminate))))) as [H|[H _]].
    + exact H.
    + discriminate H.
Defined.

(* ===================================================================== *)
(** * Further properties of the math delimiters *)
(* ===================================================================== *)

Section MathIdempotence.
Import Regex MathUtils.

Lemma ensureMathDelimiters_fixed (text : string) :
  includes text "$" = true -> ensureMathDelimiters text = text.
Proof.
  intros H. unfold ensureMathDelimiters. rewrite H.
  destruct (text =? ""); reflexivity.
Qed.

(** X9: [ensureMathDelimiters] is idempotent: a text that has been through
    it comes back unchanged from a second call, so nothing is wrapped
    twice.  Either the first call added no delimiter at all and
    returned its argument, or its result holds a '$' and the second call
    returns at the first test. *)
Theorem X9_ensureMathDelimiters_idempotent (text : string) :
  ensureMathDelimiters (ensureMathDelimiters text) = ensureMathDelimiters text
  /\ (ensureMathDelimiters text = text
      \/ includes (ensureMathDelimiters text) "$" = true).
Proof.
  assert (Hcases : ensureMathDelimiters text = text
                   \/ includes (ensureMathDelimiters text) "$" = true).
  { destruct (includes text "$") eqn:Hhas.
    { left. now apply ensureMathDelimiters_fixed. }
    destruct (includes (ensureMathDelimiters text) "$") eqn:Hout; [now right|].
    left.
    pose proof (dropDollars_clean _ Hout) as Hclean.
    pose proof (dropDollars_clean _ Hhas) as Hsame.
    assert (Hkeeps : dropDollars (ensureMathDelimiters text) = dropDollars text).
    { unfold ensureMathDelimiters.
      destruct (text =? ""); [reflexivity|].
      destruct (includes text "$" || includes text "$$"); [reflexivity|].
      destruct (needsBlockMath text).
      - cbn. rewrite dropDollars_app. cbn. apply append_empty_r.
      - apply applyPatterns_keeps_text. }
    congruence. }
  split; [|exact Hcases].
  destruct Hcases as [Hsame|Hhas].
  - now rewrite Hsame.
  - now apply ensureMathDelimiters_fixed.
Qed.

End MathIdempotence.

(* ===================================================================== *)
(** * main.ts: the settings tab and the explanation stream *)
(* ===================================================================== *)

Module SettingsTab.

Section WithRuntime.
Context {rt : Runtime}.

(** [getCurrentApiKey] of the settings tab, a copy of the service's. *)
Definition getCurrentApiKey (settings : LjoveSToolsSettings) : string :=
  let provider :=
    match AIService.findModel AVAILABLE_MODELS (model settings) with
    | Some selectedModel =>
        if provider selectedModel =? "" then "gemini" else provider selectedModel
    | None => "gemini"
    end in
  if provider =? "openai" then openaiApiKey settings
  else if provider =? "deepseek" then deepseekApiKey settings
  else geminiApiKey settings.

(** The "API Key Status" line of [display]: whether it reports the key as
    configured, and the provider it names.  The provider is looked up among
    the built-in and the custom models, the key through
    [getCurrentApiKey]. *)
Record ApiKeyStatus : Type := mkStatus {
  configured : bool;
  named : string
}.

Definition apiKeyStatus (settings : LjoveSToolsSettings) : ApiKeyStatus :=
  let allModels := (AVAILABLE_MODELS ++ customModels settings)%list in
  let provider :=
    match AIService.findModel allModels (model settings) with
    | Some selectedModel =>
        if provider selectedModel =? "" then "gemini" else provider selectedModel
    | None => "gemini"
    end in
  let currentApiKey := getCurrentApiKey settings in
  mkStatus (negb (currentApiKey =? "")) (toUpperCase provider).

End WithRuntime.

End SettingsTab.

Section StatusLine.
Import AIService.
Context {rt : Runtime}.

Lemma findModel_app (catalog custom : list CustomModel) (modelId : string) :
  findModel (catalog ++ custom)%list modelId
  = match findModel catalog modelId with
    | Some m => Some m
    | None => findModel custom modelId
    end.
Proof.
  unfold findModel. induction catalog as [|m rest IH]; [reflexivity|].
  cbn [app find]. destruct (Types.id m =? modelId); [reflexivity|exact IH].
Qed.

Lemma findModel_builtin (entry : CustomModel) :
  In entry AVAILABLE_MODELS ->
  findModel AVAILABLE_MODELS (Types.id entry) = Some entry.
Proof.
  cbn. intros [H|[H|[H|[H|[H|[H|[]]]]]]]; subst entry; reflexivity.
Qed.

(** X10: the "API Key Status" line of the settings tab against the service
    that sends the requests.  For a built-in model the line names the
    model's provider and reports that provider's key, as the service uses
    them.  For a custom model, which the tab lets the user add under any
    provider and select, the line names the custom model's provider, but
    the key it reports on is the Gemini key, and the service resolves the
    model to the Gemini provider with the Gemini key: the line can report
    the OpenAI key as configured when only a Gemini key is set. *)
Theorem X10_status_line_and_service (settings : LjoveSToolsSettings) :
  SettingsTab.getCurrentApiKey settings = getCurrentApiKey settings
  /\ (forall entry,
        In entry AVAILABLE_MODELS -> model settings = Types.id entry ->
        SettingsTab.apiKeyStatus settings
        = SettingsTab.mkStatus
            (negb (keyOfProvider settings (Types.provider entry) =? ""))
            (toUpperCase (Types.provider entry)))
  /\ (forall custom,
        findModel AVAILABLE_MODELS (model settings) = None ->
        findModel (customModels settings) (model settings) = Some custom ->
        Types.provider custom <> "" ->
        SettingsTab.apiKeyStatus settings
        = SettingsTab.mkStatus (negb (geminiApiKey settings =? ""))
                               (toUpperCase (Types.provider custom))
        /\ getModelProvider settings = "gemini"
        /\ getCurrentApiKey settings = geminiApiKey settings).
Proof.
  split; [reflexivity|]. split.
  - intros entry Hin Hmodel.
    unfold SettingsTab.apiKeyStatus, SettingsTab.getCurrentApiKey.
    cbv zeta. rewrite findModel_app, Hmodel, (findModel_builtin entry Hin).
    cbn in Hin.
    destruct Hin as [H|[H|[H|[H|[H|[H|[]]]]]]]; subst entry; reflexivity.
  - intros custom Hnone Hsome Hp.
    unfold SettingsTab.apiKeyStatus, SettingsTab.getCurrentApiKey,
      getCurrentApiKey, getModelProvider.
    cbv zeta. rewrite findModel_app, Hnone, Hsome.
    destruct (String.eqb_spec (Types.provider custom) "") as [Heq|_];
      [contradiction|].
    repeat split.
Qed.

End StatusLine.

(** A custom OpenAI model is selected and only the Gemini key is set. *)
Definition customOpenAI : LjoveSToolsSettings :=
  mkSettings "openai" "g-key" "" "" "gpt-5" [mkModel "gpt-5" "GPT-5" "openai"].

Lemma X10_witness :
  SettingsTab.apiKeyStatus (rt := Demo.runtime) customOpenAI
  = SettingsTab.mkStatus true (toUpperCase (Runtime := Demo.runtime) "openai")
  /\ AIService.getModelProvider customOpenAI = "gemini"
  /\ AIService.getCurrentApiKey customOpenAI = "g-key".
Proof.
  exact (proj2 (proj2 (X10_status_line_and_service (rt := Demo.runtime) customOpenAI))
           (mkModel "gpt-5" "GPT-5" "openai") eq_refl eq_refl
           ltac:(discriminate)).
Defined.

Module Main.

Section WithRuntime.
Context {rt : Runtime}.

(** The body of [for (const line of lines)] in [streamExplanation]; a
    throw of [fullResponse += content] is swallowed by the inner [catch].
    There is no log line here.  The rendering of the text gathered so far is
    left out. *)
Definition explainLine (line : string) (fullResponse : string) : string :=
  if startsWith "data: " line then
    let data := slice_from 6 line in
    if data =? "[DONE]" then fullResponse
    else
      match JSON_parse data with
      | None => fullResponse
      | Some parsed =>
          match AIService.deltaContent parsed with
          | Throw _ => fullResponse
          | Ok content =>
              if truthy content then
                match jsToString content with
                | Throw _ => fullResponse
                | Ok text => fullResponse ++ text
                end
              else fullResponse
          end
      end
  else fullResponse.

(** The [while (true)] loop: no signal is handed to [fetch] and none is
    looked at, so each read settles as the network has it. *)
Fixpoint explainLoop (reads : list (Await (option string))) (fullResponse : string)
  : result string :=
  match reads with
  | [] => Ok fullResponse
  | read :: rest =>
      match settles read with
      | Failure e => Throw e
      | Value None => Ok fullResponse
      | Value (Some chunk) =>
          explainLoop rest
            (fold_left (fun acc line => explainLine line acc) (split_nl chunk)
                       fullResponse)
      end
  end.

(** The request of [streamExplanation]: every provider string other than
    "openai" is sent to DeepSeek. *)
Definition streamExplanation_request (settings : LjoveSToolsSettings)
  (prompt provider apiKey : string) : AIService.Request :=
  AIService.HttpPost
    (if provider =? "openai" then "https://api.openai.com/v1/chat/completions"
     else "https://api.deepseek.com/v1/chat/completions")
    (AIService.bearer apiKey)
    (AIService.deepseekBody (model settings) prompt [("stream", JBool true)]).

Definition streamExplanation (fetched : Await AIService.Response) : result string :=
  match settles fetched with
  | Failure e => Throw e
  | Value res =>
      if negb (AIService.ok res) then
        Throw (Error ("API Error " ++ decimal (AIService.status res)))
      else explainLoop (AIService.body res) ""
  end.

End WithRuntime.

End Main.

Section ExplanationStream.
Import AIService.
Context {rt : Runtime}.
Variable Caller : Type.
Variable onChunk : JSValue -> Caller -> Caller.

(** Nobody presses Stop while the call runs. *)
Definition undisturbed (answer : Await Response) : bool :=
  negb (stop_pressed answer)
  && match settles answer with
     | Value res => forallb (fun read => negb (stop_pressed read)) (body res)
     | Failure _ => true
     end.

(** The log line of [streamAI] goes through on a line: the content the
    line carries, if it is looked at, has no [length] that cannot be
    printed.  Every content that is a text, a number, a boolean or an array
    is of this kind. *)
Definition loggable (line : string) : bool :=
  if startsWith "data: " line then
    match JSON_parse (slice_from 6 line) with
    | Some parsed =>
        match deltaContent parsed with
        | Ok content => if truthy content then isOk (logLength content) else true
        | Throw _ => true
        end
    | None => true
    end
  else true.

Definition loggableRead (read : Await (option string)) : bool :=
  match settles read with
  | Value (Some chunk) => forallb loggable (split_nl chunk)
  | _ => true
  end.

Definition allLoggable (answer : Await Response) : bool :=
  match settles answer with
  | Value res => forallb loggableRead (body res)
  | Failure _ => true
  end.

Lemma explainLine_processLine (line full : string) (caller : Caller) :
  loggable line = true ->
  fst (processLine Caller onChunk line (full, caller)) = Main.explainLine line full.
Proof.
  unfold loggable, processLine, Main.explainLine. intros Hlog.
  destruct (startsWith "data: " line); [|reflexivity].
  destruct (slice_from 6 line =? "[DONE]"); [reflexivity|].
  destruct (JSON_parse (slice_from 6 line)) as [parsed|]; [|reflexivity].
  destruct (deltaContent parsed) as [content|e]; [|reflexivity].
  destruct (truthy content); [|reflexivity].
  unfold appended. destruct (logLength content); [|discriminate Hlog].
  cbn [bind]. destruct (jsToString content); reflexivity.
Qed.

Lemma explainLines_processLines (lines : list string) (st : string * Caller) :
  forallb loggable lines = true ->
  fst (fold_left (fun acc line => processLine Caller onChunk line acc) lines st)
  = fold_left (fun acc line => Main.explainLine line acc) lines (fst st).
Proof.
  revert st. induction lines as [|l rest IH]; intros st Hlog; [reflexivity|].
  cbn [forallb] in Hlog. apply andb_prop in Hlog as [Hl Hrest].
  cbn [fold_left]. rewrite (IH _ Hrest). f_equal.
  destruct st as [full caller]. now apply explainLine_processLine.
Qed.

Lemma explainLoop_readLoop (reads : list (Await (option string)))
  (st : string * Caller) :
  forallb (fun read => negb (stop_pressed read)) reads = true ->
  forallb loggableRead reads = true ->
  snd (readLoop Caller onChunk reads false st) = Main.explainLoop reads (fst st).
Proof.
  revert st. induction reads as [|read rest IH]; intros st Hquiet Hlog; [reflexivity|].
  cbn [forallb] in Hquiet, Hlog.
  apply andb_prop in Hquiet as [Hread Hrest].
  apply andb_prop in Hlog as [Hhere Hlater].
  apply negb_true_iff in Hread.
  cbn [readLoop Main.explainLoop]. unfold await_bound. rewrite Hread. cbn [orb].
  unfold loggableRead in Hhere.
  destruct (settles read) as [[chunk|]|e]; try reflexivity.
  rewrite (IH _ Hrest Hlater). unfold processChunk.
  now rewrite explainLines_processLines.
Qed.

(** X11: the explanation stream of main.ts and [streamAI] are two copies of
    one decoder and agree, up to the log line that only [streamAI] has.
    For the providers the explanation view streams with ("openai" and
    "deepseek"), as long as nobody presses Stop and no content carries a
    [length] that the log line cannot print, [streamExplanation] returns
    the text, or raises the error, that [streamAI] returns or raises for
    the same answer of the network, whatever the caller of [streamAI] does
    with the chunks; and its request goes to the endpoint of the
    provider. *)
Theorem X11_streamExplanation_agrees_with_streamAI (provider : string)
  (settings : LjoveSToolsSettings) (prompt apiKey : string)
  (answer : Await Response) (sdk : Await (list (Await (option JSValue))))
  (caller : Caller) :
  httpProvider provider = true ->
  undisturbed answer = true ->
  allLoggable answer = true ->
  Main.streamExplanation answer
  = snd (streamAI Caller onChunk provider false (mkWorld answer sdk) caller)
  /\ endpoint (Main.streamExplanation_request settings prompt provider apiKey)
     = endpointFor provider.
Proof.
  unfold httpProvider, undisturbed, allLoggable. intros Hp Hquiet Hlog.
  apply andb_prop in Hquiet as [Hstop Hbody]. apply negb_true_iff in Hstop.
  split.
  - unfold streamAI, Main.streamExplanation, streamHttp, await_bound.
    rewrite Hp. cbn [AIService.fetched orb]. rewrite Hstop.
    destruct (settles answer) as [res|e]; [|reflexivity].
    destruct (negb (ok res)); [reflexivity|].
    symmetry. exact (explainLoop_readLoop (body res) ("", caller) Hbody Hlog).
  - unfold Main.streamExplanation_request, endpointFor. cbn [endpoint].
    destruct (provider =? "openai"); [reflexivity|].
    cbn [orb] in Hp. rewrite Hp. reflexivity.
Qed.

End ExplanationStream.

(** A content whose [length] cannot be printed: [streamAI] skips the line
    at its log line, [streamExplanation] adds the text of the object. *)
Definition oddLength : string :=
  "data: " ++ Demo.json "{'choices':[{'delta':{'content':{'length':{'toString':1}}}}]}".

Lemma X11_witness :
  Main.streamExplanation (rt := Demo.runtime)
    (mkAwait false (Value (AIService.mkResponse true 200 (Throw AbortError)
       [deliver (line "Hel"); deliver (line "lo"); finish])))
  = Ok "Hello"
  /\ loggable (rt := Demo.runtime) oddLength = false
  /\ Main.streamExplanation (rt := Demo.runtime)
       (mkAwait false (Value (AIService.mkResponse true 200 (Throw AbortError)
          [deliver oddLength; finish])))
     = Ok "[object Object]"
  /\ AIService.streamAI (rt := Demo.runtime) (list JSValue) record "openai" false
       (AIService.mkWorld
          (mkAwait false (Value (AIService.mkResponse true 200 (Throw AbortError)
             [deliver oddLength; finish])))
          (mkAwait false (Value []))) []
     = ([], Ok "").
Proof.
  split; [|repeat split; vm_compute; reflexivity].
  exact (eq_trans
    (proj1 (X11_streamExplanation_agrees_with_streamAI (rt := Demo.runtime)
      (list JSValue) record "openai" deepseekSettings "hi" "key"
      (mkAwait false (Value (AIService.mkResponse true 200 (Throw AbortError)
         [deliver (line "Hel"); deliver (line "lo"); finish])))
      (mkAwait false (Value [])) [] eq_refl eq_refl eq_refl))
    eq_refl).
Defined.

(* ===================================================================== *)
(** * Further properties of the quiz *)
(* ===================================================================== *)

Module QuizFlow.
Import QuizManager.

(** What [generateTest] leaves the user with: a notice, the test interface
    on a fresh session, or nothing new. *)
Inductive Shown : Type :=
| Notice (text : string)
| TestInterface (testData : TestData)
| Unchanged.

Definition doubleQuote : ascii := ascii_of_nat 34.

(** The notice for a note that is missing or empty: the name in double
    quotes between "Note" and "not found". *)
Definition notFound (noteName : string) : string :=
  "Note " ++ String doubleQuote (noteName ++ String doubleQuote " not found").

(** [generateTest]: [isGenerating] is the flag on entry, [noteContent] how
    [getNoteContent] settles, [generated] how [generateQuestionsWithAI]
    settles once the note has been read, [rendered] how
    [renderTestInterface] settles on the session that has been started; all
    three are awaited inside the one [try].  Returns the flag on exit and
    what is shown. *)
Definition generateTest (isGenerating : bool) (noteName : string)
  (noteContent : result (option string)) (generated : result (list TestQuestion))
  (rendered : result unit)
  : bool * Shown :=
  if isGenerating then (true, Unchanged)
  else
    let attempt :=
      content <- noteContent ;;
      match content with
      | None | Some "" => Ok (Notice (notFound noteName))
      | Some _ =>
          questions <- generated ;;
          match questions with
          | [] => Ok (Notice "Failed to generate questions")
          | _ =>
              _ <- rendered ;;
              Ok (TestInterface (startTest questions))
          end
      end in
    (false,
     match attempt with
     | Ok shown => shown
     | Throw error =>
         if includes (message error) "Unable to parse valid question list"
         then Notice (message error)
         else Notice "Error generating test. Please try again."
     end).

End QuizFlow.

Section QuizGeneration.
Import QuizManager QuizFlow MathUtils.
Context {rt : Runtime}.

(** Every error the extraction can raise. *)
Definition extractionErrors : list Exn :=
  [ noArray; unparseable;
    Error "Invalid question structure";
    Error "Invalid correct answer index";
    mkExn KTypeError "Cannot read properties of null (reading 'q')";
    mkExn KTypeError "Cannot read properties of undefined (reading 'q')";
    mkExn KTypeError "processedText.replace is not a function";
    mkExn KTypeError "text.includes is not a function";
    notPrimitive ].

Lemma get_throws (q : JSValue) (name : string) (e : Exn) :
  get q name = Throw e -> nullish q = true.
Proof.
  destruct q; cbn; intros H; try discriminate H; reflexivity.
Qed.

(** Induction on a value, with the elements of an array at hand. *)
Fixpoint JSValue_elements (P : JSValue -> Prop)
  (simple : forall v, isArray v = false -> P v)
  (array : forall items, Forall P items -> P (JArr items))
  (v : JSValue) : P v :=
  match v with
  | JArr items =>
      array items
        ((fix all (l : list JSValue) : Forall P l :=
            match l with
            | [] => Forall_nil P
            | x :: rest =>
                Forall_cons x (JSValue_elements P simple array x) (all rest)
            end) items)
  | JUndefined => simple JUndefined eq_refl
  | JNull => simple JNull eq_refl
  | JBool b => simple (JBool b) eq_refl
  | JNum n => simple (JNum n) eq_refl
  | JStr s => simple (JStr s) eq_refl
  | JObj fields => simple (JObj fields) eq_refl
  end.

Lemma ToString_cons (x : JSValue) (rest : list JSValue) :
  jsToString (JArr (x :: rest))
  = (here <- (if nullish x then Ok "" else jsToString x) ;;
     match rest with
     | [] => Ok here
     | _ => more <- jsToString (JArr rest) ;; Ok (here ++ "," ++ more)
     end).
Proof.
  reflexivity.
Qed.

(** The one error a conversion to text raises. *)
Lemma ToString_throws (v : JSValue) (e : Exn) :
  jsToString v = Throw e -> e = notPrimitive.
Proof.
  revert e. induction v as [v Hsimple|items IH] using JSValue_elements; intros e.
  - destruct v as [| |b|n|s|items|fields]; try discriminate Hsimple;
      unfold jsToString; cbn [ToString]; try discriminate.
    + destruct b; discriminate.
    + destruct (hasOwn "toString" fields); [|discriminate].
      intros H. now injection H as <-.
  - revert e. induction IH as [|x rest Hx _ IHrest]; intros e; [discriminate|].
    rewrite ToString_cons.
    destruct (if nullish x then Ok "" else jsToString x) as [here|e'] eqn:Hhere;
      cbn [bind].
    + destruct rest as [|y more]; [discriminate|].
      destruct (jsToString (JArr (y :: more))) as [text|e''] eqn:Hjoin;
        cbn [bind]; [discriminate|].
      intros H. injection H as <-. exact (IHrest _ eq_refl).
    + intros H. injection H as <-.
      destruct (nullish x); [discriminate Hhere|]. exact (Hx _ Hhere).
Qed.

Lemma ToString_errors (v : JSValue) (e : Exn) :
  jsToString v = Throw e -> In e extractionErrors.
Proof.
  intros H. rewrite (ToString_throws _ _ H). cbn. tauto.
Qed.

Lemma ensureMathDelimitersOf_errors (v : JSValue) (e : Exn) :
  ensureMathDelimitersOf v = Throw e -> In e extractionErrors.
Proof.
  unfold ensureMathDelimitersOf.
  destruct (negb (truthy v)); [discriminate|].
  destruct v as [| |b|n|s|items|fields]; try discriminate;
    try (intros H; injection H as <-; cbn; tauto).
  destruct (existsb (isText "$") items || existsb (isText "$$") items);
    [discriminate|].
  destruct (jsToString (JArr items)) as [asText|e'] eqn:Htext; cbn [bind].
  - destruct (needsBlockMath asText); [discriminate|].
    intros H; injection H as <-; cbn; tauto.
  - intros H; injection H as <-. apply (ToString_errors _ _ Htext).
Qed.

Lemma mapM_errors {A B} (f : A -> result B) (l : list A) (e : Exn) :
  mapM f l = Throw e -> exists x, In x l /\ f x = Throw e.
Proof.
  induction l as [|x rest IH]; [discriminate|].
  cbn [mapM]. destruct (f x) as [y|e'] eqn:Hx; cbn [bind].
  - destruct (mapM f rest) as [ys|e''] eqn:Hrest; cbn [bind]; [discriminate|].
    intros H. injection H as ->.
    destruct (IH eq_refl) as [x' [Hin Hx']]. exists x'. split; [now right|exact Hx'].
  - intros H. injection H as ->. exists x. split; [now left|exact Hx].
Qed.

Lemma processQuestion_errors (q : JSValue) (e : Exn) :
  processQuestion q = Throw e -> In e extractionErrors.
Proof.
  destruct (nullish q) eqn:Hq.
  - destruct q; try discriminate Hq; cbn; intros H; injection H as <-; tauto.
  - unfold processQuestion.
    rewrite !(either_present _ _ _ Hq), !(get_present _ _ Hq). cbn [bind].
    assert (Hans : (match opt_get q "ans" with
                    | JUndefined => Ok (opt_get q "correctAnswer")
                    | _ => Ok (opt_get q "ans")
                    end : result JSValue) = Ok (spec_answer q)).
    { unfold spec_answer. destruct (opt_get q "ans"); reflexivity. }
    rewrite Hans. cbn [bind].
    destruct (spec_field q "opts" "options") as [| |b|n|s|opts|fields];
      try (intros H; injection H as <-; cbn; tauto).
    destruct (spec_answer q) as [| |b|n|s|items|fields];
      try (intros H; injection H as <-; cbn; tauto).
    destruct (negb (truthy (spec_field q "q" "question")));
      [intros H; injection H as <-; cbn; tauto|].
    destruct (num_ltb n (NFin 0%Q) || num_geb n (JS.of_nat (List.length opts)));
      [intros H; injection H as <-; cbn; tauto|].
    destruct (ensureMathDelimitersOf (spec_field q "q" "question"))
      as [question'|e1] eqn:H1; cbn [bind];
      [|intros H; injection H as <-; exact (ensureMathDelimitersOf_errors _ _ H1)].
    destruct (mapM ensureMathDelimitersOf opts) as [options'|e2] eqn:H2; cbn [bind].
    + destruct (truthy (spec_field q "exp" "explanation")).
      * destruct (ensureMathDelimitersOf (spec_field q "exp" "explanation"))
          as [explanation'|e3] eqn:H3; cbn [bind]; [discriminate|].
        intros H; injection H as <-. exact (ensureMathDelimitersOf_errors _ _ H3).
      * discriminate.
    + intros H; injection H as <-.
      destruct (mapM_errors _ _ _ H2) as [x [_ Hx]].
      exact (ensureMathDelimitersOf_errors _ _ Hx).
Qed.

Lemma extractQuestions_errors (text : string) (e : Exn) :
  extractQuestions text = Throw e -> In e extractionErrors.
Proof.
  unfold extractQuestions.
  destruct (balancedSlice text) as [jsonString|e1] eqn:Hslice; cbn [bind].
  - destruct (parseSlice jsonString) as [parsed|e2] eqn:Hparse; cbn [bind].
    + unfold validateQuestions.
      destruct parsed as [| |b|n|s|[|q qs]|fields];
        try (intros H; injection H as <-; cbn; tauto).
      intros H. destruct (mapM_errors _ _ _ H) as [x [_ Hx]].
      exact (processQuestion_errors _ _ Hx).
    + intros H; injection H as <-.
      unfold parseSlice in Hparse.
      destruct (JSON_parse (escapeBackslashes jsonString)); [discriminate|].
      destruct (JSON_parse jsonString); [discriminate|].
      injection Hparse as <-. cbn; tauto.
  - intros H; injection H as <-.
    unfold balancedSlice in Hslice.
    destruct (indexOf "["%char text) as [openPos|].
    + destruct (findClose (slice_from openPos text) openPos 0); [discriminate|].
      injection Hslice as <-. cbn; tauto.
    + injection Hslice as <-. cbn; tauto.
Qed.

Lemma extractQuestions_nonempty (text : string) (qs : list TestQuestion) :
  extractQuestions text = Ok qs -> qs <> [].
Proof.
  unfold extractQuestions.
  destruct (balancedSlice text) as [jsonString|e1]; cbn [bind]; [|discriminate].
  destruct (parseSlice jsonString) as [parsed|e2]; cbn [bind]; [|discriminate].
  intros Hval.
  destruct (validateQuestions_accepts _ _ Hval) as [items [_ [Hne [_ Hlen]]]].
  destruct qs; [|discriminate]. destruct items; [contradiction|discriminate Hlen].
Qed.

(** X12: what the user sees after [generateTest], whatever text the model
    replies with.  The generating flag is reset.  If the extraction
    succeeds the list is not empty, so the notice "Failed to generate
    questions" is never shown: the test interface opens on a fresh session
    when [renderTestInterface] goes through, and when that throws (drawing
    a question or an option that is not a text does) its error is caught
    like any other and a notice is shown instead.  If the extraction
    raises, the error reaches [generateTest] as it was raised (none of its
    messages is rephrased on the way), and the user is shown the parse
    failure message itself when the reply could not be parsed as a
    non-empty array, and the generic notice for every other failure. *)
Theorem X12_generateTest_outcomes (noteName content apiKey text : string)
  (rendered : result unit) :
  content <> "" -> apiKey <> "" -> text <> "" ->
  let generated := generateQuestionsWithAI apiKey (Ok (Some text)) in
  let out := generateTest false noteName (Ok (Some content)) generated rendered in
  let noticeFor := fun e =>
    Notice (if includes (message e) "Unable to parse valid question list"
            then message e
            else "Error generating test. Please try again.") in
  fst out = false
  /\ match extractQuestions text with
     | Ok qs =>
         qs <> []
         /\ snd out = match rendered with
                      | Ok _ => TestInterface (startTest qs)
                      | Throw e => noticeFor e
                      end
     | Throw e =>
         generated = Throw e
         /\ snd out = noticeFor e
         /\ (includes (message e) "Unable to parse valid question list" = true
             <-> e = unparseable)
     end.
Proof.
  intros Hcontent Hkey Htext. cbv zeta.
  split; [reflexivity|].
  unfold generateQuestionsWithAI.
  destruct (String.eqb_spec apiKey "") as [Heq|_]; [contradiction|].
  cbn [bind].
  destruct text as [|c text']; [contradiction|].
  destruct content as [|d content']; [contradiction|].
  destruct (extractQuestions (String c text')) as [qs|e] eqn:Hextract.
  - pose proof (extractQuestions_nonempty _ _ Hextract) as Hne.
    split; [exact Hne|].
    unfold generateTest. cbn [bind snd].
    destruct qs; [contradiction|].
    destruct rendered as [done|e']; cbn [bind]; [reflexivity|].
    destruct (includes (message e') "Unable to parse valid question list");
      reflexivity.
  - pose proof (extractQuestions_errors _ _ Hextract) as Hin.
    cbn in Hin.
    destruct Hin as [H|[H|[H|[H|[H|[H|[H|[H|[H|[]]]]]]]]]]; subst e;
      (split; [reflexivity|]; split; [reflexivity|]);
      split; intros H; try discriminate H; reflexivity.
Qed.

End QuizGeneration.

(** A reply with one well-formed question. *)
Definition oneQuestion : string :=
  Demo.json "[{'q':'x','opts':['a','b'],'ans':1}]".

Lemma X12_witness :
  QuizFlow.generateTest false "Algebra" (Ok (Some "notes"))
    (QuizManager.generateQuestionsWithAI (rt := Demo.runtime) "key" (Ok (Some "no list here")))
    (Ok tt)
  = (false, QuizFlow.Notice "Error generating test. Please try again.")
  /\ QuizFlow.generateTest false "Algebra" (Ok (Some "notes"))
       (QuizManager.generateQuestionsWithAI (rt := Demo.runtime) "key" (Ok (Some "[oops]")))
       (Ok tt)
     = (false, QuizFlow.Notice
          "Unable to parse valid question list from AI response. Please try again.")
  /\ QuizFlow.generateTest false "Algebra" (Ok (Some "notes"))
       (QuizManager.generateQuestionsWithAI (rt := Demo.runtime) "key" (Ok (Some oneQuestion)))
       (Ok tt)
     = (false, QuizFlow.TestInterface (QuizManager.startTest
          [mkQuestion (JStr "x") [JStr "a"; JStr "b"] (NFin (inject_Z 1)) JUndefined]))
  /\ QuizFlow.generateTest false "Algebra" (Ok (Some "notes"))
       (QuizManager.generateQuestionsWithAI (rt := Demo.runtime) "key" (Ok (Some oneQuestion)))
       (Throw (mkExn KTypeError "text.matchAll is not a function"))
     = (false, QuizFlow.Notice "Error generating test. Please try again.").
Proof.
  split; [|split; [|split]].
  - pose proof (X12_generateTest_outcomes (rt := Demo.runtime) "Algebra" "notes" "key"
                  "no list here" (Ok tt) ltac:(discriminate) ltac:(discriminate)
                  ltac:(discriminate)) as H.
    cbv zeta in H. destruct H as [Hflag [_ [Hshown _]]].
    apply injective_projections; [exact Hflag|exact Hshown].
  - pose proof (X12_generateTest_outcomes (rt := Demo.runtime) "Algebra" "notes" "key"
                  "[oops]" (Ok tt) ltac:(discriminate) ltac:(discriminate)
                  ltac:(discriminate)) as H.
    cbv zeta in H. destruct H as [Hflag [_ [Hshown _]]].
    apply injective_projections; [exact Hflag|exact Hshown].
  - pose proof (X12_generateTest_outcomes (rt := Demo.runtime) "Algebra" "notes" "key"
                  oneQuestion (Ok tt) ltac:(discriminate) ltac:(discriminate)
                  ltac:(discriminate)) as H.
    cbv zeta in H. destruct H as [Hflag [_ Hshown]].
    apply injective_projections; [exact Hflag|exact Hshown].
  - pose proof (X12_generateTest_outcomes (rt := Demo.runtime) "Algebra" "notes" "key"
                  oneQuestion (Throw (mkExn KTypeError "text.matchAll is not a function"))
                  ltac:(discriminate) ltac:(discriminate) ltac:(discriminate)) as H.
    cbv zeta in H. destruct H as [Hflag [_ Hshown]].
    apply injective_projections; [exact Hflag|exact Hshown].
Defined.

Section QuizPlay.
Import QuizManager.

(** The points a run of answers earns: one for each question whose stored
    [correctAnswer] is the index that was selected. *)
Fixpoint score (qs : list TestQuestion) (answers : list nat) : nat :=
  match qs, answers with
  | q :: qs', answerIndex :: answers' =>
      (if num_eqb (JS.of_nat answerIndex) (correctAnswer q) then 1 else 0)
      + score qs' answers'
  | _, _ => 0
  end.

Lemma skipn_nth (qs : list TestQuestion) (i : nat) (q : TestQuestion) :
  nth_error qs i = Some q -> skipn i qs = q :: skipn (S i) qs.
Proof.
  revert i. induction qs as [|x rest IH]; intros [|i] H; try discriminate H.
  - injection H as ->. reflexivity.
  - cbn [skipn]. cbn [nth_error] in H. rewrite (IH i H). reflexivity.
Qed.

(** A session on question [i], not yet answered, with [c] points. *)
Definition atQuestion (qs : list TestQuestion) (i c : nat) : TestData :=
  mkTestData qs i None false c.

Lemma play_from (qs : list TestQuestion) (answers : list nat) :
  forall i c,
    i + List.length answers <= List.length qs ->
    i < List.length qs ->
    play (atQuestion qs i c) answers
    = if (i + List.length answers <? List.length qs)%nat
      then inl (atQuestion qs (i + List.length answers)
                  (c + score (skipn i qs) answers))
      else inr (mkResult (List.length qs) (c + score (skipn i qs) answers)
                  (percentageOf (c + score (skipn i qs) answers) (List.length qs))).
Proof.
  induction answers as [|a rest IH]; intros i c Hfit Hi.
  - cbn [play List.length]. rewrite Nat.add_0_r.
    destruct (Nat.ltb_spec i (List.length qs)) as [_|Hge]; [|lia].
    destruct (skipn i qs); cbn [score]; now rewrite Nat.add_0_r.
  - cbn [List.length] in Hfit.
    destruct (nth_error qs i) as [q|] eqn:Hq;
      [|apply nth_error_None in Hq; lia].
    rewrite (skipn_nth _ _ _ Hq). cbn [play score].
    unfold atQuestion at 1, selectAnswer. cbn [answered questions currentQuestion].
    rewrite Hq.
    set (point := if num_eqb (JS.of_nat a) (correctAnswer q) then 1 else 0).
    assert (Hstate :
      fst (if num_eqb (JS.of_nat a) (correctAnswer q)
           then (mkTestData qs i (Some a) true (S (correctAnswers (mkTestData qs i None false c))), Ok tt)
           else (mkTestData qs i (Some a) true (correctAnswers (mkTestData qs i None false c)), Ok tt))
      = mkTestData qs i (Some a) true (c + point)).
    { subst point. cbn [correctAnswers].
      destruct (num_eqb (JS.of_nat a) (correctAnswer q)); cbn [fst]; f_equal; lia. }
    cbn [correctAnswers] in Hstate |- *. rewrite Hstate.
    unfold nextQuestion. cbn [currentQuestion questions correctAnswers].
    destruct (Z.ltb_spec (Z.of_nat i) (Z.of_nat (List.length qs) - 1)) as [Hlt|Hge].
    + fold (atQuestion qs (S i) (c + point)).
      rewrite (IH (S i) (c + point)) by lia.
      cbn [List.length].
      replace (S i + List.length rest) with (i + S (List.length rest)) by lia.
      replace (c + point + score (skipn (S i) qs) rest)
        with (c + (point + score (skipn (S i) qs) rest)) by lia.
      reflexivity.
    + assert (Hlast : rest = []).
      { destruct rest; [reflexivity|]. cbn [List.length] in Hfit. lia. }
      subst rest. cbn [List.length].
      destruct (Nat.ltb_spec (i + 1) (List.length qs)) as [Hlt|_]; [lia|].
      unfold renderResultsScreen. cbn [questions correctAnswers].
      assert (Hscore : score (skipn (S i) qs) [] = 0)
        by (destruct (skipn (S i) qs); reflexivity).
      rewrite Hscore, !Nat.add_0_r. reflexivity.
Qed.

(** X13: a whole quiz, played as the interface allows (select an answer,
    press Next).  After fewer answers than there are questions the session
    is on the next question, unanswered, and holds one point for every
    answer so far that hit its question's [correctAnswer].  With the answer
    to the last question the results screen appears: it reports the number
    of questions, the number of hits, and the percentage computed from
    these two; the score never exceeds the number of questions. *)
Theorem X13_quiz_play_through (qs : list TestQuestion) (answers : list nat) :
  (List.length answers < List.length qs ->
   play (startTest qs) answers
   = inl (mkTestData qs (List.length answers) None false (score qs answers)))
  /\ (qs <> [] -> List.length answers = List.length qs ->
      play (startTest qs) answers
      = inr (mkResult (List.length qs) (score qs answers)
               (percentageOf (score qs answers) (List.length qs))))
  /\ score qs answers <= List.length qs.
Proof.
  split; [|split].
  - intros Hlt.
    pose proof (play_from qs answers 0 0 ltac:(cbn; lia) ltac:(lia)) as H.
    cbn [Nat.add skipn] in H.
    destruct (Nat.ltb_spec (List.length answers) (List.length qs)) as [_|Hge]; [|lia].
    exact H.
  - intros Hne Hlen.
    assert (Hpos : 0 < List.length qs) by (destruct qs; [contradiction|cbn; lia]).
    pose proof (play_from qs answers 0 0 ltac:(cbn; lia) Hpos) as H.
    cbn [Nat.add skipn] in H.
    destruct (Nat.ltb_spec (List.length answers) (List.length qs)) as [Hlt|_]; [lia|].
    exact H.
  - revert answers.
    induction qs as [|q qs IH]; intros [|a answers]; cbn [score List.length]; try lia.
    specialize (IH answers).
    destruct (num_eqb (JS.of_nat a) (correctAnswer q)); lia.
Qed.

End QuizPlay.

Lemma X13_witness :
  play (QuizManager.startTest quiz3) [1; 1]
  = inl (mkTestData quiz3 2 None false 1)
  /\ play (QuizManager.startTest quiz3) [1; 1; 1]
     = inr (QuizManager.mkResult 3 2 (QuizManager.percentageOf 2 3)).
Proof.
  split.
  - exact (proj1 (X13_quiz_play_through quiz3 [1; 1]) ltac:(cbn; lia)).
  - exact (proj1 (proj2 (X13_quiz_play_through quiz3 [1; 1; 1]))
             ltac:(discriminate) eq_refl).
Defined.

(* ===================================================================== *)
(** * Images handed to the Gemini SDK *)
(* ===================================================================== *)

Section InlineImages.
Import AIService.









End InlineImages.


(* ===================================================================== *)
(** * The chat input: tagged notes *)
(* ===================================================================== *)

Module ChatInput.
Import Regex.

Definition notClosingBracket (c : ascii) : bool := negb (Ascii.eqb c "]"%char).

(** [noteRegex]: two opening brackets, one or more characters other than a
    closing bracket (the captured name), two closing brackets. *)
Definition noteRegex : re :=
  seqs [chr "["%char; chr "["%char; Plus (byteClass notClosingBracket);
        chr "]"%char; chr "]"%char].

(** The [while ((match = noteRegex.exec(content)) !== null)] loop of a
    global pattern: each search starts where the match before ended, and
    the first group of every match is pushed.  The group is the match
    without its two brackets on either side.  (A pattern that matched the
    empty text would make the loop of the source run for ever; this one
    cannot.) *)
Fixpoint execAll (fuel : nat) (prev : option ascii) (s : string) : list string :=
  match fuel with
  | O => []
  | S fuel' =>
      match matchAt noteRegex prev s with
      | Some (S n) =>
          take (S n - 4) (slice_from 2 s)
          :: execAll fuel' (lastOr prev (take (S n) s)) (slice_from (S n) s)
      | Some O => []
      | None =>
          match s with
          | "" => []
          | String c rest => execAll fuel' (Some c) rest
          end
      end
  end.

Definition extractTaggedNotes (content : string) : list string :=
  execAll (S (String.length content)) None content.

End ChatInput.

Section TaggedNotes.
Import Regex ChatInput.

Fixpoint allBytes (p : ascii -> bool) (s : string) : bool :=
  match s with
  | "" => true
  | String c rest => p c && allBytes p rest
  end.

(** A name between two pairs of brackets. *)
Definition tag (name : string) : string := "[[" ++ name ++ "]]".

Lemma runs_byteClass_in (p : ascii -> bool) (fuel : nat) (prev q : option ascii)
  (s r : string) :
  In (q, r) (runs fuel (byteClass p) prev s) ->
  exists m, s = m ++ r /\ allBytes p m = true.
Proof.
  revert prev s. induction fuel as [|fuel IH]; intros prev s; cbn [runs].
  - intros [Heq|[]]. injection Heq as _ <-. now exists "".
  - destruct s as [|c s']; cbn [byteClass].
    + intros [Heq|[]]. injection Heq as _ <-. now exists "".
    + destruct (p c) eqn:Hc.
      * destruct (String.length s' <? String.length (String c s'))%nat.
        -- intros Hin. apply in_app_or in Hin as [Hin|[Heq|[]]].
           ++ destruct (IH _ _ Hin) as [m [Hs Hm]].
              exists (String c m). split; [cbn; now rewrite <- Hs|].
              cbn [allBytes]. now rewrite Hc, Hm.
           ++ injection Heq as _ <-. now exists "".
        -- intros [Heq|[]]. injection Heq as _ <-. now exists "".
      * intros [Heq|[]]. injection Heq as _ <-. now exists "".
Qed.

(** The longest run comes first: it stops where the class stops. *)
Lemma runs_byteClass_head (p : ascii -> bool) (m r : string) :
  allBytes p m = true ->
  match r with "" => True | String c _ => p c = false end ->
  forall fuel prev,
    String.length m <= fuel ->
    exists q tail, runs fuel (byteClass p) prev (m ++ r) = (q, r) :: tail.
Proof.
  intros Hm Hr. induction m as [|a m IH]; intros fuel prev Hfuel.
  - cbn [append]. destruct fuel as [|fuel]; cbn [runs]; [now exists prev, []|].
    destruct r as [|c r']; cbn [byteClass]; [now exists prev, []|].
    rewrite Hr. now exists prev, [].
  - cbn [allBytes] in Hm. apply andb_prop in Hm as [Ha Hm].
    destruct fuel as [|fuel]; [cbn in Hfuel; lia|].
    cbn [append runs byteClass]. rewrite Ha.
    assert (Hlt : (String.length (m ++ r) <? String.length (String a (m ++ r)))%nat = true)
      by (apply Nat.ltb_lt; cbn; lia).
    rewrite Hlt.
    destruct (IH Hm fuel (Some a) ltac:(cbn in Hfuel; lia)) as [q [tail Hruns]].
    rewrite Hruns. now exists q, (tail ++ [(prev, String a (m ++ r))])%list.
Qed.

Lemma length_app (a b : string) :
  String.length (a ++ b) = String.length a + String.length b.
Proof.
  induction a as [|c a IH]; cbn; [reflexivity | now rewrite IH].
Qed.

(** A match of [noteRegex] is a tag with a non-empty name without a
    closing bracket. *)
Lemma noteRegex_sound (prev : option ascii) (s : string) (n : nat) :
  matchAt noteRegex prev s = Some n ->
  exists name rest,
    s = tag name ++ rest /\ n = 4 + String.length name
    /\ name <> "" /\ allBytes notClosingBracket name = true.
Proof.
  unfold matchAt.
  destruct (exec noteRegex prev s (fun _ rest => Some rest)) as [out|] eqn:Hexec;
    [|discriminate].
  intros Hn. injection Hn as <-.
  unfold noteRegex, chr in Hexec. cbn [seqs exec] in Hexec.
  destruct s as [|c1 s]; [discriminate Hexec|]. cbn [byteClass] in Hexec.
  destruct (Ascii.eqb_spec "["%char c1) as [<-|_]; [|discriminate Hexec].
  destruct s as [|c2 s]; [discriminate Hexec|]. cbn [byteClass] in Hexec.
  destruct (Ascii.eqb_spec "["%char c2) as [<-|_]; [|discriminate Hexec].
  destruct s as [|b s]; [discriminate Hexec|]. cbn [byteClass] in Hexec.
  destruct (notClosingBracket b) eqn:Hb; [|discriminate Hexec].
  destruct (firstSuccess_found _ _ _ Hexec) as [[q r] [Hin Hk]].
  destruct (runs_byteClass_in _ _ _ _ _ _ Hin) as [m [Hs Hm]].
  cbn [fst snd exec] in Hk.
  destruct r as [|d1 r]; [discriminate Hk|]. cbn [byteClass] in Hk.
  destruct (Ascii.eqb_spec "]"%char d1) as [<-|_]; [|discriminate Hk].
  destruct r as [|d2 r]; [discriminate Hk|]. cbn [byteClass] in Hk.
  destruct (Ascii.eqb_spec "]"%char d2) as [<-|_]; [|discriminate Hk].
  injection Hk as <-.
  exists (String b m), r. subst s. split; [|split; [|split]].
  - unfold tag. cbn [append]. now rewrite append_assoc3.
  - cbn [String.length]. rewrite length_app. cbn [String.length]. lia.
  - discriminate.
  - cbn [allBytes]. now rewrite Hb, Hm.
Qed.

(** A tag with such a name is matched whole. *)
Lemma noteRegex_complete (prev : option ascii) (name rest : string) :
  name <> "" -> allBytes notClosingBracket name = true ->
  matchAt noteRegex prev (tag name ++ rest) = Some (4 + String.length name).
Proof.
  intros Hne Hname. destruct name as [|b m]; [contradiction|].
  cbn [allBytes] in Hname. apply andb_prop in Hname as [Hb Hm].
  unfold matchAt, noteRegex, chr, tag.
  cbn [seqs exec append byteClass Ascii.eqb Bool.eqb]. rewrite Hb.
  rewrite append_assoc3. cbn [append].
  destruct (runs_byteClass_head notClosingBracket m (String "]" (String "]" rest))
              Hm eq_refl (String.length (m ++ String "]" (String "]" rest))) (Some b))
    as [q [tail Hruns]].
  { rewrite length_app. lia. }
  rewrite Hruns. cbn [firstSuccess fst snd exec byteClass Ascii.eqb Bool.eqb].
  f_equal. cbn [String.length]. rewrite length_app. cbn [String.length]. lia.
Qed.

Lemma noteRegex_skips (prev : option ascii) (c : ascii) (rest : string) :
  Ascii.eqb c "["%char = false ->
  matchAt noteRegex prev (String c rest) = None.
Proof.
  intros Hc. unfold matchAt, noteRegex, chr. cbn [seqs exec byteClass].
  now rewrite Ascii.eqb_sym, Hc.
Qed.

Lemma take_app_exact (a b : string) : take (String.length a) (a ++ b) = a.
Proof.
  induction a as [|c a IH]; cbn; [now destruct b | now rewrite IH].
Qed.

Lemma slice_app_exact (a b : string) : slice_from (String.length a) (a ++ b) = b.
Proof.
  induction a as [|c a IH]; cbn; [reflexivity|exact IH].
Qed.

(** Every name the loop collects stands as a tag in the text. *)
Lemma execAll_sound (fuel : nat) :
  forall prev s name,
    In name (execAll fuel prev s) ->
    name <> "" /\ allBytes notClosingBracket name = true
    /\ exists before after, s = before ++ tag name ++ after.
Proof.
  induction fuel as [|fuel IH]; intros prev s name; cbn [execAll]; [intros []|].
  destruct (matchAt noteRegex prev s) as [[|n]|] eqn:Hmatch.
  - intros [].
  - destruct (noteRegex_sound _ _ _ Hmatch) as [found [rest [Hs [Hn [Hne Hok]]]]].
    assert (Hgroup : take (S n - 4) (slice_from 2 s) = found).
    { subst s. unfold tag. cbn [append slice_from].
      replace (S n - 4) with (String.length found) by lia.
      rewrite append_assoc3. apply take_app_exact. }
    assert (Hrest : slice_from (S n) s = rest).
    { subst s. replace (S n) with (String.length (tag found)).
      - apply slice_app_exact.
      - unfold tag. cbn [append String.length]. rewrite length_app. cbn. lia. }
    rewrite Hgroup, Hrest. intros [Heq|Hin].
    + subst name. split; [exact Hne|]. split; [exact Hok|].
      exists "", rest. exact Hs.
    + destruct (IH _ _ _ Hin) as [H1 [H2 [before [after Hsplit]]]].
      split; [exact H1|]. split; [exact H2|].
      exists (tag found ++ before), after.
      rewrite Hs, Hsplit. now rewrite append_assoc3.
  - destruct s as [|c rest]; [intros []|].
    intros Hin. destruct (IH _ _ _ Hin) as [H1 [H2 [before [after Hsplit]]]].
    split; [exact H1|]. split; [exact H2|].
    exists (String c before), after. cbn [append]. now rewrite Hsplit.
Qed.

Definition noOpeningBracket (c : ascii) : bool := negb (Ascii.eqb c "["%char).

(** A text written as plain stretches and tags in turn. *)
Fixpoint tagged (pieces : list (string * string)) (ending : string) : string :=
  match pieces with
  | [] => ending
  | (plain, name) :: more => plain ++ tag name ++ tagged more ending
  end.

Definition wellTagged (piece : string * string) : Prop :=
  allBytes noOpeningBracket (fst piece) = true
  /\ snd piece <> ""
  /\ allBytes notClosingBracket (snd piece) = true.

Lemma execAll_plain (plain : string) :
  allBytes noOpeningBracket plain = true ->
  forall fuel prev rest,
    String.length plain <= fuel ->
    exists prev',
      execAll fuel prev (plain ++ rest)
      = execAll (fuel - String.length plain) prev' rest.
Proof.
  intros Hplain. induction plain as [|c plain IH]; intros fuel prev rest Hfuel.
  - exists prev. cbn [append String.length]. now rewrite Nat.sub_0_r.
  - cbn [allBytes] in Hplain. apply andb_prop in Hplain as [Hc Hplain].
    destruct fuel as [|fuel]; [cbn in Hfuel; lia|].
    cbn [append execAll].
    rewrite noteRegex_skips by (now apply negb_true_iff in Hc).
    destruct (IH Hplain fuel (Some c) rest ltac:(cbn in Hfuel; lia)) as [prev' Heq].
    exists prev'. exact Heq.
Qed.

Lemma execAll_tagged (pieces : list (string * string)) (ending : string) :
  Forall wellTagged pieces ->
  allBytes noOpeningBracket ending = true ->
  forall fuel prev,
    String.length (tagged pieces ending) < fuel ->
    execAll fuel prev (tagged pieces ending) = map snd pieces.
Proof.
  intros Hpieces Hending.
  induction Hpieces as [|[plain name] more [Hplain [Hne Hname]] _ IH];
    intros fuel prev Hfuel.
  - cbn [tagged map] in *.
    destruct (execAll_plain ending Hending fuel prev "" ltac:(lia)) as [prev' Heq].
    rewrite append_empty_r in Heq. rewrite Heq.
    destruct (fuel - String.length ending) as [|k] eqn:Hk; [lia|].
    cbn [execAll]. unfold matchAt, noteRegex, chr. cbn. reflexivity.
  - cbn [tagged map fst snd] in *.
    rewrite !length_app in Hfuel.
    destruct (execAll_plain plain Hplain fuel prev (tag name ++ tagged more ending)
                ltac:(lia)) as [prev' Heq].
    rewrite Heq.
    destruct (fuel - String.length plain) as [|k] eqn:Hk; [lia|].
    cbn [execAll]. rewrite (noteRegex_complete _ _ _ Hne Hname).
    cbn [Nat.add Nat.sub].
    assert (Hlen : String.length (tag name) = S (S (S (S (String.length name))))).
    { unfold tag. cbn [append String.length]. rewrite length_app. cbn. lia. }
    f_equal.
    + unfold tag. cbn [append slice_from]. rewrite Nat.sub_0_r.
      rewrite append_assoc3. apply take_app_exact.
    + rewrite <- Hlen, slice_app_exact. apply IH. lia.
Qed.

(** X15: the notes a chat message tags.  Every name [extractTaggedNotes]
    returns is non-empty, holds no closing bracket and stands in the
    message between two pairs of brackets.  Conversely, for a message
    written as stretches of text without an opening bracket and tags with
    such names in turn, the names are returned, all of them, in the order
    of the message and with their repetitions. *)
Theorem X15_extractTaggedNotes (content : string) :
  (forall name,
     In name (extractTaggedNotes content) ->
     name <> "" /\ allBytes notClosingBracket name = true
     /\ exists before after, content = before ++ tag name ++ after)
  /\ (forall pieces ending,
        Forall wellTagged pieces ->
        allBytes noOpeningBracket ending = true ->
        content = tagged pieces ending ->
        extractTaggedNotes content = map snd pieces).
Proof.
  split.
  - intros name. apply execAll_sound.
  - intros pieces ending Hpieces Hending ->.
    apply execAll_tagged; [assumption|assumption|lia].
Qed.

End TaggedNotes.

Lemma X15_witness :
  ChatInput.extractTaggedNotes "compare [[Linear Algebra]] with [[Notes/Week 3]] please"
  = ["Linear Algebra"; "Notes/Week 3"].
Proof.
  exact (proj2 (X15_extractTaggedNotes
                  "compare [[Linear Algebra]] with [[Notes/Week 3]] please")
           [("compare ", "Linear Algebra"); (" with ", "Notes/Week 3")] " please"
           ltac:(repeat constructor; discriminate) eq_refl eq_refl).
Defined.

(* ===================================================================== *)
(** * Paper identifiers *)
(* ===================================================================== *)

(** ** String.prototype.trim *)

Module Text.
Import Regex.

(** The characters [trim] removes are those of the class [\s]: WhiteSpace
    and LineTerminator. *)
Fixpoint dropWhitespace (fuel : nat) (s : string) : string :=
  match fuel with
  | O => s
  | S fuel' =>
      match whitespace s with
      | Some (_, rest) => dropWhitespace fuel' rest
      | None => s
      end
  end.

Definition trimStart (s : string) : string := dropWhitespace (String.length s) s.

(** Nothing but white space. *)
Definition isBlank (s : string) : bool := trimStart s =? "".

Fixpoint trimEnd (s : string) : string :=
  match s with
  | "" => ""
  | String c rest => if isBlank s then "" else String c (trimEnd rest)
  end.

Definition trim (s : string) : string := trimEnd (trimStart s).

End Text.

(** ** src/unnamed/part_000 [extractArxivId] and
    src/services/AlphaXivService.ts [extractPaperId] *)

Module PaperIds.
Import Regex Text.

Definition digits : charClass := byteClass isDigit.
Definition digit : re := One digits.

(** The pattern that matches the empty text, and [r?]. *)
Definition nothing : re := seqs [].
Definition opt (r : re) : re := Alt r nothing.

(** A pattern character under the flag [i]: an ASCII letter stands for
    both of its cases, any other character for itself. *)
Definition sameLetter (c x : ascii) : bool :=
  Ascii.eqb x c
  || (inRange 97 122 c && (code x =? code c - 32)%nat)
  || (inRange 65 90 c && (code x =? code c + 32)%nat).

Fixpoint literal_i (s : string) : re :=
  match s with
  | "" => nothing
  | String c "" => One (byteClass (sameLetter c))
  | String c rest => Seq (One (byteClass (sameLetter c))) (literal_i rest)
  end.

(** Four digits, a dot, four or five digits: the captured identifier. *)
Definition idCore : re :=
  seqs [digit; digit; digit; digit; chr "."%char;
        digit; digit; digit; digit; opt digit].

(** "v" and digits, as written and under the flag [i]. *)
Definition version : re := Seq (chr "v"%char) (Plus digits).
Definition version_i : re := Seq (literal_i "v") (Plus digits).

(** The direct form, between [^] and [$]. *)
Definition direct : re := Seq idCore (opt version).

(** The old form, between [^] and [$]: lower-case letters and hyphens, a
    slash, seven digits. *)
Definition oldFormat : re :=
  seqs [Plus (byteClass (fun c => inRange 97 122 c || Ascii.eqb c "-"%char));
        chr "/"%char; digit; digit; digit; digit; digit; digit; digit].

Definition atEnd (_ : option ascii) (rest : string) : option string :=
  if rest =? "" then Some rest else None.

(** [/^r$/.test(s)] *)
Definition matchesWhole (r : re) (s : string) : bool :=
  match exec r None s atEnd with
  | Some _ => true
  | None => false
  end.

(** The first group of a match of [prefix (group) suffix] at the front of
    [s]. *)
Definition groupAt (prefix group suffix : re) (prev : option ascii) (s : string)
  : option string :=
  exec prefix prev s (fun p1 s1 =>
    exec group p1 s1 (fun p2 s2 =>
      exec suffix p2 s2 (fun _ _ =>
        Some (take (String.length s1 - String.length s2) s1)))).

(** [s.match(/prefix(group)suffix/)?.[1]]: the first group of the leftmost
    match. *)
Fixpoint firstGroup (prefix group suffix : re) (prev : option ascii) (s : string)
  : option string :=
  match groupAt prefix group suffix prev s with
  | Some g => Some g
  | None =>
      match s with
      | "" => None
      | String c rest => firstGroup prefix group suffix (Some c) rest
      end
  end.

(** [input.replace(/v\d+$/, '')]: the text is cut at the leftmost place
    from which "v" and digits run to the end. *)
Fixpoint dropVersion (prev : option ascii) (s : string) : string :=
  match exec version prev s atEnd with
  | Some _ => ""
  | None =>
      match s with
      | "" => ""
      | String c rest => String c (dropVersion (Some c) rest)
      end
  end.

Definition urlMatch (input : string) : option string :=
  firstGroup (literal_i "arxiv.org/abs/") idCore (opt version_i) None input.

Definition arxivMatch (input : string) : option string :=
  firstGroup (literal_i "arxiv:") idCore (opt version_i) None input.

(** src/unnamed/part_000, [extractArxivId]; [None] stands for null. *)
Definition extractArxivId (input : string) : option string :=
  let input := trim input in
  if matchesWhole direct input then Some (dropVersion None input)
  else
    match urlMatch input with
    | Some id => Some id
    | None =>
        match arxivMatch input with
        | Some id => Some id
        | None => if matchesWhole oldFormat input then Some input else None
        end
    end.

(** src/services/AlphaXivService.ts, [extractPaperId]. *)
Definition extractPaperId (input : string) : option string :=
  let input := trim input in
  if matchesWhole direct input then Some (dropVersion None input)
  else
    match urlMatch input with
    | Some id => Some id
    | None => arxivMatch input
    end.

End PaperIds.

Ltac splitAnds :=
  repeat match goal with
         | H : _ && _ = true |- _ => apply andb_prop in H; destruct H
         end.

Section PaperIdentifiers.
Import Regex Text PaperIds.

(** *** The two shapes of an identifier *)

(** Four digits, a dot, four or five digits. *)
Definition isNewId (id : string) : bool :=
  match id with
  | String d1 (String d2 (String d3 (String d4 (String dot
      (String d5 (String d6 (String d7 (String d8 rest)))))))) =>
      isDigit d1 && isDigit d2 && isDigit d3 && isDigit d4
      && Ascii.eqb dot "."%char
      && isDigit d5 && isDigit d6 && isDigit d7 && isDigit d8
      && match rest with
         | "" => true
         | String d9 "" => isDigit d9
         | _ => false
         end
  | _ => false
  end.

Definition lowerOrHyphen (c : ascii) : bool :=
  inRange 97 122 c || Ascii.eqb c "-"%char.

(** What follows the first character of an old identifier: more letters
    and hyphens, then a slash and seven digits. *)
Fixpoint isOldTail (s : string) : bool :=
  match s with
  | "" => false
  | String c rest =>
      if Ascii.eqb c "/"%char
      then (String.length rest =? 7)%nat && allBytes isDigit rest
      else lowerOrHyphen c && isOldTail rest
  end.

Definition isOldId (id : string) : bool :=
  match id with
  | "" => false
  | String c rest => lowerOrHyphen c && isOldTail rest
  end.

(** *** The engine on the pieces of the patterns *)

Lemma exec_nothing (prev : option ascii) (s : string)
  (k : option ascii -> string -> option string) :
  exec nothing prev s k = k prev s.
Proof.
  unfold nothing. cbn [seqs exec]. destruct s as [|c s]; cbn; now destruct (k prev _).
Qed.

Lemma digit_step (prev : option ascii) (s : string)
  (k : option ascii -> string -> option string) (out : string) :
  exec digit prev s k = Some out ->
  exists d rest, s = String d rest /\ isDigit d = true /\ k (Some d) rest = Some out.
Proof.
  unfold digit, digits. cbn [exec]. destruct s as [|d rest]; [discriminate|].
  cbn [byteClass]. destruct (isDigit d) eqn:Hd; [|discriminate].
  intros H. now exists d, rest.
Qed.

Lemma chr_step (c : ascii) (prev : option ascii) (s : string)
  (k : option ascii -> string -> option string) (out : string) :
  exec (chr c) prev s k = Some out ->
  exists rest, s = String c rest /\ k (Some c) rest = Some out.
Proof.
  unfold chr. cbn [exec]. destruct s as [|d rest]; [discriminate|].
  cbn [byteClass]. destruct (Ascii.eqb_spec c d) as [<-|_]; [|discriminate].
  intros H. now exists rest.
Qed.

(** A match of [idCore] takes an identifier of the new shape off the front
    of the text. *)
Lemma idCore_sound (prev : option ascii) (s : string)
  (k : option ascii -> string -> option string) (out : string) :
  exec idCore prev s k = Some out ->
  exists core rest p,
    s = core ++ rest /\ isNewId core = true /\ k p rest = Some out.
Proof.
  unfold idCore. cbn [seqs]. intros H. cbn [exec] in H.
  apply digit_step in H as [d1 [s1 [-> [H1 H]]]].
  apply digit_step in H as [d2 [s2 [-> [H2 H]]]].
  apply digit_step in H as [d3 [s3 [-> [H3 H]]]].
  apply digit_step in H as [d4 [s4 [-> [H4 H]]]].
  apply chr_step in H as [s5 [-> H]].
  apply digit_step in H as [d5 [s6 [-> [H5 H]]]].
  apply digit_step in H as [d6 [s7 [-> [H6 H]]]].
  apply digit_step in H as [d7 [s8 [-> [H7 H]]]].
  apply digit_step in H as [d8 [s9 [-> [H8 H]]]].
  unfold opt in H. cbn [exec] in H.
  destruct (exec digit (Some d8) s9 k) as [out'|] eqn:Hfifth.
  - injection H as ->.
    apply digit_step in Hfifth as [d9 [s10 [-> [H9 Hk]]]].
    exists (String d1 (String d2 (String d3 (String d4 (String "."
              (String d5 (String d6 (String d7 (String d8 (String d9 "")))))))))),
      s10, (Some d9).
    split; [reflexivity|]. split; [|exact Hk].
    cbn [isNewId]. now rewrite H1, H2, H3, H4, H5, H6, H7, H8, H9.
  - fold nothing in H. change (exec (seqs []) (Some d8) s9 k) with
      (exec nothing (Some d8) s9 k) in H.
    rewrite exec_nothing in H.
    exists (String d1 (String d2 (String d3 (String d4 (String "."
              (String d5 (String d6 (String d7 (String d8 ""))))))))),
      s9, (Some d8).
    split; [reflexivity|]. split; [|exact H].
    cbn [isNewId]. now rewrite H1, H2, H3, H4, H5, H6, H7, H8.
Qed.

(** *** Text without white space *)

(** A printable ASCII character other than the space. *)
Definition plain (c : ascii) : bool := (33 <=? code c)%nat && (code c <=? 126)%nat.

Lemma oneOf_high (chars : list string) (c : ascii) (rest : string) :
  Forall (fun ch => match ch with
                    | String h _ => 128 <= code h
                    | "" => True
                    end) chars ->
  code c < 128 ->
  oneOf chars (String c rest) = None.
Proof.
  intros Hall Hc. induction Hall as [|ch more Hch _ IH]; [reflexivity|].
  cbn [oneOf]. destruct ch as [|h t].
  - cbn. exact IH.
  - cbn [startsWith]. destruct (Ascii.eqb_spec h c) as [->|_]; [lia|].
    cbn [andb]. exact IH.
Qed.

Lemma whitespace_plain (c : ascii) (rest : string) :
  plain c = true -> whitespace (String c rest) = None.
Proof.
  unfold plain. intros H. apply andb_prop in H as [Hlo Hhi].
  apply Nat.leb_le in Hlo, Hhi.
  unfold whitespace, orClass. cbn [byteClass]. unfold inRange.
  assert (H1 : ((9 <=? code c)%nat && (code c <=? 13)%nat || (code c =? 32)%nat) = false).
  { destruct (Nat.leb_spec (code c) 13); [lia|].
    destruct (Nat.eqb_spec (code c) 32); [lia|].
    now rewrite andb_false_r. }
  rewrite H1. apply oneOf_high; [|lia].
  cbn [map seq app]. repeat constructor; vm_compute; lia.
Qed.

Lemma trimStart_plain (c : ascii) (rest : string) :
  plain c = true -> trimStart (String c rest) = String c rest.
Proof.
  intros H. unfold trimStart. cbn [String.length dropWhitespace].
  now rewrite (whitespace_plain c rest H).
Qed.

Lemma trimEnd_plain (s : string) : allBytes plain s = true -> trimEnd s = s.
Proof.
  induction s as [|c rest IH]; intros H; [reflexivity|].
  cbn [allBytes] in H. apply andb_prop in H as [Hc Hrest].
  cbn [trimEnd]. unfold isBlank. rewrite (trimStart_plain c rest Hc).
  cbn [String.eqb]. now rewrite (IH Hrest).
Qed.

Lemma trim_plain (s : string) : allBytes plain s = true -> trim s = s.
Proof.
  intros H. unfold trim.
  destruct s as [|c rest]; [reflexivity|].
  pose proof H as H'. cbn [allBytes] in H'. apply andb_prop in H' as [Hc _].
  rewrite (trimStart_plain c rest Hc). now apply trimEnd_plain.
Qed.

Lemma allBytes_impl (p q : ascii -> bool) (s : string) :
  (forall c, p c = true -> q c = true) ->
  allBytes p s = true -> allBytes q s = true.
Proof.
  intros Hpq. induction s as [|c rest IH]; [reflexivity|].
  cbn [allBytes]. intros H. apply andb_prop in H as [Hc Hrest].
  now rewrite (Hpq c Hc), (IH Hrest).
Qed.

Lemma allBytes_app (p : ascii -> bool) (a b : string) :
  allBytes p (a ++ b) = allBytes p a && allBytes p b.
Proof.
  induction a as [|c a IH]; [reflexivity|].
  cbn [append allBytes]. now rewrite IH, andb_assoc.
Qed.

(** The characters identifiers are made of. *)
Definition idChar (c : ascii) : bool :=
  isDigit c || lowerOrHyphen c || Ascii.eqb c "."%char || Ascii.eqb c "/"%char.

Lemma digit_range (c : ascii) : isDigit c = true -> 48 <= code c <= 57.
Proof.
  unfold isDigit, inRange. intros H. apply andb_prop in H as [Hlo Hhi].
  apply Nat.leb_le in Hlo, Hhi. lia.
Qed.

Lemma lowerOrHyphen_range (c : ascii) :
  lowerOrHyphen c = true -> 97 <= code c <= 122 \/ code c = 45.
Proof.
  unfold lowerOrHyphen, inRange. intros H. apply orb_prop in H as [H|H].
  - apply andb_prop in H as [Hlo Hhi]. apply Nat.leb_le in Hlo, Hhi. lia.
  - apply Ascii.eqb_eq in H. subst c. now right.
Qed.

Lemma idChar_plain (c : ascii) : idChar c = true -> plain c = true.
Proof.
  unfold idChar, plain. intros H.
  assert (Hrange : 33 <= code c <= 126).
  { apply orb_prop in H as [H|H]; [apply orb_prop in H as [H|H];
      [apply orb_prop in H as [H|H]|]|].
    - pose proof (digit_range c H). lia.
    - pose proof (lowerOrHyphen_range c H). lia.
    - apply Ascii.eqb_eq in H. subst c. cbn. lia.
    - apply Ascii.eqb_eq in H. subst c. cbn. lia. }
  apply andb_true_intro. split; apply Nat.leb_le; lia.
Qed.

Lemma digit_idChar (c : ascii) : isDigit c = true -> idChar c = true.
Proof.
  unfold idChar. now intros ->.
Qed.

Lemma digit_not (c x : ascii) :
  isDigit c = true -> isDigit x = false -> Ascii.eqb x c = false.
Proof.
  intros Hc Hx. destruct (Ascii.eqb_spec x c) as [->|_]; [congruence|reflexivity].
Qed.

Definition digitOrDot (c : ascii) : bool := isDigit c || Ascii.eqb c "."%char.

Lemma isNewId_digits (id : string) : isNewId id = true -> allBytes digitOrDot id = true.
Proof.
  unfold isNewId.
  destruct id as [|d1 [|d2 [|d3 [|d4 [|dot [|d5 [|d6 [|d7 [|d8 rest]]]]]]]]];
    try discriminate.
  intros H. splitAnds.
  match goal with
  | Hdot : Ascii.eqb dot _ = true |- _ => apply Ascii.eqb_eq in Hdot; subst dot
  end.
  assert (Hd : forall c, isDigit c = true -> digitOrDot c = true)
    by (intros c Hc; unfold digitOrDot; now rewrite Hc).
  cbn [allBytes]. replace (digitOrDot ".") with true by reflexivity.
  rewrite !Hd by assumption. cbn [andb].
  destruct rest as [|d9 [|? ?]]; try discriminate; [reflexivity|].
  cbn [allBytes]. now rewrite Hd.
Qed.

Lemma digitOrDot_idChar (c : ascii) : digitOrDot c = true -> idChar c = true.
Proof.
  unfold digitOrDot, idChar. intros H. apply orb_prop in H as [-> | ->];
    [reflexivity|]. now rewrite !orb_true_r.
Qed.

Lemma isNewId_chars (id : string) : isNewId id = true -> allBytes idChar id = true.
Proof.
  intros H. apply (allBytes_impl digitOrDot idChar); [exact digitOrDot_idChar|].
  now apply isNewId_digits.
Qed.

Lemma isOldTail_chars (s : string) : isOldTail s = true -> allBytes idChar s = true.
Proof.
  induction s as [|c rest IH]; [discriminate|].
  cbn [isOldTail allBytes].
  destruct (Ascii.eqb_spec c "/"%char) as [->|_].
  - intros H. apply andb_prop in H as [_ Hd].
    replace (idChar "/") with true by reflexivity. cbn [andb].
    apply (allBytes_impl isDigit idChar); [exact digit_idChar|exact Hd].
  - intros H. apply andb_prop in H as [Hc Hrest].
    unfold idChar at 1. rewrite Hc, orb_true_r. cbn [orb andb]. now apply IH.
Qed.

Lemma isOldId_chars (id : string) : isOldId id = true -> allBytes idChar id = true.
Proof.
  destruct id as [|c rest]; [discriminate|]. cbn [isOldId allBytes].
  intros H. apply andb_prop in H as [Hc Hrest].
  unfold idChar at 1. rewrite Hc, orb_true_r. cbn [orb andb].
  now apply isOldTail_chars.
Qed.

(** *** The version suffix *)

Definition notV (c : ascii) : bool := negb (Ascii.eqb c "v"%char).

Lemma version_prev (p q : option ascii) (s : string)
  (k : option ascii -> string -> option string) :
  exec version p s k = exec version q s k.
Proof.
  reflexivity.
Qed.

Lemma dropVersion_keeps (s : string) :
  allBytes notV s = true -> forall prev, dropVersion prev s = s.
Proof.
  induction s as [|c rest IH]; intros H prev; [reflexivity|].
  cbn [allBytes] in H. apply andb_prop in H as [Hc Hrest].
  cbn [dropVersion]. unfold version at 1, chr. cbn [exec byteClass].
  unfold notV in Hc. apply negb_true_iff in Hc. rewrite Ascii.eqb_sym, Hc.
  now rewrite (IH Hrest).
Qed.

Lemma dropVersion_cut (core rest out : string) (p : option ascii) :
  allBytes notV core = true ->
  exec version p rest atEnd = Some out ->
  forall prev, dropVersion prev (core ++ rest) = core.
Proof.
  intros Hcore Hrest. induction core as [|c core IH]; intros prev.
  - cbn [append]. destruct rest as [|r rest'].
    + discriminate Hrest.
    + cbn [dropVersion]. now rewrite (version_prev prev p), Hrest.
  - cbn [allBytes] in Hcore. apply andb_prop in Hcore as [Hc Hcore].
    cbn [append dropVersion]. unfold version at 1, chr. cbn [exec byteClass].
    unfold notV in Hc. apply negb_true_iff in Hc. rewrite Ascii.eqb_sym, Hc.
    now rewrite (IH Hcore).
Qed.

Lemma digitOrDot_notV (c : ascii) : digitOrDot c = true -> notV c = true.
Proof.
  unfold notV. intros H. apply negb_true_iff.
  destruct (Ascii.eqb_spec c "v"%char) as [->|_]; [discriminate H|reflexivity].
Qed.

(** *** The direct form *)

Lemma direct_sound (input : string) :
  matchesWhole direct input = true ->
  exists core, isNewId core = true /\ dropVersion None input = core.
Proof.
  unfold matchesWhole, direct. cbn [exec].
  destruct (exec idCore None input
              (fun prev' s' => exec (opt version) prev' s' atEnd)) as [out|] eqn:Hexec;
    [|discriminate].
  intros _. apply idCore_sound in Hexec as [core [rest [p [-> [Hcore Hk]]]]].
  exists core. split; [exact Hcore|].
  pose proof (allBytes_impl _ _ _ digitOrDot_notV (isNewId_digits _ Hcore)) as HnoV.
  unfold opt in Hk. cbn [exec] in Hk.
  destruct (exec version p rest atEnd) as [out'|] eqn:Hversion.
  - exact (dropVersion_cut core rest out' p HnoV Hversion None).
  - change (exec (seqs []) p rest atEnd) with (exec nothing p rest atEnd) in Hk.
    rewrite exec_nothing in Hk. unfold atEnd in Hk.
    destruct (String.eqb_spec rest "") as [->|_]; [|discriminate Hk].
    rewrite append_empty_r. now apply dropVersion_keeps.
Qed.

Lemma direct_complete (id : string) :
  isNewId id = true -> matchesWhole direct id = true.
Proof.
  unfold isNewId.
  destruct id as [|d1 [|d2 [|d3 [|d4 [|dot [|d5 [|d6 [|d7 [|d8 rest]]]]]]]]];
    try discriminate.
  intros H. splitAnds.
  match goal with
  | Hdot : Ascii.eqb dot _ = true |- _ => apply Ascii.eqb_eq in Hdot; subst dot
  end.
  unfold matchesWhole, direct, idCore, digit, digits, chr, opt, version, nothing.
  cbn [seqs exec byteClass Ascii.eqb Bool.eqb].
  repeat match goal with
         | Hd : isDigit ?d = true |- context [isDigit ?d] =>
             rewrite Hd; cbn [seqs exec byteClass Ascii.eqb Bool.eqb]
         end.
  destruct rest as [|d9 [|? ?]]; try discriminate.
  - reflexivity.
  - cbn [byteClass]. match goal with Hd : isDigit d9 = true |- _ => rewrite Hd end.
    reflexivity.
Qed.

(** *** The forms with a prefix *)

Lemma tame_nothing : Tame nothing.
Proof.
  unfold nothing. cbn [seqs]. constructor.
Qed.

Lemma tame_literal_i (s : string) : Tame (literal_i s).
Proof.
  induction s as [|c rest IH]; cbn [literal_i]; [exact tame_nothing|].
  destruct rest; [constructor; apply shrinks_byteClass|].
  constructor; [constructor; apply shrinks_byteClass|exact IH].
Qed.

Lemma tame_version_i : Tame (opt version_i).
Proof.
  unfold opt, version_i. constructor; [|exact tame_nothing].
  constructor; [apply tame_literal_i|constructor; apply shrinks_byteClass].
Qed.

Lemma groupAt_newId (prefix suffix : re) (prev : option ascii) (s g : string) :
  Tame prefix -> Tame suffix ->
  groupAt prefix idCore suffix prev s = Some g -> isNewId g = true.
Proof.
  intros Hprefix Hsuffix. unfold groupAt. intros H.
  destruct (exec_consumes prefix Hprefix _ _ _ _ H) as [p1 [s1 [H1 _]]].
  apply idCore_sound in H1 as [core [rest [p [-> [Hcore H2]]]]].
  destruct (exec_consumes suffix Hsuffix _ _ _ _ H2) as [p3 [s3 [H3 _]]].
  injection H3 as <-.
  rewrite length_app, Nat.add_sub, take_app_exact. exact Hcore.
Qed.

Lemma firstGroup_newId (prefix suffix : re) (s : string) :
  Tame prefix -> Tame suffix ->
  forall prev g,
    firstGroup prefix idCore suffix prev s = Some g -> isNewId g = true.
Proof.
  intros Hprefix Hsuffix. induction s as [|c rest IH]; intros prev g; cbn [firstGroup].
  - destruct (groupAt prefix idCore suffix prev "") as [g'|] eqn:Hg; [|discriminate].
    intros H. injection H as <-. exact (groupAt_newId _ _ _ _ _ Hprefix Hsuffix Hg).
  - destruct (groupAt prefix idCore suffix prev (String c rest)) as [g'|] eqn:Hg.
    + intros H. injection H as <-. exact (groupAt_newId _ _ _ _ _ Hprefix Hsuffix Hg).
    + apply IH.
Qed.

(** *** The old form *)

Lemma isOldTail_app (name number : string) :
  allBytes lowerOrHyphen name = true ->
  String.length number = 7 -> allBytes isDigit number = true ->
  isOldTail (name ++ String "/" number) = true.
Proof.
  intros Hname Hlen Hnumber. induction name as [|c name IH].
  - cbn [append isOldTail Ascii.eqb Bool.eqb]. rewrite Hlen, Hnumber. reflexivity.
  - cbn [allBytes] in Hname. apply andb_prop in Hname as [Hc Hname].
    cbn [append isOldTail].
    destruct (Ascii.eqb_spec c "/"%char) as [->|_]; [discriminate Hc|].
    now rewrite Hc, (IH Hname).
Qed.

Lemma isOldTail_split (s : string) :
  isOldTail s = true ->
  exists name number,
    s = name ++ String "/" number
    /\ allBytes lowerOrHyphen name = true
    /\ String.length number = 7 /\ allBytes isDigit number = true.
Proof.
  induction s as [|c rest IH]; [discriminate|]. cbn [isOldTail].
  destruct (Ascii.eqb_spec c "/"%char) as [->|_].
  - intros H. apply andb_prop in H as [Hlen Hd]. apply Nat.eqb_eq in Hlen.
    now exists "", rest.
  - intros H. apply andb_prop in H as [Hc Hrest].
    destruct (IH Hrest) as [name [number [-> [Hname [Hlen Hd]]]]].
    exists (String c name), number. cbn [append allBytes]. now rewrite Hc, Hname.
Qed.

Lemma oldFormat_sound (input : string) :
  matchesWhole oldFormat input = true -> isOldId input = true.
Proof.
  unfold matchesWhole, oldFormat. cbn [seqs].
  destruct (exec _ None input atEnd) as [out|] eqn:Hexec; [|discriminate].
  intros _. cbn [exec] in Hexec.
  destruct input as [|b rest]; [discriminate Hexec|]. cbn [byteClass] in Hexec.
  fold (lowerOrHyphen b) in Hexec.
  destruct (lowerOrHyphen b) eqn:Hb; [|discriminate Hexec].
  destruct (firstSuccess_found _ _ _ Hexec) as [[q r] [Hin Hk]].
  destruct (runs_byteClass_in _ _ _ _ _ _ Hin) as [m [-> Hm]].
  cbn [fst snd] in Hk.
  apply chr_step in Hk as [r1 [-> Hk]].
  apply digit_step in Hk as [d1 [r2 [-> [H1 Hk]]]].
  apply digit_step in Hk as [d2 [r3 [-> [H2 Hk]]]].
  apply digit_step in Hk as [d3 [r4 [-> [H3 Hk]]]].
  apply digit_step in Hk as [d4 [r5 [-> [H4 Hk]]]].
  apply digit_step in Hk as [d5 [r6 [-> [H5 Hk]]]].
  apply digit_step in Hk as [d6 [r7 [-> [H6 Hk]]]].
  apply digit_step in Hk as [d7 [r8 [-> [H7 Hk]]]].
  unfold atEnd in Hk.
  destruct (String.eqb_spec r8 "") as [->|_]; [|discriminate Hk].
  cbn [isOldId]. rewrite Hb. cbn [andb].
  apply isOldTail_app; [exact Hm|reflexivity|].
  cbn [allBytes]. now rewrite H1, H2, H3, H4, H5, H6, H7.
Qed.

Lemma oldFormat_complete (input : string) :
  isOldId input = true -> matchesWhole oldFormat input = true.
Proof.
  destruct input as [|b rest]; [discriminate|]. cbn [isOldId].
  intros H. apply andb_prop in H as [Hb Htail].
  destruct (isOldTail_split _ Htail) as [name [number [-> [Hname [Hlen Hd]]]]].
  unfold matchesWhole, oldFormat. cbn [seqs exec byteClass].
  fold (lowerOrHyphen b). rewrite Hb.
  destruct (runs_byteClass_head (fun c => inRange 97 122 c || Ascii.eqb c "-"%char)
              name (String "/" number) Hname eq_refl
              (String.length (name ++ String "/" number)) (Some b))
    as [q [tail Hruns]].
  { rewrite length_app. lia. }
  rewrite Hruns. cbn [firstSuccess fst snd].
  destruct number as [|d1 [|d2 [|d3 [|d4 [|d5 [|d6 [|d7 [|? ?]]]]]]]];
    try discriminate Hlen.
  cbn [allBytes] in Hd. splitAnds.
  unfold chr, digit, digits. cbn [exec byteClass Ascii.eqb Bool.eqb].
  repeat match goal with
         | Hx : isDigit ?d = true |- context [isDigit ?d] =>
             rewrite Hx; cbn [exec byteClass]
         end.
  reflexivity.
Qed.

(** *** Where the forms with a prefix cannot match *)

Lemma one_step (p : ascii -> bool) (prev : option ascii) (s : string)
  (k : option ascii -> string -> option string) (out : string) :
  exec (One (byteClass p)) prev s k = Some out ->
  exists c rest, s = String c rest /\ p c = true /\ k (Some c) rest = Some out.
Proof.
  cbn [exec]. destruct s as [|c rest]; [discriminate|].
  cbn [byteClass]. destruct (p c) eqn:Hc; [|discriminate].
  intros H. now exists c, rest.
Qed.

(** Both prefixes are five letters and a punctuation mark. *)
Lemma prefix_mark (word : string) (mark : ascii) (more : string)
  (prev : option ascii) (s : string)
  (k : option ascii -> string -> option string) (out : string) :
  String.length word = 5 ->
  isLetter mark = false ->
  exec (literal_i (word ++ String mark more)) prev s k = Some out ->
  String.get 5 s = Some mark.
Proof.
  intros Hlen Hmark.
  destruct word as [|w1 [|w2 [|w3 [|w4 [|w5 [|? ?]]]]]]; try discriminate Hlen.
  cbn [append literal_i]. intros H.
  assert (Hstep : exists prev' k' s5 c1 c2 c3 c4 c5,
            s = String c1 (String c2 (String c3 (String c4 (String c5 s5))))
            /\ exec (One (byteClass (sameLetter mark))) prev' s5 k' = Some out).
  { destruct more as [|m more'].
    - cbn [exec] in H.
      destruct s as [|c1 s]; [discriminate H|]. cbn [byteClass] in H.
      destruct (sameLetter w1 c1); [|discriminate H].
      destruct s as [|c2 s]; [discriminate H|]. cbn [byteClass] in H.
      destruct (sameLetter w2 c2); [|discriminate H].
      destruct s as [|c3 s]; [discriminate H|]. cbn [byteClass] in H.
      destruct (sameLetter w3 c3); [|discriminate H].
      destruct s as [|c4 s]; [discriminate H|]. cbn [byteClass] in H.
      destruct (sameLetter w4 c4); [|discriminate H].
      destruct s as [|c5 s]; [discriminate H|]. cbn [byteClass] in H.
      destruct (sameLetter w5 c5); [|discriminate H].
      exists (Some c5), k, s, c1, c2, c3, c4, c5. split; [reflexivity|exact H].
    - cbn [exec] in H.
      destruct s as [|c1 s]; [discriminate H|]. cbn [byteClass] in H.
      destruct (sameLetter w1 c1); [|discriminate H].
      destruct s as [|c2 s]; [discriminate H|]. cbn [byteClass] in H.
      destruct (sameLetter w2 c2); [|discriminate H].
      destruct s as [|c3 s]; [discriminate H|]. cbn [byteClass] in H.
      destruct (sameLetter w3 c3); [|discriminate H].
      destruct s as [|c4 s]; [discriminate H|]. cbn [byteClass] in H.
      destruct (sameLetter w4 c4); [|discriminate H].
      destruct s as [|c5 s]; [discriminate H|]. cbn [byteClass] in H.
      destruct (sameLetter w5 c5); [|discriminate H].
      exists (Some c5), (fun p' s' => exec (literal_i (String m more')) p' s' k),
        s, c1, c2, c3, c4, c5.
      split; [reflexivity|exact H]. }
  destruct Hstep as [prev' [k' [s5 [c1 [c2 [c3 [c4 [c5 [-> Hone]]]]]]]]].
  apply one_step in Hone as [c [rest [-> [Hc _]]]].
  cbn [String.get]. f_equal.
  unfold sameLetter in Hc. unfold isLetter in Hmark.
  apply orb_false_elim in Hmark as [Hlower Hupper].
  rewrite Hlower, Hupper in Hc. cbn [andb] in Hc. rewrite !orb_false_r in Hc.
  now apply Ascii.eqb_eq in Hc.
Qed.

Lemma allBytes_get (p : ascii -> bool) (s : string) (i : nat) (c : ascii) :
  allBytes p s = true -> String.get i s = Some c -> p c = true.
Proof.
  revert i. induction s as [|d rest IH]; intros i H Hget; [destruct i; discriminate|].
  cbn [allBytes] in H. apply andb_prop in H as [Hd Hrest].
  destruct i as [|i]; cbn [String.get] in Hget.
  - now injection Hget as <-.
  - exact (IH i Hrest Hget).
Qed.

Lemma firstGroup_none (word : string) (mark : ascii) (more : string)
  (group suffix : re) (p : ascii -> bool) (s : string) :
  String.length word = 5 -> isLetter mark = false -> p mark = false ->
  allBytes p s = true ->
  forall prev,
    firstGroup (literal_i (word ++ String mark more)) group suffix prev s = None.
Proof.
  intros Hlen Hmark Hp. induction s as [|c rest IH]; intros Hs prev; cbn [firstGroup].
  - destruct (groupAt _ group suffix prev "") as [g|] eqn:Hg; [|reflexivity].
    unfold groupAt in Hg.
    pose proof (prefix_mark word mark more _ _ _ _ Hlen Hmark Hg) as Hget.
    discriminate Hget.
  - destruct (groupAt _ group suffix prev (String c rest)) as [g|] eqn:Hg.
    + unfold groupAt in Hg.
      pose proof (prefix_mark word mark more _ _ _ _ Hlen Hmark Hg) as Hget.
      pose proof (allBytes_get p _ _ _ Hs Hget). congruence.
    + apply IH. cbn [allBytes] in Hs. now apply andb_prop in Hs as [_ Hrest].
Qed.

(** The characters of an old identifier. *)
Definition oldChar (c : ascii) : bool :=
  isDigit c || lowerOrHyphen c || Ascii.eqb c "/"%char.

Lemma isOldId_oldChars (id : string) : isOldId id = true -> allBytes oldChar id = true.
Proof.
  destruct id as [|b rest]; [discriminate|]. cbn [isOldId].
  intros H. apply andb_prop in H as [Hb Htail].
  destruct (isOldTail_split _ Htail) as [name [number [-> [Hname [_ Hd]]]]].
  cbn [allBytes]. unfold oldChar at 1. rewrite Hb, orb_true_r. cbn [orb andb].
  rewrite allBytes_app. cbn [allBytes]. replace (oldChar "/") with true by reflexivity.
  rewrite (allBytes_impl lowerOrHyphen oldChar name), (allBytes_impl isDigit oldChar number);
    try assumption; try reflexivity.
  - intros c Hc. unfold oldChar. now rewrite Hc.
  - intros c Hc. unfold oldChar. now rewrite Hc, orb_true_r.
Qed.

Lemma oldChar_idChar (c : ascii) : oldChar c = true -> idChar c = true.
Proof.
  unfold oldChar, idChar. intros H.
  apply orb_prop in H as [H|H]; [apply orb_prop in H as [-> | ->]|rewrite H];
    try reflexivity; now rewrite ?orb_true_r.
Qed.

(** X16: the two readers of paper identifiers, [extractArxivId] of the
    paper importer and [extractPaperId] of the AlphaXiv service.  What
    [extractArxivId] returns is always an identifier: four digits, a dot and
    four or five digits, without a version suffix, or, in the old form,
    lower-case letters and hyphens, a slash and seven digits.  Whatever
    [extractPaperId] returns, [extractArxivId] returns too, and it is of the
    first kind.  Both functions return an identifier of the first kind as
    it is; an identifier of the old form is returned by [extractArxivId]
    and refused by [extractPaperId]. *)
Theorem X16_paper_identifiers (input : string) :
  (forall id, extractArxivId input = Some id ->
              isNewId id = true \/ isOldId id = true)
  /\ (forall id, extractPaperId input = Some id ->
                 isNewId id = true /\ extractArxivId input = Some id)
  /\ (isNewId input = true ->
      extractArxivId input = Some input /\ extractPaperId input = Some input)
  /\ (isOldId input = true ->
      extractArxivId input = Some input /\ extractPaperId input = None).
Proof.
  split; [|split; [|split]].
  - intros id. unfold extractArxivId. cbv zeta.
    destruct (matchesWhole direct (trim input)) eqn:Hdirect.
    { intros H. injection H as <-.
      destruct (direct_sound _ Hdirect) as [core [Hcore ->]]. now left. }
    unfold urlMatch, arxivMatch.
    destruct (firstGroup (literal_i "arxiv.org/abs/") idCore (opt version_i) None
                (trim input)) as [g|] eqn:Hurl.
    { intros H. injection H as <-. left.
      exact (firstGroup_newId _ _ _ (tame_literal_i _) tame_version_i _ _ Hurl). }
    destruct (firstGroup (literal_i "arxiv:") idCore (opt version_i) None
                (trim input)) as [g|] eqn:Harxiv.
    { intros H. injection H as <-. left.
      exact (firstGroup_newId _ _ _ (tame_literal_i _) tame_version_i _ _ Harxiv). }
    destruct (matchesWhole oldFormat (trim input)) eqn:Hold; [|discriminate].
    intros H. injection H as <-. right. now apply oldFormat_sound.
  - intros id. unfold extractPaperId, extractArxivId. cbv zeta.
    destruct (matchesWhole direct (trim input)) eqn:Hdirect.
    { intros H. split; [|exact H]. injection H as <-.
      now destruct (direct_sound _ Hdirect) as [core [Hcore ->]]. }
    unfold urlMatch, arxivMatch.
    destruct (firstGroup (literal_i "arxiv.org/abs/") idCore (opt version_i) None
                (trim input)) as [g|] eqn:Hurl.
    { intros H. split; [|exact H]. injection H as <-.
      exact (firstGroup_newId _ _ _ (tame_literal_i _) tame_version_i _ _ Hurl). }
    destruct (firstGroup (literal_i "arxiv:") idCore (opt version_i) None
                (trim input)) as [g|] eqn:Harxiv; [|discriminate].
    intros H. split; [|exact H]. injection H as <-.
    exact (firstGroup_newId _ _ _ (tame_literal_i _) tame_version_i _ _ Harxiv).
  - intros Hnew.
    pose proof (allBytes_impl _ _ _ idChar_plain (isNewId_chars _ Hnew)) as Hplain.
    pose proof (allBytes_impl _ _ _ digitOrDot_notV (isNewId_digits _ Hnew)) as HnoV.
    unfold extractArxivId, extractPaperId. cbv zeta.
    rewrite (trim_plain _ Hplain), (direct_complete _ Hnew),
      (dropVersion_keeps _ HnoV). now split.
  - intros Hold.
    pose proof (isOldId_oldChars _ Hold) as Hchars.
    pose proof (allBytes_impl _ _ _ idChar_plain
                  (allBytes_impl _ _ _ oldChar_idChar Hchars)) as Hplain.
    unfold extractArxivId, extractPaperId. cbv zeta.
    rewrite (trim_plain _ Hplain).
    assert (Hdirect : matchesWhole direct input = false).
    { destruct (matchesWhole direct input) eqn:Hd; [|reflexivity]. exfalso.
      unfold matchesWhole, direct in Hd. cbn [exec] in Hd.
      destruct (exec idCore None input _) as [out|] eqn:Hexec; [|discriminate Hd].
      unfold idCore in Hexec. cbn [seqs exec] in Hexec.
      apply digit_step in Hexec as [d [rest [-> [Hdigit _]]]].
      cbn [isOldId] in Hold. apply andb_prop in Hold as [Hletter _].
      pose proof (digit_range _ Hdigit). pose proof (lowerOrHyphen_range _ Hletter).
      lia. }
    rewrite Hdirect. unfold urlMatch, arxivMatch.
    assert (Hurl : firstGroup (literal_i "arxiv.org/abs/") idCore (opt version_i)
                     None input = None)
      by exact (firstGroup_none "arxiv" "." "org/abs/" idCore (opt version_i) oldChar
                  input eq_refl eq_refl eq_refl Hchars None).
    assert (Harxiv : firstGroup (literal_i "arxiv:") idCore (opt version_i)
                       None input = None)
      by exact (firstGroup_none "arxiv" ":" "" idCore (opt version_i) oldChar
                  input eq_refl eq_refl eq_refl Hchars None).
    rewrite Hurl, Harxiv, (oldFormat_complete _ Hold). now split.
Qed.

End PaperIdentifiers.

Lemma X16_witness :
  PaperIds.extractArxivId "1706.03762" = Some "1706.03762"
  /\ PaperIds.extractPaperId "1706.03762" = Some "1706.03762"
  /\ PaperIds.extractArxivId "hep-th/9901001" = Some "hep-th/9901001"
  /\ PaperIds.extractPaperId "hep-th/9901001" = None.
Proof.
  split; [|split; [|split]].
  - exact (proj1 (proj1 (proj2 (proj2 (X16_paper_identifiers "1706.03762"))) eq_refl)).
  - exact (proj2 (proj1 (proj2 (proj2 (X16_paper_identifiers "1706.03762"))) eq_refl)).
  - exact (proj1 (proj2 (proj2 (proj2 (X16_paper_identifiers "hep-th/9901001"))) eq_refl)).
  - exact (proj2 (proj2 (proj2 (proj2 (X16_paper_identifiers "hep-th/9901001"))) eq_refl)).
Defined.

(* ===================================================================== *)
(** * Names of the notes the plugin creates *)
(* ===================================================================== *)

(** ** src/services/ExplainManager.ts, "Create New Note" *)

Module ExplainManager.
Import Regex Text.

Definition titleChar (c : ascii) : bool :=
  isLetter c || isDigit c || Ascii.eqb c " "%char.

(** The pattern of everything that is not a letter, a digit or a space. *)
Definition notTitleChar : re := One (byteClass (fun c => negb (titleChar c))).

(** The title of the new note: the first line that is not blank, without
    the characters of [notTitleChar], trimmed; "New Note" when there is no
    such line or nothing is left of it. *)
Definition noteTitle (explanationRaw : string) : string :=
  match find (fun l => negb (trim l =? "")) (split_nl explanationRaw) with
  | Some l =>
      let firstLine := trim (replaceAll notTitleChar (fun _ => "") l) in
      if firstLine =? "" then "New Note" else firstLine
  | None => "New Note"
  end.

Definition fileName (explanationRaw : string) : string :=
  noteTitle explanationRaw ++ ".md".

End ExplainManager.

Section ReplaceOne.
Import Regex.

(** A pass of [replace] with a pattern of one class of single bytes: every
    byte of the class is replaced, every other byte is kept. *)
Fixpoint substEach (p : ascii -> bool) (f : string -> string) (s : string) : string :=
  match s with
  | "" => ""
  | String c rest =>
      (if p c then f (String c "") else String c "") ++ substEach p f rest
  end.

Lemma matchAt_one (p : ascii -> bool) (prev : option ascii) (c : ascii) (rest : string) :
  matchAt (One (byteClass p)) prev (String c rest) = if p c then Some 1 else None.
Proof.
  unfold matchAt. cbn [exec byteClass]. destruct (p c); [|reflexivity].
  f_equal. cbn [String.length]. lia.
Qed.

Lemma replaceFrom_one (p : ascii -> bool) (f : string -> string) (fuel : nat) :
  forall prev s,
    String.length s < fuel ->
    replaceFrom fuel (One (byteClass p)) f prev s = substEach p f s.
Proof.
  induction fuel as [|fuel IH]; intros prev s Hfuel; [lia|].
  cbn [replaceFrom]. destruct s as [|c rest].
  - reflexivity.
  - rewrite matchAt_one. cbn [substEach]. cbn [String.length] in Hfuel.
    destruct (p c).
    + cbn [take slice_from]. rewrite IH by lia. reflexivity.
    + rewrite IH by lia. reflexivity.
Qed.

Lemma replaceAll_one (p : ascii -> bool) (f : string -> string) (s : string) :
  replaceAll (One (byteClass p)) f s = substEach p f s.
Proof.
  unfold replaceAll. apply replaceFrom_one. lia.
Qed.

Lemma substEach_removed (p : ascii -> bool) (s : string) :
  allBytes (fun c => negb (p c)) (substEach p (fun _ => "") s) = true.
Proof.
  induction s as [|c rest IH]; [reflexivity|].
  cbn [substEach]. destruct (p c) eqn:Hc; cbn [append allBytes]; [exact IH|].
  now rewrite Hc, IH.
Qed.

Lemma substEach_clean (p : ascii -> bool) (f : string -> string) (s : string) :
  allBytes (fun c => negb (p c)) s = true -> substEach p f s = s.
Proof.
  induction s as [|c rest IH]; [reflexivity|].
  cbn [allBytes substEach]. intros H. apply andb_prop in H as [Hc Hrest].
  apply negb_true_iff in Hc. rewrite Hc, (IH Hrest). reflexivity.
Qed.

End ReplaceOne.

Section ExplanationTitle.
Import Regex Text ExplainManager.

Definition endsWithSpace (s : string) : bool :=
  match s with
  | "" => false
  | String c rest => Ascii.eqb (lastByte c rest) " "%char
  end.

(** A clean title: letters, digits and spaces only, not empty, no space at
    either end. *)
Definition cleanTitle (t : string) : bool :=
  allBytes titleChar t && negb (t =? "")
  && negb (startsWith " " t) && negb (endsWithSpace t).

Lemma titleChar_plain (c : ascii) :
  titleChar c = true -> Ascii.eqb c " "%char = false -> plain c = true.
Proof.
  unfold titleChar, plain, isLetter, isDigit, inRange. intros H Hc.
  rewrite Hc, orb_false_r in H.
  assert (Hrange : 33 <= code c <= 126).
  { apply orb_prop in H as [H|H]; [apply orb_prop in H as [H|H]|];
      apply andb_prop in H as [Hlo Hhi]; apply Nat.leb_le in Hlo, Hhi; lia. }
  apply andb_true_intro. split; apply Nat.leb_le; lia.
Qed.

Lemma whitespace_space (rest : string) :
  whitespace (String " " rest) = Some (" "%char, rest).
Proof.
  reflexivity.
Qed.

Lemma dropWhitespace_title (u : string) :
  allBytes titleChar u = true ->
  forall fuel, String.length u <= fuel ->
    allBytes titleChar (dropWhitespace fuel u) = true
    /\ startsWith " " (dropWhitespace fuel u) = false.
Proof.
  induction u as [|c rest IH]; intros Hu fuel Hfuel.
  - destruct fuel; cbn; now split.
  - cbn [allBytes] in Hu. apply andb_prop in Hu as [Hc Hrest].
    destruct fuel as [|fuel]; [cbn in Hfuel; lia|]. cbn [dropWhitespace].
    destruct (Ascii.eqb_spec c " "%char) as [->|Hne].
    + rewrite whitespace_space. apply IH; [exact Hrest|cbn in Hfuel; lia].
    + assert (Hc' : Ascii.eqb c " "%char = false) by now apply Ascii.eqb_neq.
      rewrite (whitespace_plain c rest (titleChar_plain c Hc Hc')).
      cbn [allBytes startsWith]. rewrite Hc, Hrest, Ascii.eqb_sym, Hc'. now split.
Qed.

Lemma isBlank_space (rest : string) : isBlank (String " " rest) = isBlank rest.
Proof.
  reflexivity.
Qed.

Lemma isBlank_title (c : ascii) (rest : string) :
  titleChar c = true -> Ascii.eqb c " "%char = false ->
  isBlank (String c rest) = false.
Proof.
  intros Hc Hne. unfold isBlank.
  now rewrite (trimStart_plain c rest (titleChar_plain c Hc Hne)).
Qed.

Lemma trimEnd_empty (s : string) : trimEnd s = "" -> s = "" \/ isBlank s = true.
Proof.
  destruct s as [|c rest]; [now left|]. cbn [trimEnd].
  destruct (isBlank (String c rest)); [now right|discriminate].
Qed.

Lemma trimEnd_title (u : string) :
  allBytes titleChar u = true ->
  allBytes titleChar (trimEnd u) = true
  /\ startsWith " " (trimEnd u) = startsWith " " u && negb (isBlank u) 
  /\ endsWithSpace (trimEnd u) = false.
Proof.
  induction u as [|c rest IH]; intros Hu; [now cbn|].
  cbn [allBytes] in Hu. apply andb_prop in Hu as [Hc Hrest].
  destruct (IH Hrest) as [IHchars [_ IHend]].
  cbn [trimEnd]. destruct (isBlank (String c rest)) eqn:Hblank.
  - cbn. rewrite andb_false_r. now split.
  - cbn [allBytes startsWith]. rewrite Hc, IHchars, andb_true_r.
    split; [reflexivity|]. split; [now destruct (Ascii.eqb " " c)|].
    cbn [endsWithSpace].
    destruct (trimEnd rest) as [|d rest'] eqn:Htrim.
    + cbn [lastByte].
      destruct (Ascii.eqb_spec c " "%char) as [->|Hne]; [|reflexivity].
      rewrite isBlank_space in Hblank.
      destruct (trimEnd_empty _ Htrim) as [->|Hb]; [discriminate Hblank|congruence].
    + cbn [lastByte]. exact IHend.
Qed.

Lemma trim_title (u : string) :
  allBytes titleChar u = true ->
  allBytes titleChar (trim u) = true
  /\ startsWith " " (trim u) = false
  /\ endsWithSpace (trim u) = false.
Proof.
  intros Hu. unfold trim, trimStart.
  destruct (dropWhitespace_title u Hu (String.length u) (le_n _)) as [Hchars Hstart].
  destruct (trimEnd_title _ Hchars) as [H1 [H2 H3]].
  split; [exact H1|]. split; [|exact H3]. now rewrite H2, Hstart.
Qed.

Lemma titleChar_kept (l : string) :
  allBytes titleChar (replaceAll notTitleChar (fun _ => "") l) = true.
Proof.
  unfold notTitleChar. rewrite replaceAll_one.
  pose proof (substEach_removed (fun c => negb (titleChar c)) l) as H.
  eapply allBytes_impl; [|exact H].
  intros c Hc. cbv beta in Hc. now rewrite negb_involutive in Hc.
Qed.

Lemma endsWithSpace_tail (c d : ascii) (rest : string) :
  endsWithSpace (String c (String d rest)) = endsWithSpace (String d rest).
Proof.
  reflexivity.
Qed.

Lemma title_not_blank (u : string) :
  allBytes titleChar u = true -> u <> "" -> endsWithSpace u = false ->
  isBlank u = false.
Proof.
  induction u as [|c rest IH]; intros Hu Hne Hend; [contradiction|].
  cbn [allBytes] in Hu. apply andb_prop in Hu as [Hc Hrest].
  destruct (Ascii.eqb_spec c " "%char) as [->|Hnot].
  - rewrite isBlank_space. destruct rest as [|d rest']; [discriminate Hend|].
    apply IH; [exact Hrest|discriminate|].
    now rewrite endsWithSpace_tail in Hend.
  - apply isBlank_title; [exact Hc|now apply Ascii.eqb_neq].
Qed.

Lemma trimEnd_id (u : string) :
  allBytes titleChar u = true -> endsWithSpace u = false -> trimEnd u = u.
Proof.
  induction u as [|c rest IH]; intros Hu Hend; [reflexivity|].
  cbn [trimEnd]. rewrite (title_not_blank _ Hu ltac:(discriminate) Hend).
  cbn [allBytes] in Hu. apply andb_prop in Hu as [_ Hrest].
  f_equal. destruct rest as [|d rest']; [reflexivity|].
  apply IH; [exact Hrest|]. now rewrite endsWithSpace_tail in Hend.
Qed.

Lemma cleanTitle_parts (t : string) :
  cleanTitle t = true ->
  allBytes titleChar t = true /\ (t =? "") = false
  /\ startsWith " " t = false /\ endsWithSpace t = false.
Proof.
  unfold cleanTitle. intros H.
  apply andb_prop in H as [H Hend]. apply andb_prop in H as [H Hstart].
  apply andb_prop in H as [Hchars Hne].
  apply negb_true_iff in Hend, Hstart, Hne. now repeat split.
Qed.

Lemma cleanTitle_trim (t : string) : cleanTitle t = true -> trim t = t.
Proof.
  intros H. destruct (cleanTitle_parts t H) as [Hchars [Hne [Hstart Hend]]].
  destruct t as [|c rest]; [discriminate Hne|].
  pose proof Hchars as Hc. cbn [allBytes] in Hc. apply andb_prop in Hc as [Hc _].
  cbn [startsWith] in Hstart. rewrite andb_true_r, Ascii.eqb_sym in Hstart.
  unfold trim. rewrite (trimStart_plain c rest (titleChar_plain c Hc Hstart)).
  now apply trimEnd_id.
Qed.

Lemma split_lines_first (title rest cur : string) :
  allBytes (fun c => negb (Ascii.eqb c newline)) title = true ->
  split_lines cur (title ++ String newline rest) = (cur ++ title) :: split_lines "" rest.
Proof.
  revert cur. induction title as [|c title IH]; intros cur Htitle.
  - cbn [append split_lines]. change (Ascii.eqb newline newline) with true.
    cbn iota. now rewrite append_empty_r.
  - cbn [allBytes] in Htitle. apply andb_prop in Htitle as [Hc Htitle].
    apply negb_true_iff in Hc. cbn [append split_lines]. rewrite Hc.
    rewrite (IH _ Htitle). now rewrite append_assoc3.
Qed.

(** X17: the name of the note that "Create New Note" creates from an
    explanation.  Whatever the explanation, the title is never empty, is
    made of ASCII letters, digits and spaces only, and neither begins nor
    ends with a space, so the file name is the title followed by ".md"
    without any character a file system refuses.  An explanation whose
    first line is already such a title gets that line as its title. *)
Theorem X17_explanation_note_title (explanationRaw : string) :
  cleanTitle (noteTitle explanationRaw) = true
  /\ fileName explanationRaw = noteTitle explanationRaw ++ ".md"
  /\ (forall title rest,
        cleanTitle title = true ->
        explanationRaw = title ++ String newline rest ->
        noteTitle explanationRaw = title).
Proof.
  split; [|split; [reflexivity|]].
  - unfold noteTitle.
    destruct (find _ (split_nl explanationRaw)) as [l|]; [|reflexivity].
    cbv zeta.
    destruct (trim_title _ (titleChar_kept l)) as [Hchars [Hstart Hend]].
    destruct (String.eqb_spec (trim (replaceAll notTitleChar (fun _ => "") l)) "")
      as [_|Hne]; [reflexivity|].
    unfold cleanTitle. rewrite Hchars, Hstart, Hend.
    apply String.eqb_neq in Hne. now rewrite Hne.
  - intros title rest Hclean ->.
    pose proof (cleanTitle_trim _ Hclean) as Htrim.
    destruct (cleanTitle_parts title Hclean) as [Hchars [Hne _]].
    assert (Hline : allBytes (fun c => negb (Ascii.eqb c newline)) title = true).
    { eapply allBytes_impl; [|exact Hchars].
      intros c Hc. apply negb_true_iff.
      destruct (Ascii.eqb_spec c newline) as [->|_]; [discriminate Hc|reflexivity]. }
    unfold noteTitle, split_nl. rewrite (split_lines_first title rest "" Hline).
    cbn [append find]. rewrite Htrim, Hne. cbn [negb]. cbv zeta.
    unfold notTitleChar. rewrite replaceAll_one, substEach_clean.
    + now rewrite Htrim, Hne.
    + eapply allBytes_impl; [|exact Hchars].
      intros c Hc. cbv beta. now rewrite Hc.
Qed.

End ExplanationTitle.

Lemma X17_witness :
  ExplainManager.noteTitle ("## Euler's formula: e^(ix)" ++ String newline "It links...")
  = "Eulers formula eix"
  /\ ExplainManager.noteTitle ("Fourier series" ++ String newline "A periodic...")
     = "Fourier series".
Proof.
  split; [vm_compute; reflexivity|].
  exact (proj2 (proj2 (X17_explanation_note_title
                         ("Fourier series" ++ String newline "A periodic...")))
           "Fourier series" "A periodic..." eq_refl eq_refl).
Defined.

(** ** src/unnamed/part_000, the paper importer: file names *)

Module PaperImporter.
Import Regex Text.

(** The characters of the class in [safeName] and [safeTitle]: slash,
    backslash, question mark, percent, asterisk, colon, bar, double quote
    and the angle brackets. *)
Definition forbidden (c : ascii) : bool :=
  existsb (Ascii.eqb c)
    ["/"%char; MathUtils.backslash; "?"%char; "%"%char; "*"%char; ":"%char;
     "|"%char; ascii_of_nat 34; "<"%char; ">"%char].

(** [title.replace(forbidden, '-').replace(/\s+/g, ' ').trim()], as
    [downloadPDF], [createPaperNote] and the AlphaXiv note have it. *)
Definition sanitize (title : string) : string :=
  trim (replaceAll (Plus whitespace) (fun _ => " ")
          (replaceAll (One (byteClass forbidden)) (fun _ => "-") title)).

End PaperImporter.

Section SafeTitles.
Import Regex Text PaperImporter.

(** *** What [trim] and a pass of [replace] keep *)

Lemma allBytes_slice (p : ascii -> bool) (n : nat) (s : string) :
  allBytes p s = true -> allBytes p (slice_from n s) = true.
Proof.
  revert s. induction n as [|n IH]; intros s H; [exact H|].
  destruct s as [|c rest]; [reflexivity|]. cbn [slice_from].
  cbn [allBytes] in H. apply andb_prop in H as [_ Hrest]. now apply IH.
Qed.

Lemma oneOf_rest (p : ascii -> bool) (chars : list string) (s rest : string) (b : ascii) :
  oneOf chars s = Some (b, rest) -> allBytes p s = true -> allBytes p rest = true.
Proof.
  induction chars as [|ch more IH]; cbn [oneOf]; [discriminate|].
  destruct (startsWith ch s && negb (ch =? "")); [|exact IH].
  intros H Hs. injection H as _ <-. now apply allBytes_slice.
Qed.

Lemma whitespace_rest (p : ascii -> bool) (s rest : string) (b : ascii) :
  whitespace s = Some (b, rest) -> allBytes p s = true -> allBytes p rest = true.
Proof.
  unfold whitespace, orClass.
  destruct (byteClass _ s) as [[b' rest']|] eqn:Hbyte.
  - intros H Hs. injection H as _ <-.
    destruct s as [|c s']; [discriminate Hbyte|]. cbn [byteClass] in Hbyte.
    destruct (_ || _) in Hbyte; [|discriminate Hbyte]. injection Hbyte as _ <-.
    cbn [allBytes] in Hs. now apply andb_prop in Hs as [_ Hs].
  - apply oneOf_rest.
Qed.

Lemma dropWhitespace_keeps (p : ascii -> bool) (fuel : nat) (s : string) :
  allBytes p s = true -> allBytes p (dropWhitespace fuel s) = true.
Proof.
  revert s. induction fuel as [|fuel IH]; intros s H; [exact H|].
  cbn [dropWhitespace]. destruct (whitespace s) as [[b rest]|] eqn:Hws; [|exact H].
  apply IH. exact (whitespace_rest p s rest b Hws H).
Qed.

Lemma trimEnd_keeps (p : ascii -> bool) (s : string) :
  allBytes p s = true -> allBytes p (trimEnd s) = true.
Proof.
  induction s as [|c rest IH]; intros H; [reflexivity|].
  cbn [trimEnd]. destruct (isBlank (String c rest)); [reflexivity|].
  cbn [allBytes] in H |- *. apply andb_prop in H as [Hc Hrest].
  now rewrite Hc, (IH Hrest).
Qed.

Lemma trim_keeps (p : ascii -> bool) (s : string) :
  allBytes p s = true -> allBytes p (trim s) = true.
Proof.
  intros H. unfold trim, trimStart. now apply trimEnd_keeps, dropWhitespace_keeps.
Qed.

Lemma substEach_const (p q : ascii -> bool) (filler : ascii) (s : string) :
  q filler = true ->
  (forall c, p c = false -> q c = true) ->
  allBytes q (substEach p (fun _ => String filler "") s) = true.
Proof.
  intros Hfiller Hq. induction s as [|c rest IH]; [reflexivity|].
  cbn [substEach]. destruct (p c) eqn:Hc; cbn [append allBytes].
  - now rewrite Hfiller, IH.
  - now rewrite (Hq c Hc), IH.
Qed.

(** The pattern [\s+]. *)
Definition spaces : re := Plus whitespace.

Lemma spaces_tame : Tame spaces /\ eats spaces = true.
Proof.
  split; [|reflexivity]. constructor. exact shrinks_whitespace.
Qed.

Lemma spaces_none (prev : option ascii) (s : string) :
  matchAt spaces prev s = None -> whitespace s = None.
Proof.
  unfold matchAt, spaces. cbn [exec].
  destruct (whitespace s) as [[b rest]|]; [|reflexivity].
  destruct (runs (String.length rest) whitespace (Some b) rest) as [|st more] eqn:Hruns.
  - exfalso. destruct (String.length rest); cbn [runs] in Hruns.
    + discriminate Hruns.
    + destruct (whitespace rest) as [[b' rest']|].
      * destruct (String.length rest' <? String.length rest)%nat;
          [|discriminate Hruns].
        now destruct (runs n whitespace (Some b') rest').
      * discriminate Hruns.
  - cbn [firstSuccess]. discriminate.
Qed.

Lemma whitespace_none_head (q : ascii -> bool) (c : ascii) (rest : string) :
  (forall x, inRange 9 13 x || (code x =? 32)%nat = false -> q x = true) ->
  whitespace (String c rest) = None -> q c = true.
Proof.
  intros Hq. unfold whitespace, orClass. cbn [byteClass].
  destruct (inRange 9 13 c || (code c =? 32)%nat) eqn:Hc; [discriminate|].
  intros _. now apply Hq.
Qed.

(** A pass of [\s+ -> ' ']: what it copies does not begin a white-space
    character, what it writes is a space. *)
Lemma collapse_keeps (q : ascii -> bool) (fuel : nat) :
  q " "%char = true ->
  (forall x, inRange 9 13 x || (code x =? 32)%nat = false -> q x = true) ->
  forall prev s,
    String.length s < fuel ->
    allBytes q (replaceFrom fuel spaces (fun _ => " ") prev s) = true.
Proof.
  intros Hspace Hq. induction fuel as [|fuel IH]; intros prev s Hfuel; [lia|].
  cbn [replaceFrom]. destruct (matchAt spaces prev s) as [[|n]|] eqn:Hmatch.
  - pose proof (matchAt_positive _ _ _ _ (proj1 spaces_tame) (proj2 spaces_tame) Hmatch).
    lia.
  - pose proof (matchAt_le _ _ _ _ Hmatch) as Hle.
    cbn [append allBytes]. rewrite Hspace. cbn [andb].
    apply IH. rewrite slice_length. lia.
  - destruct s as [|c rest]; [reflexivity|].
    cbn [allBytes].
    rewrite (whitespace_none_head q c rest Hq (spaces_none _ _ Hmatch)).
    cbn [andb]. apply IH. cbn in Hfuel. lia.
Qed.

Lemma collapse_forbidden (p : ascii -> bool) (fuel : nat) :
  p " "%char = true ->
  forall prev s,
    String.length s < fuel ->
    allBytes p s = true ->
    allBytes p (replaceFrom fuel spaces (fun _ => " ") prev s) = true.
Proof.
  intros Hspace. induction fuel as [|fuel IH]; intros prev s Hfuel Hs; [lia|].
  cbn [replaceFrom]. destruct (matchAt spaces prev s) as [[|n]|] eqn:Hmatch.
  - pose proof (matchAt_positive _ _ _ _ (proj1 spaces_tame) (proj2 spaces_tame) Hmatch).
    lia.
  - pose proof (matchAt_le _ _ _ _ Hmatch) as Hle.
    cbn [append allBytes]. rewrite Hspace. cbn [andb].
    apply IH; [rewrite slice_length; lia|now apply allBytes_slice].
  - destruct s as [|c rest]; [reflexivity|].
    cbn [allBytes] in Hs |- *. apply andb_prop in Hs as [Hc Hrest].
    rewrite Hc. cbn [andb]. apply IH; [cbn in Hfuel; lia|exact Hrest].
Qed.

(** *** Titles of words separated by single spaces *)

(** Printable ASCII, the space included. *)
Definition printable (c : ascii) : bool := (32 <=? code c)%nat && (code c <=? 126)%nat.

Definition isSpace (c : ascii) : bool := Ascii.eqb c " "%char.

(** After a character that [afterSpace] tells to be a space or not: no
    space follows a space, and the text does not end on a space. *)
Fixpoint spacedFrom (afterSpace : bool) (s : string) : bool :=
  match s with
  | "" => negb afterSpace
  | String c rest =>
      printable c && negb (afterSpace && isSpace c) && spacedFrom (isSpace c) rest
  end.

(** Printable words separated by single spaces. *)
Definition spaced (s : string) : bool :=
  match s with
  | "" => true
  | _ => spacedFrom true s
  end.

Lemma printable_plain (c : ascii) :
  printable c = true -> isSpace c = false -> plain c = true.
Proof.
  unfold printable, isSpace, plain. intros H Hc.
  apply andb_prop in H as [Hlo Hhi]. apply Nat.leb_le in Hlo, Hhi.
  assert (code c <> 32).
  { intros Heq. apply Ascii.eqb_neq in Hc. apply Hc.
    rewrite <- (ascii_nat_embedding c). unfold code in Heq. now rewrite Heq. }
  apply andb_true_intro. split; apply Nat.leb_le; lia.
Qed.

Lemma spaces_at_plain (prev : option ascii) (c : ascii) (rest : string) :
  plain c = true -> matchAt spaces prev (String c rest) = None.
Proof.
  intros Hc. unfold matchAt, spaces. cbn [exec].
  now rewrite (whitespace_plain c rest Hc).
Qed.

Lemma spaces_at_single (prev : option ascii) (c : ascii) (rest : string) :
  plain c = true -> matchAt spaces prev (String " " (String c rest)) = Some 1.
Proof.
  intros Hc. unfold matchAt, spaces. cbn [exec].
  rewrite whitespace_space. cbn [String.length runs].
  rewrite (whitespace_plain c rest Hc). cbn [firstSuccess fst snd String.length].
  f_equal. lia.
Qed.

Lemma collapse_spaced (fuel : nat) :
  forall afterSpace prev s,
    String.length s < fuel ->
    spacedFrom afterSpace s = true ->
    replaceFrom fuel spaces (fun _ => " ") prev s = s.
Proof.
  induction fuel as [|fuel IH]; intros afterSpace prev s Hfuel Hs; [lia|].
  destruct s as [|c rest]; [reflexivity|].
  cbn [spacedFrom] in Hs. apply andb_prop in Hs as [Hs Hrest].
  apply andb_prop in Hs as [Hc Hpair].
  cbn [replaceFrom]. destruct (isSpace c) eqn:Hsp.
  - unfold isSpace in Hsp. apply Ascii.eqb_eq in Hsp. subst c.
    destruct rest as [|d rest']; [discriminate Hrest|].
    cbn [spacedFrom] in Hrest. apply andb_prop in Hrest as [Hd Hrest'].
    apply andb_prop in Hd as [Hd Hnot]. cbn [andb] in Hnot.
    apply negb_true_iff in Hnot.
    rewrite (spaces_at_single prev d rest' (printable_plain d Hd Hnot)).
    cbn [take slice_from append]. f_equal.
    apply (IH (isSpace " ") _ (String d rest')); [cbn in Hfuel |- *; lia|].
    cbn [spacedFrom]. rewrite Hrest', Hd, Hnot. now rewrite andb_false_r.
  - rewrite (spaces_at_plain prev c rest (printable_plain c Hc Hsp)).
    f_equal. apply (IH false); [cbn in Hfuel; lia|exact Hrest].
Qed.

Lemma spacedFrom_not_blank (c : ascii) (rest : string) (afterSpace : bool) :
  spacedFrom afterSpace (String c rest) = true -> isBlank (String c rest) = false.
Proof.
  cbn [spacedFrom]. intros H. apply andb_prop in H as [H Hrest].
  apply andb_prop in H as [Hc _].
  destruct (isSpace c) eqn:Hsp.
  - unfold isSpace in Hsp. apply Ascii.eqb_eq in Hsp. subst c.
    rewrite isBlank_space. destruct rest as [|d rest']; [discriminate Hrest|].
    cbn [spacedFrom] in Hrest. apply andb_prop in Hrest as [Hd _].
    apply andb_prop in Hd as [Hd Hnot]. cbn [andb] in Hnot.
    apply negb_true_iff in Hnot. unfold isBlank.
    now rewrite (trimStart_plain d rest' (printable_plain d Hd Hnot)).
  - unfold isBlank. now rewrite (trimStart_plain c rest (printable_plain c Hc Hsp)).
Qed.

Lemma trimEnd_spaced (s : string) (afterSpace : bool) :
  spacedFrom afterSpace s = true -> trimEnd s = s.
Proof.
  revert afterSpace. induction s as [|c rest IH]; intros afterSpace Hs; [reflexivity|].
  cbn [trimEnd]. rewrite (spacedFrom_not_blank c rest afterSpace Hs).
  cbn [spacedFrom] in Hs. apply andb_prop in Hs as [_ Hrest].
  now rewrite (IH _ Hrest).
Qed.

Lemma trim_spaced (s : string) : spaced s = true -> trim s = s.
Proof.
  destruct s as [|c rest]; [reflexivity|]. cbn [spaced]. intros Hs.
  pose proof Hs as Hs'. cbn [spacedFrom] in Hs'.
  apply andb_prop in Hs' as [Hc _]. apply andb_prop in Hc as [Hc Hfirst].
  cbn [andb] in Hfirst. apply negb_true_iff in Hfirst.
  unfold trim. rewrite (trimStart_plain c rest (printable_plain c Hc Hfirst)).
  exact (trimEnd_spaced _ true Hs).
Qed.

Lemma hyphenate_spaced (afterSpace : bool) (s : string) :
  spacedFrom afterSpace s = true ->
  spacedFrom afterSpace (substEach forbidden (fun _ => "-") s) = true.
Proof.
  revert afterSpace. induction s as [|c rest IH]; intros afterSpace Hs; [exact Hs|].
  cbn [spacedFrom] in Hs. apply andb_prop in Hs as [Hs Hrest].
  apply andb_prop in Hs as [Hc Hpair].
  cbn [substEach]. destruct (forbidden c) eqn:Hf; cbn [append spacedFrom].
  - assert (Hsp : isSpace c = false).
    { unfold isSpace. destruct (Ascii.eqb_spec c " "%char) as [->|_];
        [discriminate Hf|reflexivity]. }
    rewrite Hsp in Hrest. change (isSpace "-") with false.
    change (printable "-") with true. rewrite andb_false_r. cbn [negb andb].
    now apply IH.
  - rewrite Hc, Hpair. cbn [andb]. now apply IH.
Qed.

(** X18: the file names of the paper importer.  A sanitised title holds
    none of the characters slash, backslash, question mark, percent,
    asterisk, colon, bar, double quote and angle brackets, and no tab or
    line break; and a title of printable words separated by single spaces
    comes back with every such character replaced by a hyphen and nothing
    else changed. *)
Theorem X18_sanitized_file_names (title : string) :
  allBytes (fun c => negb (forbidden c)) (sanitize title) = true
  /\ allBytes (fun c => negb (inRange 9 13 c)) (sanitize title) = true
  /\ (spaced title = true ->
      sanitize title = substEach forbidden (fun _ => "-") title).
Proof.
  unfold sanitize. rewrite replaceAll_one. split; [|split].
  - apply trim_keeps. unfold replaceAll. apply collapse_forbidden; [reflexivity|lia|].
    apply substEach_const; [reflexivity|]. intros c Hc. now rewrite Hc.
  - apply trim_keeps. unfold replaceAll. apply collapse_keeps; [reflexivity| |lia].
    intros x Hx. apply orb_false_elim in Hx as [Hx _]. now rewrite Hx.
  - intros Hspaced.
    assert (Hs : spaced (substEach forbidden (fun _ => "-") title) = true).
    { destruct title as [|c rest]; [reflexivity|].
      cbn [spaced] in Hspaced. pose proof (hyphenate_spaced true _ Hspaced) as H.
      cbn [substEach] in H |- *. destruct (forbidden c); cbn [append] in H |- *;
        exact H. }
    unfold replaceAll.
    destruct (substEach forbidden (fun _ => "-") title) as [|c rest] eqn:Hout;
      [reflexivity|].
    cbn [spaced] in Hs. change (Plus whitespace) with spaces.
    rewrite (collapse_spaced (S (String.length (String c rest))) true None
               (String c rest) (Nat.lt_succ_diag_r _) Hs).
    now apply trim_spaced.
Qed.

End SafeTitles.

Lemma X18_witness :
  PaperImporter.sanitize "Attention Is All You Need: A Study <v2>"
  = "Attention Is All You Need- A Study -v2-".
Proof.
  exact (proj2 (proj2 (X18_sanitized_file_names "Attention Is All You Need: A Study <v2>"))
           eq_refl).
Defined.

(* ===================================================================== *)
(** * src/services/ImageService.ts: a free file name *)
(* ===================================================================== *)

From Stdlib Require DecimalNat.

Module ImageService.

(** The name tried at [counter]: the base name itself first, then the
    base name, a space and the counter. *)
Definition candidate (baseName extension : string) (counter : nat) : string :=
  match counter with
  | O => baseName ++ extension
  | S _ => baseName ++ " " ++ decimal counter ++ extension
  end.

Definition fullPath (attachmentFolder filename : string) : string :=
  if attachmentFolder =? "" then filename else attachmentFolder ++ "/" ++ filename.

(** The [while (await adapter.exists(fullPath))] loop of
    [generateUniqueFilename], entered with [counter]; [fuel] bounds the
    number of names tried, and [None] stands for a loop that has not
    stopped within the bound. *)
Fixpoint probe (fuel : nat) (exists_ : string -> bool)
  (attachmentFolder baseName extension : string) (counter : nat) : option string :=
  match fuel with
  | O => None
  | S fuel' =>
      let filename := candidate baseName extension counter in
      if exists_ (fullPath attachmentFolder filename)
      then probe fuel' exists_ attachmentFolder baseName extension (S counter)
      else Some filename
  end.

(** A vault that holds the files at [paths]. *)
Definition holds (paths : list string) (path : string) : bool :=
  existsb (String.eqb path) paths.

Definition generateUniqueFilename (paths : list string)
  (attachmentFolder baseName extension : string) : option string :=
  probe (S (List.length paths)) (holds paths) attachmentFolder baseName extension 0.

End ImageService.

Section UniqueFilename.
Import ImageService.

Lemma decimal_injective (a b : nat) : decimal a = decimal b -> a = b.
Proof.
  unfold decimal. intros H.
  apply (f_equal DecimalString.NilEmpty.uint_of_string) in H.
  rewrite !DecimalString.NilEmpty.usu in H. injection H as H.
  apply (f_equal Nat.of_uint) in H.
  now rewrite !DecimalNat.Unsigned.of_to in H.
Qed.

Lemma append_cancel_l (a x y : string) : a ++ x = a ++ y -> x = y.
Proof.
  induction a as [|c a IH]; cbn [append]; [auto|].
  intros H. injection H as H. now apply IH.
Qed.

Lemma append_cancel_r (x y e : string) : x ++ e = y ++ e -> x = y.
Proof.
  revert y. induction x as [|c x IH]; intros y H.
  - destruct y as [|d y]; [reflexivity|]. exfalso.
    apply (f_equal String.length) in H. cbn [append String.length] in H.
    rewrite length_app in H. lia.
  - destruct y as [|d y].
    + exfalso. apply (f_equal String.length) in H. cbn [append String.length] in H.
      rewrite length_app in H. lia.
    + cbn [append] in H. injection H as -> H. f_equal. now apply IH.
Qed.

Lemma candidate_injective (baseName extension : string) (j k : nat) :
  candidate baseName extension j = candidate baseName extension k -> j = k.
Proof.
  unfold candidate. destruct j as [|j], k as [|k]; intros H.
  - reflexivity.
  - exfalso. apply append_cancel_l in H. apply (f_equal String.length) in H.
    cbn [append String.length] in H. rewrite length_app in H. lia.
  - exfalso. apply append_cancel_l in H. apply (f_equal String.length) in H.
    cbn [append String.length] in H. rewrite length_app in H. lia.
  - apply append_cancel_l in H. cbn [append] in H. injection H as H.
    apply append_cancel_r in H. now apply decimal_injective.
Qed.

Lemma fullPath_injective (attachmentFolder a b : string) :
  fullPath attachmentFolder a = fullPath attachmentFolder b -> a = b.
Proof.
  unfold fullPath. destruct (attachmentFolder =? ""); [auto|].
  intros H. apply append_cancel_l in H. cbn [append] in H. now injection H.
Qed.

Lemma holds_In (paths : list string) (path : string) :
  holds paths path = true -> In path paths.
Proof.
  unfold holds. intros H. apply existsb_exists in H as [p [Hin Heq]].
  apply String.eqb_eq in Heq. now subst p.
Qed.

Lemma probe_spec (exists_ : string -> bool) (folder baseName extension : string)
  (fuel : nat) :
  forall counter,
    match probe fuel exists_ folder baseName extension counter with
    | Some filename =>
        exists k,
          counter <= k < counter + fuel
          /\ filename = candidate baseName extension k
          /\ exists_ (fullPath folder filename) = false
          /\ forall j, counter <= j < k ->
               exists_ (fullPath folder (candidate baseName extension j)) = true
    | None =>
        forall j, counter <= j < counter + fuel ->
          exists_ (fullPath folder (candidate baseName extension j)) = true
    end.
Proof.
  induction fuel as [|fuel IH]; intros counter; cbn [probe].
  - intros j Hj. lia.
  - cbv zeta.
    destruct (exists_ (fullPath folder (candidate baseName extension counter))) eqn:Hhere.
    + specialize (IH (S counter)).
      destruct (probe fuel exists_ folder baseName extension (S counter)) as [f|].
      * destruct IH as [k [Hk [Hf [Hfree Hbefore]]]].
        exists k. split; [lia|]. split; [exact Hf|]. split; [exact Hfree|].
        intros j Hj. destruct (Nat.eq_dec j counter) as [->|Hne]; [exact Hhere|].
        apply Hbefore. lia.
      * intros j Hj. destruct (Nat.eq_dec j counter) as [->|Hne]; [exact Hhere|].
        apply IH. lia.
    + exists counter. split; [lia|]. split; [reflexivity|]. split; [exact Hhere|].
      intros j Hj. lia.
Qed.

(** X19: [generateUniqueFilename] in a vault that holds finitely many
    files.  The loop stops after at most as many probes as there are files
    plus one, and returns the first name of the sequence "base.ext",
    "base 1.ext", "base 2.ext", ... whose path is free: the path of the
    name returned does not exist, and the paths of all names before it in
    the sequence do. *)
Theorem X19_generateUniqueFilename (paths : list string)
  (attachmentFolder baseName extension : string) :
  exists k,
    k <= List.length paths
    /\ generateUniqueFilename paths attachmentFolder baseName extension
       = Some (candidate baseName extension k)
    /\ holds paths (fullPath attachmentFolder (candidate baseName extension k)) = false
    /\ forall j, j < k ->
         holds paths (fullPath attachmentFolder (candidate baseName extension j)) = true.
Proof.
  unfold generateUniqueFilename.
  pose proof (probe_spec (holds paths) attachmentFolder baseName extension
                (S (List.length paths)) 0) as Hspec.
  destruct (probe (S (List.length paths)) (holds paths) attachmentFolder baseName
              extension 0) as [filename|].
  - destruct Hspec as [k [Hk [-> [Hfree Hbefore]]]].
    exists k. split; [lia|]. split; [reflexivity|]. split; [exact Hfree|].
    intros j Hj. apply Hbefore. lia.
  - exfalso.
    set (names := map (fun j => fullPath attachmentFolder
                                  (candidate baseName extension j))
                      (seq 0 (S (List.length paths)))).
    assert (Hnodup : NoDup names).
    { apply NoDup_map_NoDup_ForallPairs; [|apply seq_NoDup].
      intros a b _ _ Heq. apply fullPath_injective in Heq.
      now apply candidate_injective in Heq. }
    assert (Hincl : incl names paths).
    { intros p Hp. apply in_map_iff in Hp as [j [<- Hj]]. apply in_seq in Hj.
      apply holds_In. apply Hspec. lia. }
    pose proof (NoDup_incl_length Hnodup Hincl) as Hlen.
    unfold names in Hlen. rewrite length_map, length_seq in Hlen. lia.
Qed.

End UniqueFilename.

(* ===================================================================== *)
(** * The chat: the prompt of a turn and the list of sessions *)
(* ===================================================================== *)

Module ChatContext.

Definition nl : string := String newline "".






End ChatContext.

Section ChatPrompt.
Import ChatContext.







End ChatPrompt.


Module ChatSessions.









End ChatSessions.

Section SessionList.
Import ChatSessions.





End SessionList.


(* ===================================================================== *)
(** * src/components/NoteSuggester.ts: choosing a note *)
(* ===================================================================== *)

Module NoteSuggester.

(** [s.lastIndexOf(marker)]: [i] is the position of the front of [s],
    [found] the last occurrence so far; [None] stands for -1. *)
Fixpoint lastIndexOfFrom (marker s : string) (i : nat) (found : option nat)
  : option nat :=
  let found' := if startsWith marker s then Some i else found in
  match s with
  | "" => found'
  | String _ rest => lastIndexOfFrom marker rest (S i) found'
  end.

Definition lastIndexOf (marker s : string) : option nat :=
  lastIndexOfFrom marker s 0 None.

(** The text area: its value and the position of the cursor, counted in
    units of the value. *)
Record TextArea : Type := mkTextArea {
  value : string;
  selectionStart : nat
}.

(** [ChatNoteSuggester.onChooseItem]: the last "[[" before the cursor and
    what was typed after it give way to the tag of the chosen note. *)
Definition onChooseItem (noteName : string) (targetInput : TextArea) : TextArea :=
  let currentValue := value targetInput in
  let cursorPosition := selectionStart targetInput in
  let beforeCursor := QuizManager.substring 0 cursorPosition currentValue in
  match lastIndexOf "[[" beforeCursor with
  | Some lastBracketIndex =>
      let beforeBrackets := QuizManager.substring 0 lastBracketIndex currentValue in
      let afterCursor := slice_from cursorPosition currentValue in
      mkTextArea (beforeBrackets ++ "[[" ++ noteName ++ "]]" ++ afterCursor)
                 (lastBracketIndex + String.length noteName + 4)
  | None => targetInput
  end.

(** A file of the vault, as the lookups see it. *)
Record TFile : Type := mkFile {
  basename : string;
  name : string;
  path : string;
  contents : result string
}.

(** [NoteSuggester.onChooseItem]: the input holds the base name. *)
Definition chooseNote (item : TFile) : string := basename item.

End NoteSuggester.

Module NoteLookup.
Import NoteSuggester.

(** [noteName.replace(/^\[\[|\]\]$/g, '')], read from the left: at the
    start of the text two opening brackets are dropped; two closing
    brackets that end the text are dropped; every other unit is kept. *)
Fixpoint cleanFrom (atStart : bool) (fuel : nat) (s : string) : string :=
  match fuel with
  | O => s
  | S fuel' =>
      if atStart && startsWith "[[" s then cleanFrom false fuel' (slice_from 2 s)
      else if s =? "]]" then ""
      else match s with
           | "" => ""
           | String c rest => String c (cleanFrom false fuel' rest)
           end
  end.

Definition cleanName (noteName : string) : string :=
  cleanFrom true (S (String.length noteName)) noteName.

(** [QuizManager.getNoteContent]: [None] stands for null. *)
Definition getNoteContent (files : list TFile) (noteName : string)
  : result (option string) :=
  let cleanName := cleanName noteName in
  match find (fun f => (basename f =? cleanName) || (name f =? cleanName)
                       || (name f =? cleanName ++ ".md")) files with
  | None => Ok None
  | Some file =>
      content <- contents file ;;
      Ok (Some content)
  end.

End NoteLookup.

Section Suggester.
Import Regex ChatInput NoteSuggester NoteLookup.

Lemma lastIndexOf_typed (typed : string) (i : nat) (found : option nat) :
  allBytes noOpeningBracket typed = true ->
  lastIndexOfFrom "[[" typed i found = found.
Proof.
  revert i. induction typed as [|c typed IH]; intros i H; [reflexivity|].
  cbn [allBytes] in H. apply andb_prop in H as [Hc Hrest].
  cbn [lastIndexOfFrom startsWith]. unfold noOpeningBracket in Hc.
  apply negb_true_iff in Hc. rewrite Ascii.eqb_sym, Hc. cbn [andb].
  now apply IH.
Qed.

Lemma lastIndexOf_opening (before typed : string) :
  allBytes noOpeningBracket typed = true ->
  forall i found,
    lastIndexOfFrom "[[" (before ++ "[[" ++ typed) i found
    = Some (i + String.length before).
Proof.
  intros Htyped. induction before as [|c before IH]; intros i found.
  - cbn [append String.length]. rewrite Nat.add_0_r.
    destruct typed as [|d typed'].
    + reflexivity.
    + cbn [allBytes] in Htyped. apply andb_prop in Htyped as [Hd Hrest].
      unfold noOpeningBracket in Hd. apply negb_true_iff in Hd.
      cbn [startsWith lastIndexOfFrom]. rewrite !Ascii.eqb_refl.
      rewrite (Ascii.eqb_sym "[" d), Hd. cbn [andb].
      apply (lastIndexOf_typed typed' _ _ Hrest).
  - cbn [append lastIndexOfFrom]. rewrite IH. cbn [String.length]. f_equal. lia.
Qed.

Lemma execAll_first (before name after : string) :
  allBytes noOpeningBracket before = true ->
  name <> "" -> allBytes notClosingBracket name = true ->
  exists more,
    extractTaggedNotes (before ++ tag name ++ after) = name :: more.
Proof.
  intros Hbefore Hne Hname. unfold extractTaggedNotes.
  destruct (execAll_plain before Hbefore
              (S (String.length (before ++ tag name ++ after))) None
              (tag name ++ after)) as [prev' Heq].
  { rewrite length_app. lia. }
  rewrite Heq. rewrite length_app.
  replace (S (String.length before + String.length (tag name ++ after))
           - String.length before)
    with (S (String.length (tag name ++ after))) by lia.
  cbn [execAll]. rewrite (noteRegex_complete _ _ _ Hne Hname).
  cbn [Nat.add Nat.sub]. eexists. f_equal.
  unfold tag. cbn [append slice_from]. rewrite Nat.sub_0_r.
  rewrite append_assoc3. apply take_app_exact.
Qed.

(** X22: choosing a note in the chat suggester.  With the cursor behind
    an opening "[[" and what has been typed after it (no bracket among
    it), choosing a note replaces the "[[" and the typed text by the tag of
    the note: the text before and the text after the cursor stay, and the
    cursor lands right behind the tag.  When no bracket stands before the
    tag, the note is the first that [extractTaggedNotes] finds in the
    message, provided its name is not empty and holds no closing
    bracket. *)
Theorem X22_chosen_note_is_tagged (before typed after noteName : string) :
  allBytes noOpeningBracket typed = true ->
  let input := mkTextArea (before ++ "[[" ++ typed ++ after)
                          (String.length (before ++ "[[" ++ typed)) in
  let chosen := onChooseItem noteName input in
  value chosen = before ++ tag noteName ++ after
  /\ selectionStart chosen = String.length (before ++ tag noteName)
  /\ (allBytes noOpeningBracket before = true ->
      noteName <> "" -> allBytes notClosingBracket noteName = true ->
      exists more, extractTaggedNotes (value chosen) = noteName :: more).
Proof.
  intros Htyped. cbv zeta.
  assert (Hvalue : before ++ "[[" ++ typed ++ after = (before ++ "[[" ++ typed) ++ after).
  { now rewrite !append_assoc3. }
  assert (Hchosen : onChooseItem noteName
                      (mkTextArea (before ++ "[[" ++ typed ++ after)
                                  (String.length (before ++ "[[" ++ typed)))
                    = mkTextArea (before ++ tag noteName ++ after)
                                 (String.length before + String.length noteName + 4)).
  { unfold onChooseItem. cbv zeta. cbn [value selectionStart].
    unfold QuizManager.substring. cbn [slice_from]. rewrite !Nat.sub_0_r.
    rewrite Hvalue at 1. rewrite take_app_exact.
    unfold lastIndexOf. rewrite (lastIndexOf_opening before typed Htyped 0 None).
    cbn [Nat.add]. rewrite Nat.sub_0_r, take_app_exact.
    rewrite Hvalue, slice_app_exact. unfold tag.
    now rewrite !append_assoc3. }
  rewrite Hchosen. cbn [value selectionStart].
  split; [reflexivity|]. split.
  - unfold tag. rewrite !length_app. cbn [String.length]. lia.
  - intros Hbefore Hne Hname. now apply execAll_first.
Qed.

(** *** Looking a chosen note up *)

Lemma cleanFrom_plain (s : string) :
  forall fuel, String.length s < fuel ->
    (String.length s < 2 \/ startsWith "]]" (slice_from (String.length s - 2) s) = false) ->
    cleanFrom false fuel s = s.
Proof.
  induction s as [|c rest IH]; intros fuel Hfuel Hend.
  - destruct fuel; reflexivity.
  - destruct fuel as [|fuel]; [lia|]. cbn [cleanFrom andb].
    destruct (String.eqb_spec (String c rest) "]]") as [Heq|_].
    + exfalso. rewrite Heq in Hend. destruct Hend as [Hlen|Hno];
        [cbn in Hlen; lia|discriminate Hno].
    + f_equal. apply IH; [cbn in Hfuel; lia|].
      destruct rest as [|d rest']; [left; cbn; lia|].
      destruct rest' as [|e rest'']; [left; cbn; lia|]. right.
      destruct Hend as [Hlen|Hno]; [cbn in Hlen; lia|].
      cbn [String.length] in Hno |- *.
      replace (S (S (S (String.length rest''))) - 2) with (S (String.length rest''))
        in Hno by lia.
      replace (S (S (String.length rest'')) - 2) with (String.length rest'') by lia.
      exact Hno.
Qed.

(** A name that neither begins with two opening brackets nor ends with
    two closing ones. *)
Definition bare (noteName : string) : Prop :=
  startsWith "[[" noteName = false
  /\ (String.length noteName < 2
      \/ startsWith "]]" (slice_from (String.length noteName - 2) noteName) = false).

Lemma cleanName_bare (noteName : string) : bare noteName -> cleanName noteName = noteName.
Proof.
  intros [Hstart Hend]. unfold cleanName. cbn [cleanFrom]. rewrite Hstart. cbn [andb].
  destruct (String.eqb_spec noteName "]]") as [Heq|_].
  - exfalso. rewrite Heq in Hend. destruct Hend as [Hlen|Hno];
      [cbn in Hlen; lia|discriminate Hno].
  - destruct noteName as [|c rest]; [reflexivity|]. f_equal.
    apply cleanFrom_plain; [cbn; lia|].
    destruct rest as [|d rest']; [left; cbn; lia|].
    destruct rest' as [|e rest'']; [left; cbn; lia|]. right.
    destruct Hend as [Hlen|Hno]; [cbn in Hlen; lia|].
    cbn [String.length] in Hno |- *.
    replace (S (S (S (String.length rest''))) - 2) with (S (String.length rest''))
      in Hno by lia.
    replace (S (S (String.length rest'')) - 2) with (String.length rest'') by lia.
    exact Hno.
Qed.

(** X23: the note suggester of the quiz and [getNoteContent].  For a file
    of the vault whose base name is bare of the double brackets,
    [getNoteContent] called with the base name that the suggester puts
    into the input does not return null: it reads the first file of the
    vault that goes by the name, as base name, as file name or as file name
    with ".md" added; that file is the chosen one when no other file goes
    by the name; a failing read is passed on.  When the file that is read is
    empty, [generateTest] nevertheless shows the notice that the note was
    not found. *)
Theorem X23_chosen_note_is_found (files : list TFile) (item : TFile) :
  In item files ->
  bare (basename item) ->
  let wanted := chooseNote item in
  let goesBy := fun f => (basename f =? wanted) || (name f =? wanted)
                         || (name f =? wanted ++ ".md") in
  exists file,
    find goesBy files = Some file
    /\ goesBy file = true
    /\ getNoteContent files wanted
       = match contents file with
         | Ok content => Ok (Some content)
         | Throw e => Throw e
         end
    /\ (Forall (fun f => f = item \/ goesBy f = false) files -> file = item)
    /\ (contents file = Ok "" ->
        forall generated rendered,
          QuizFlow.generateTest false wanted (getNoteContent files wanted)
            generated rendered
          = (false, QuizFlow.Notice (QuizFlow.notFound wanted))).
Proof.
  intros Hin Hbare. cbv zeta. unfold chooseNote.
  set (goesBy := fun f => (basename f =? basename item) || (name f =? basename item)
                          || (name f =? basename item ++ ".md")).
  assert (Hitem : goesBy item = true).
  { unfold goesBy. now rewrite String.eqb_refl. }
  destruct (find goesBy files) as [file|] eqn:Hfind.
  - exists file. split; [reflexivity|].
    pose proof (find_some _ _ Hfind) as [Hfile Hgoes].
    assert (Hget : getNoteContent files (basename item)
                   = match contents file with
                     | Ok content => Ok (Some content)
                     | Throw e => Throw e
                     end).
    { unfold getNoteContent. cbv zeta. rewrite (cleanName_bare _ Hbare).
      fold goesBy. rewrite Hfind. now destruct (contents file). }
    split; [exact Hgoes|]. split; [exact Hget|]. split.
    + intros Hall. rewrite Forall_forall in Hall.
      destruct (Hall file Hfile) as [Heq|Hnot]; [exact Heq|].
      unfold goesBy in Hgoes, Hnot. cbv beta in Hgoes, Hnot. congruence.
    + intros Hempty generated rendered. rewrite Hget, Hempty. reflexivity.
  - exfalso. pose proof (find_none _ _ Hfind item Hin). congruence.
Qed.

End Suggester.

Lemma X22_witness :
  NoteSuggester.onChooseItem "Linear Algebra"
    (NoteSuggester.mkTextArea "compare [[Lin with calculus" 13)
  = NoteSuggester.mkTextArea "compare [[Linear Algebra]] with calculus" 26
  /\ (exists more,
        ChatInput.extractTaggedNotes "compare [[Linear Algebra]] with calculus"
        = "Linear Algebra" :: more).
Proof.
  split; [reflexivity|].
  exact (proj2 (proj2 (X22_chosen_note_is_tagged "compare " "Lin" " with calculus"
                         "Linear Algebra" eq_refl))
           eq_refl ltac:(discriminate) eq_refl).
Defined.

Definition emptyNote : NoteSuggester.TFile :=
  NoteSuggester.mkFile "Algebra" "Algebra.md" "Math/Algebra.md" (Ok "").

Lemma X23_witness :
  NoteLookup.getNoteContent [emptyNote] "Algebra" = Ok (Some "")
  /\ QuizFlow.generateTest false "Algebra"
       (NoteLookup.getNoteContent [emptyNote] "Algebra") (Ok []) (Ok tt)
     = (false, QuizFlow.Notice (QuizFlow.notFound "Algebra")).
Proof.
  destruct (X23_chosen_note_is_found [emptyNote] emptyNote
              (or_introl eq_refl) (conj eq_refl (or_intror eq_refl)))
    as [file [Hfind [_ [Hget [_ Hnotice]]]]].
  injection Hfind as <-.
  split; [exact Hget | exact (Hnotice eq_refl (Ok []) (Ok tt))].
Defined.
